(** * Late-stage labor/capital simulation: a shallow embedding of
      [programs/sim/sim.py] and the properties of its monthly kernel,
      driver and aggregator.

    The per-agent arrays are lists, boolean masks are [list bool], NumPy
    [float32]/[float64] values are IEEE-754 values of the Standard
    Library's [spec_float], [uint8] values are integers reduced modulo
    256, and Python exceptions are the [Err] case of a result monad.  The
    random generator and the handful of NumPy routines whose numerics are
    not reproduced here (the Gaussian and log-normal samplers, [mean],
    [percentile], Python's [float ** int]) are the fields of the class
    [Numpy]; the general theorems hold for all its instances, and a
    table-driven instance runs the program on explicit inputs. *)

From Stdlib Require Import ZArith Bool Lia.
From Stdlib Require Import SpecFloat.
From stdpp Require Import base tactics option list numbers relations.

Local Open Scope Z_scope.

(* ------------------------------------------------------------------ *)
(** * Floating point: binary32 and binary64                            *)
(* ------------------------------------------------------------------ *)

Module F32.
Definition prec : Z := 24.
Definition emax : Z := 128.
Definition add := SFadd prec emax.
Definition sub := SFsub prec emax.
Definition div := SFdiv prec emax.
(** the float32 nearest to the dyadic number [m * 2^e] *)
Definition of_dyadic (m e : Z) : spec_float := binary_normalize prec emax m e false.
Definition of_Z (m : Z) : spec_float := of_dyadic m 0.
End F32.

Module F64.
Definition prec : Z := 53.
Definition emax : Z := 1024.
Definition mul := SFmul prec emax.
Definition sub := SFsub prec emax.
Definition of_dyadic (m e : Z) : spec_float := binary_normalize prec emax m e false.
Definition of_Z (m : Z) : spec_float := of_dyadic m 0.
End F64.

Abbreviation f32 := spec_float.
Abbreviation f64 := spec_float.

(** [x.astype(np.float32)] on a float64, and the cast NumPy applies to a
    Python float that meets a float32 array in a ufunc. *)
Definition to_f32 (x : f64) : f32 :=
  match x with
  | S754_finite s m e => binary_normalize F32.prec F32.emax (cond_Zopp s (Zpos m)) e s
  | _ => x
  end.

(** The widening cast float32 -> float64 is exact; a finite value keeps
    its mantissa and exponent up to normalisation. *)
Definition to_f64 (x : f32) : f64 :=
  match x with
  | S754_finite s m e => binary_normalize F64.prec F64.emax (cond_Zopp s (Zpos m)) e s
  | _ => x
  end.

Definition is_nan (x : spec_float) : bool :=
  match x with S754_nan => true | _ => false end.

(** Elementwise comparisons of NumPy: IEEE, false on NaN. *)
Definition flt (x y : spec_float) : bool := SFltb x y.
Definition fle (x y : spec_float) : bool := SFleb x y.
Definition fge (x y : spec_float) : bool := SFleb y x.
Definition fgt (x y : spec_float) : bool := SFltb y x.

(** [np.minimum]: the first operand when it is NaN. *)
Definition np_minimum (a b : spec_float) : spec_float :=
  if is_nan a then a else if flt a b then a else b.

(** [np.clip(x, lo, hi)] with scalar bounds: when a bound is NaN the
    result is that NaN; otherwise a value below [lo] becomes [lo], then a
    value above [hi] becomes [hi], and every other value is kept as it
    is, NaN and a zero of either sign included. *)
Definition np_clip (x lo hi : spec_float) : spec_float :=
  if is_nan lo then lo
  else if is_nan hi then hi
  else
    let x := if flt x lo then lo else x in
    if fgt x hi then hi else x.

(** The order [np.sort] and [searchsorted] use on floats: NaN is larger
    than every number. *)
Definition np_less (a b : spec_float) : bool :=
  flt a b || (is_nan b && negb (is_nan a)).

(* ------------------------------------------------------------------ *)
(** * Python exceptions as a result monad                              *)
(* ------------------------------------------------------------------ *)

Inductive exn : Set :=
  | ValueError
  | IndexError
  | ZeroDivisionError
  | OverflowError.

Inductive result (A : Type) : Type :=
  | Ok (a : A)
  | Err (e : exn).
Arguments Ok {A} a.
Arguments Err {A} e.

#[global] Instance result_ret : MRet result := fun A a => Ok a.
#[global] Instance result_bind : MBind result := fun A B f m =>
  match m with
  | Ok a => f a
  | Err e => Err e
  end.

(** A [for] loop whose body may raise: the state is threaded through
    the elements in order and the first exception ends the loop. *)
Fixpoint foldlM {A B} (f : B -> A -> result B) (b : B) (l : list A) : result B :=
  match l with
  | [] => Ok b
  | x :: l' => b' ← f b x; foldlM f b' l'
  end.

Definition is_Ok {A} (r : result A) : bool :=
  match r with Ok _ => true | Err _ => false end.

(* ------------------------------------------------------------------ *)
(** * State encoding                                                   *)
(* ------------------------------------------------------------------ *)

Inductive State : Set := STABLE | PRECARIOUS | INSOLVENT | EXITED.

(** The [np.uint8] code stored in the [state] array. *)
Definition state_code (s : State) : Z :=
  match s with STABLE => 0 | PRECARIOUS => 1 | INSOLVENT => 2 | EXITED => 3 end.

Definition state_eqb (a b : State) : bool := state_code a =? state_code b.

#[global] Instance State_eq_dec : EqDecision State.
Proof. solve_decision. Defined.

(** [np.uint8] wrap-around. *)
Definition uint8 (z : Z) : Z := z mod 256.

(* ------------------------------------------------------------------ *)
(** * Boolean masks and masked array operations                        *)
(* ------------------------------------------------------------------ *)

Abbreviation mask := (list bool).

(** The mask bit of agent [i]; an index outside the mask counts as
    [False] (NumPy would reject a mask of the wrong length, and every
    mask below is computed from arrays of the chunk's own length). *)
Definition mask_at (m : mask) (i : nat) : bool := default false (m !! i).

Definition mand (a b : mask) : mask := zip_with andb a b.
Definition mnot (a : mask) : mask := negb <$> a.

(** [m.any()] and [m.sum()] *)
Definition mask_any (m : mask) : bool := foldr orb false m.
Definition mask_sum (m : mask) : nat := foldr (fun (b : bool) n => if b then S n else n) 0%nat m.

(** [xs[m]]: the elements selected by a boolean index. *)
Fixpoint select {A} (m : mask) (xs : list A) : list A :=
  match m, xs with
  | b :: m', x :: xs' => if b then x :: select m' xs' else select m' xs'
  | _, _ => []
  end.

(** [xs[m] = f(xs[m])] elementwise, e.g. [xs[m] = v] or [xs[m] -= c]. *)
Fixpoint where_ {A} (m : mask) (f : A -> A) (xs : list A) : list A :=
  match xs, m with
  | x :: xs', b :: m' => (if b then f x else x) :: where_ m' f xs'
  | _, _ => xs
  end.

(** [xs[m] = vals] and [xs[m] op= vals], where [vals] has one element per
    selected position and is consumed in index order. *)
Fixpoint scatter_with {A B} (f : A -> B -> A) (m : mask) (xs : list A) (vals : list B) : list A :=
  match xs, m with
  | x :: xs', b :: m' =>
      if b then
        match vals with
        | v :: vals' => f x v :: scatter_with f m' xs' vals'
        | [] => x :: scatter_with f m' xs' []
        end
      else x :: scatter_with f m' xs' vals
  | _, _ => xs
  end.

Definition scatter {A} (m : mask) (xs : list A) (vals : list A) : list A :=
  scatter_with (fun _ v => v) m xs vals.

(** [np.count_nonzero(m)] as an [int64]; array lengths are far below
    [2^63], so the count is the integer itself. *)
Definition count_nonzero (m : mask) : Z := Z.of_nat (mask_sum m).

(** Slices [xs[start:stop]] (a view in NumPy) and the write-back
    [xs[start:stop] = new]. *)
Definition slice {A} (start stop : nat) (xs : list A) : list A :=
  take (stop - start) (drop start xs).
Definition set_slice {A} (start stop : nat) (xs new : list A) : list A :=
  take start xs ++ new ++ drop stop xs.

(** Tuple indexing [t[i]]. *)
Definition tuple_get {A} (t : list A) (i : nat) : result A :=
  match t !! i with Some x => Ok x | None => Err IndexError end.

(** Fancy indexing [xs[idx]] with an integer index array. *)
Fixpoint gather {A} (xs : list A) (idx : list Z) : result (list A) :=
  match idx with
  | [] => Ok []
  | i :: idx' =>
      x ← (if i <? 0 then Err IndexError else tuple_get xs (Z.to_nat i));
      rest ← gather xs idx';
      Ok (x :: rest)
  end.

(** Python's [range(start, stop, step)]. *)
Definition py_range (start stop step : Z) : result (list Z) :=
  if step =? 0 then Err ValueError
  else
    let len := if 0 <? step then (stop - start + step - 1) / step
               else (start - stop - step - 1) / (- step) in
    Ok ((fun k => start + Z.of_nat k * step) <$> seq 0 (Z.to_nat len)).

(** [np.zeros(n)] / [np.empty((n,))]: a negative dimension is rejected. *)
Definition np_zeros {A} (zero : A) (n : Z) : result (list A) :=
  if n <? 0 then Err ValueError else Ok (replicate (Z.to_nat n) zero).

(* ------------------------------------------------------------------ *)
(** * Parameters                                                       *)
(* ------------------------------------------------------------------ *)

Record SimParams := {
  seed : Z;
  months : Z;
  capital_logn_mu : f64;
  capital_logn_sigma : f64;
  capital_cap_max : f64;
  tier_probs : list f64;
  job_slot_ratio0 : f64;
  job_slot_decline : f64;
  hire_friction : f64;
  rev_employed_mu : list f64;
  rev_unemployed_mu : list f64;
  rev_sigma : list f64;
  shock_prob_monthly : f64;
  shock_cost_mu : f64;
  shock_cost_sigma : f64;
  separation_prob_monthly : f64;
  separation_income_hit : f64;
  precarious_thresh : f64;
  insolvent_thresh : f64;
  unemp_exit_boost_after : Z;
  exit_prob_monthly_if_insolvent_unemployed : f64;
  exit_prob_monthly_if_insolvent_only : f64;
  chunk_size : Z;
  sample_size : Z;
  hist_bins : list f64;
}.

(* ------------------------------------------------------------------ *)
(** * The NumPy routines the program calls                             *)
(* ------------------------------------------------------------------ *)

(** [Generator] is the state of a [np.random.Generator]; each sampler
    returns its draws with the advanced state.  Samplers that validate
    their arguments ([sigma < 0], probabilities that do not sum to one,
    a negative seed or size, ...) return [Err].  The laws say only that
    a sampler returns as many draws as asked and that [choice(a, ...)]
    returns indices below [a]. *)
Class Numpy := {
  Generator : Type;
  default_rng : Z -> result Generator;
  (** [rng.random(size, dtype=np.float32)] *)
  rng_random : nat -> Generator -> list f32 * Generator;
  (** [rng.lognormal(mean, sigma, size)] *)
  rng_lognormal : f64 -> f64 -> nat -> Generator -> result (list f64 * Generator);
  (** [rng.normal(loc, scale, size)] with an array [loc] *)
  rng_normal : list f32 -> f64 -> nat -> Generator -> result (list f64 * Generator);
  (** [rng.choice(a, size, p=p)] *)
  rng_choice : Z -> nat -> list f64 -> Generator -> result (list Z * Generator);
  (** [rng.choice(a, size, replace=False)] *)
  rng_choice_norepl : Z -> Z -> Generator -> result (list Z * Generator);
  (** [a.mean()] of a float32 array *)
  np_mean : list f32 -> f32;
  (** [np.percentile(a, q)] *)
  np_percentile : list f32 -> list Z -> result (list f64);
  (** Python's [x ** n] on a float and an int *)
  py_pow : f64 -> Z -> result f64;

  rng_random_length n g : length (rng_random n g).1 = n;
  rng_lognormal_length mu sg n g l g' :
    rng_lognormal mu sg n g = Ok (l, g') -> length l = n;
  rng_normal_length loc sc n g l g' :
    rng_normal loc sc n g = Ok (l, g') -> length l = n;
  rng_choice_spec a n pr g l g' :
    rng_choice a n pr g = Ok (l, g') -> length l = n /\ Forall (fun x => 0 <= x < a) l;
  rng_choice_norepl_spec a k g l g' :
    rng_choice_norepl a k g = Ok (l, g') ->
    length l = Z.to_nat k /\ Forall (fun x => 0 <= x < a) l;
  np_percentile_length a q l :
    np_percentile a q = Ok l -> length l = length q;
}.

(* ------------------------------------------------------------------ *)
(** * Population, chunks and series                                    *)
(* ------------------------------------------------------------------ *)

Record Population := {
  capital : list f32;
  tiers : list Z;
  employed : list Z;
  unemp_months : list Z;
  state : list State;
  sample_idx : list Z;
}.

(** The five slices a chunk of the kernel works on. *)
Record Chunk := {
  cap : list f32;
  tr : list Z;
  emp : list Z;
  um : list Z;
  stt : list State;
}.

Record Series := {
  active_ct : list Z;
  exited_ct : list Z;
  emp_ct : list Z;
  unemp_ct : list Z;
  mean : list f32;
  p10 : list f32;
  p50 : list f32;
  p90 : list f32;
  hist : list (list Z);
  bins : list f32;
}.

Record Output := {
  series : Series;
  final_effective_job_slot_ratio : f64;
  pop : Population;
}.

(** One month's entries of the series. *)
Record MonthStats := {
  ms_active : Z;
  ms_exited : Z;
  ms_emp : Z;
  ms_unemp : Z;
  ms_mean : f32;
  ms_p10 : f32;
  ms_p50 : f32;
  ms_p90 : f32;
  ms_hist : list Z;
}.

(** [active_ct[m] = ...], ..., [hist[m] = ...] *)
Definition record_month (m : nat) (st : MonthStats) (ser : Series) : Series :=
  {| active_ct := <[m := ms_active st]> (active_ct ser);
     exited_ct := <[m := ms_exited st]> (exited_ct ser);
     emp_ct := <[m := ms_emp st]> (emp_ct ser);
     unemp_ct := <[m := ms_unemp st]> (unemp_ct ser);
     mean := <[m := ms_mean st]> (mean ser);
     p10 := <[m := ms_p10 st]> (p10 ser);
     p50 := <[m := ms_p50 st]> (p50 ser);
     p90 := <[m := ms_p90 st]> (p90 ser);
     hist := <[m := ms_hist st]> (hist ser);
     bins := bins ser |}.

(** [stt != EXITED] *)
Definition active_mask (stt : list State) : mask :=
  (fun s => negb (state_eqb s EXITED)) <$> stt.

(** [np.minimum(um + 1, 255).astype(np.uint8)] on one [uint8] element:
    the sum is formed in [uint8] (the Python int [1] does not widen the
    array's type), then bounded by 255. *)
Definition inc_unemp (u : Z) : Z := uint8 (Z.min (uint8 (u + 1)) 255).

(** [np.histogram(a, bins=edges)[0]] for an explicit edge array: NumPy
    rejects decreasing edges, sorts the data and takes differences of
    [searchsorted] positions, the last edge searched from the right. *)
Definition searchsorted_left (a : list f32) (v : f32) : Z :=
  count_nonzero ((fun x => np_less x v) <$> a).
Definition searchsorted_right (a : list f32) (v : f32) : Z :=
  count_nonzero ((fun x => negb (np_less v x)) <$> a).

Definition search_sorted_inclusive (a v : list f32) : list Z :=
  match v with
  | [] => []
  | _ => (searchsorted_left a <$> removelast v) ++ [searchsorted_right a (List.last v S754_nan)]
  end.

Definition np_diff (l : list Z) : list Z := zip_with (fun a b => b - a) l (tail l).

Definition np_histogram (a edges : list f32) : result (list Z) :=
  if mask_any (zip_with fgt (removelast edges) (tail edges)) then Err ValueError
  else Ok (np_diff (search_sorted_inclusive a edges)).

Section Sim.
Context `{NP : Numpy}.

(** Contents of a freshly allocated [np.empty] buffer in the kernel:
    month, chunk start and offset give an arbitrary float32. *)
Variable uninit : nat -> nat -> nat -> f32.

(* ---------------------------------------------------------------- *)
(** ** Population Initializer                                        *)
(* ---------------------------------------------------------------- *)

(** [_maybe_memmap(..., (N,), ...)] in its in-memory variant: the
    allocation rejects a negative length; the contents are overwritten
    by the whole-array assignments that follow. *)
Definition alloc (N : Z) : result nat :=
  if N <? 0 then Err ValueError else Ok (Z.to_nat N).

Definition initialize_population (N : Z) (p : SimParams) : result Population :=
  rng ← default_rng (seed p);
  n ← alloc N;
  '(cap64, rng) ← rng_lognormal (capital_logn_mu p) (capital_logn_sigma p) n rng;
  let cap := to_f32 <$> cap64 in
  let cap := (fun x => np_minimum x (to_f32 (capital_cap_max p))) <$> cap in
  let capital := cap in
  '(tr, rng) ← rng_choice 3 n (tier_probs p) rng;
  let tiers := uint8 <$> tr in
  let employed := replicate n 0 in
  let unemp_months := replicate n 0 in
  let state := replicate n STABLE in
  let state := where_ ((fun c => flt c (to_f32 (precarious_thresh p))) <$> capital)
                      (fun _ => PRECARIOUS) state in
  let state := where_ ((fun c => fle c (to_f32 (insolvent_thresh p))) <$> capital)
                      (fun _ => INSOLVENT) state in
  '(sample_idx, rng) ← rng_choice_norepl N (Z.min (sample_size p) N) rng;
  Ok {| capital := capital; tiers := tiers; employed := employed;
        unemp_months := unemp_months; state := state; sample_idx := sample_idx |}.

(* ---------------------------------------------------------------- *)
(** ** Monthly Transition Kernel (the body of the chunk loop)        *)
(* ---------------------------------------------------------------- *)

(** One pass of [for t in (0, 1, 2)] in the cashflow step. *)
Definition cashflow_tier (p : SimParams) (active : mask) (tr emp : list Z)
    (acc : list f32 * Generator) (t : nat) : result (list f32 * Generator) :=
  let '(rev, rng) := acc in
  let mask := mand active ((fun x => x =? Z.of_nat t) <$> tr) in
  if mask_any mask then
    mu_e ← tuple_get (rev_employed_mu p) t;
    mu_u ← tuple_get (rev_unemployed_mu p) t;
    let mu := (fun e => to_f32 (if e =? 1 then mu_e else mu_u)) <$> select mask emp in
    sg ← tuple_get (rev_sigma p) t;
    '(draws, rng) ← rng_normal mu sg (mask_sum mask) rng;
    Ok (scatter mask rev (to_f32 <$> draws), rng)
  else Ok (rev, rng).

(** [# --- Employment assignment (probabilistic capacity) ---] *)
Definition employment_assignment (active : mask) (slot_ratio : f64)
    (draw : list f32) (emp : list Z) : list Z :=
  let emp := (fun _ => 0) <$> emp in
  where_ (mand active ((fun d => flt d (to_f32 slot_ratio)) <$> draw)) (fun _ => 1) emp.

(** [# --- Shocks (expenses) ---] *)
Definition shocks (p : SimParams) (active : mask) (shock_draw : list f32)
    (cap : list f32) (rng : Generator) : result (list f32 * Generator) :=
  let shocked := mand active ((fun d => flt d (to_f32 (shock_prob_monthly p))) <$> shock_draw) in
  if mask_any shocked then
    '(costs, rng) ← rng_lognormal (shock_cost_mu p) (shock_cost_sigma p) (mask_sum shocked) rng;
    Ok (scatter_with F32.sub shocked cap (to_f32 <$> costs), rng)
  else Ok (cap, rng).

(** [# --- Separations (extra runway hit + forces unemployment this month) ---] *)
Definition separations (p : SimParams) (active : mask) (sep_draw : list f32)
    (cap : list f32) (emp : list Z) : list f32 * list Z :=
  let separated :=
    mand active ((fun d => flt d (to_f32 (separation_prob_monthly p))) <$> sep_draw) in
  if mask_any separated then
    (where_ separated (fun x => F32.sub x (to_f32 (separation_income_hit p))) cap,
     where_ separated (fun _ => 0) emp)
  else (cap, emp).

(** [# --- Unemployment duration update ---] *)
Definition unemployment_duration_update (active : mask) (emp um : list Z) : list Z :=
  let unemp_mask := mand active ((fun e => e =? 0) <$> emp) in
  let um := if mask_any unemp_mask
            then scatter unemp_mask um (inc_unemp <$> select unemp_mask um) else um in
  let reemp_mask := mand active ((fun e => e =? 1) <$> emp) in
  if mask_any reemp_mask then where_ reemp_mask (fun _ => 0) um else um.

(** [# --- Monthly cashflow: depends on employment + tier ---]; [rev]
    starts as the uninitialised buffer of [np.empty]. *)
Definition monthly_cashflow (p : SimParams) (active : mask) (tr emp : list Z)
    (rev : list f32) (cap : list f32) (rng : Generator) : result (list f32 * Generator) :=
  '(rev, rng) ← foldlM (cashflow_tier p active tr emp) (rev, rng) [0; 1; 2]%nat;
  Ok (scatter_with F32.add active cap (select active rev), rng).

(** [# --- State transitions based on runway ---] *)
Definition state_transitions (p : SimParams) (active : mask) (cap : list f32)
    (stt : list State) : list State :=
  let newly_insolvent := mand active ((fun x => fle x (to_f32 (insolvent_thresh p))) <$> cap) in
  let newly_precarious :=
    mand (mand active ((fun x => flt x (to_f32 (precarious_thresh p))) <$> cap))
         (mnot newly_insolvent) in
  let newly_stable := mand active ((fun x => fge x (to_f32 (precarious_thresh p))) <$> cap) in
  let stt := where_ newly_insolvent (fun _ => INSOLVENT) stt in
  let stt := where_ newly_precarious (fun _ => PRECARIOUS) stt in
  where_ newly_stable (fun _ => STABLE) stt.

(** [# --- Exit rule: insolvent + prolonged unemployment raises exit risk ---] *)
Definition exit_rule (p : SimParams) (size : nat) (active : mask)
    (emp um : list Z) (stt : list State) (rng : Generator)
    : list Z * list Z * list State * Generator :=
  let insol := mand ((fun s => state_eqb s INSOLVENT) <$> stt) active in
  if mask_any insol then
    let deep_unemp :=
      mand (mand insol ((fun u => unemp_exit_boost_after p <=? u) <$> um))
           ((fun e => e =? 0) <$> emp) in
    let shallow := mand insol (mnot deep_unemp) in
    let risk := replicate size (F32.of_Z 0) in
    let risk := where_ deep_unemp
                  (fun _ => to_f32 (exit_prob_monthly_if_insolvent_unemployed p)) risk in
    let risk := where_ shallow
                  (fun _ => to_f32 (exit_prob_monthly_if_insolvent_only p)) risk in
    let '(exit_draw, rng) := rng_random size rng in
    let exiting := mand insol (zip_with flt exit_draw risk) in
    let stt := where_ exiting (fun _ => EXITED) stt in
    let emp := where_ exiting (fun _ => 0) emp in
    let um := scatter exiting um (inc_unemp <$> select exiting um) in
    (emp, um, stt, rng)
  else (emp, um, stt, rng).

(** The body of the chunk loop between slicing and write-back: the
    sections above in source order, the generator threaded through
    the draw sites. *)
Definition advance_chunk (p : SimParams) (slot_ratio : f64) (rev0 : nat -> f32)
    (size : nat) (rng : Generator) (c : Chunk) : result (Chunk * Generator) :=
  let active := active_mask (stt c) in
  let '(draw, rng) := rng_random size rng in
  let emp := employment_assignment active slot_ratio draw (emp c) in
  let '(shock_draw, rng) := rng_random size rng in
  '(cap, rng) ← shocks p active shock_draw (cap c) rng;
  let '(sep_draw, rng) := rng_random size rng in
  let '(cap, emp) := separations p active sep_draw cap emp in
  let um := unemployment_duration_update active emp (um c) in
  '(cap, rng) ← monthly_cashflow p active (tr c) emp (rev0 <$> seq 0 size) cap rng;
  let stt := state_transitions p active cap (stt c) in
  let '(emp, um, stt, rng) := exit_rule p size active emp um stt rng in
  Ok ({| cap := cap; tr := tr c; emp := emp; um := um; stt := stt |}, rng).

(* ---------------------------------------------------------------- *)
(** ** Simulation Driver and Aggregator                              *)
(* ---------------------------------------------------------------- *)

(** The job-slot product before clamping:
    [job_slot_ratio0 * ((1.0 - job_slot_decline) ** m) * hire_friction]. *)
Definition slot_product (p : SimParams) (m : Z) : result f64 :=
  pw ← py_pow (F64.sub (F64.of_Z 1) (job_slot_decline p)) m;
  Ok (F64.mul (F64.mul (job_slot_ratio0 p) pw) (hire_friction p)).

(** Effective job slot ratio of month [m]. *)
Definition slot_ratio_month (p : SimParams) (m : Z) : result f64 :=
  pw ← py_pow (F64.sub (F64.of_Z 1) (job_slot_decline p)) m;
  let slot_ratio := F64.mul (job_slot_ratio0 p) pw in
  Ok (np_clip (F64.mul slot_ratio (hire_friction p)) (F64.of_Z 0) (F64.of_Z 1)).

(** Body of [for start in range(0, N, chunk)]. *)
Definition chunk_step (N : Z) (p : SimParams) (m : nat) (slot_ratio : f64)
    (acc : Population * Generator) (start : Z) : result (Population * Generator) :=
  let '(pop, rng) := acc in
  let end_ := Z.min (start + chunk_size p) N in
  let size := Z.to_nat (end_ - start) in
  let s := Z.to_nat start in
  let e := Z.to_nat end_ in
  let c := {| cap := slice s e (capital pop); tr := slice s e (tiers pop);
              emp := slice s e (employed pop); um := slice s e (unemp_months pop);
              stt := slice s e (state pop) |} in
  '(c', rng) ← advance_chunk p slot_ratio (uninit m s) size rng c;
  Ok ({| capital := set_slice s e (capital pop) (cap c');
         tiers := tiers pop;
         employed := set_slice s e (employed pop) (emp c');
         unemp_months := set_slice s e (unemp_months pop) (um c');
         state := set_slice s e (state pop) (stt c');
         sample_idx := sample_idx pop |}, rng).

(** [p10[m], p50[m], p90[m] = ...]: unpacking needs exactly three values. *)
Definition unpack3 {A} (l : list A) : result (A * A * A) :=
  match l with
  | [a; b; c] => Ok (a, b, c)
  | _ => Err ValueError
  end.

(** The month's aggregates: exact counts over the full arrays and the
    statistics of the fixed sample. *)
Definition aggregates (pop : Population) (bins : list f32) : result MonthStats :=
  let is_exited := (fun s => state_eqb s EXITED) <$> state pop in
  let not_exited := active_mask (state pop) in
  let exited_m := count_nonzero is_exited in
  let active_m := count_nonzero not_exited in
  let emp_m := count_nonzero (mand not_exited ((fun e => e =? 1) <$> employed pop)) in
  let unemp_m := count_nonzero (mand not_exited ((fun e => e =? 0) <$> employed pop)) in
  samp ← gather (capital pop) (sample_idx pop);
  let mean_m := np_mean samp in
  pct ← np_percentile samp [10; 50; 90];
  '(q10, q50, q90) ← unpack3 (to_f32 <$> pct);
  h ← np_histogram samp bins;
  Ok {| ms_active := active_m; ms_exited := exited_m; ms_emp := emp_m; ms_unemp := unemp_m;
        ms_mean := mean_m; ms_p10 := q10; ms_p50 := q50; ms_p90 := q90; ms_hist := h |}.

(** Body of [for m in range(p.months)]. *)
Definition month_step (N : Z) (p : SimParams)
    (acc : Population * Generator * Series) (m : nat)
    : result (Population * Generator * Series) :=
  let '(pop, rng, ser) := acc in
  slot_ratio ← slot_ratio_month p (Z.of_nat m);
  starts ← py_range 0 N (chunk_size p);
  '(pop, rng) ← foldlM (chunk_step N p m slot_ratio) (pop, rng) starts;
  st ← aggregates pop (bins ser);
  Ok (pop, rng, record_month m st ser).

(** Everything [simulate] does before its month loop: the population,
    the kernel's generator and the zero-filled series. *)
Definition sim_start (N : Z) (p : SimParams) : result (Population * Generator * Series) :=
  pop ← initialize_population N p;
  rng ← default_rng (seed p + 1);
  let bins := to_f32 <$> hist_bins p in
  row ← np_zeros 0 (Z.of_nat (length bins) - 1);
  hist ← np_zeros row (months p);
  zi ← np_zeros 0 (months p);
  zf ← np_zeros (F32.of_Z 0) (months p);
  Ok (pop, rng,
      {| active_ct := zi; exited_ct := zi; emp_ct := zi; unemp_ct := zi;
         mean := zf; p10 := zf; p50 := zf; p90 := zf; hist := hist; bins := bins |}).

(** The run after its first [k] months. *)
Definition run_months (N : Z) (p : SimParams) (k : nat)
    : result (Population * Generator * Series) :=
  st ← sim_start N p;
  foldlM (month_step N p) st (seq 0 k).

Definition simulate (N : Z) (p : SimParams) : result Output :=
  '(pop, rng, ser) ← run_months N p (Z.to_nat (months p));
  final_slot_ratio ← slot_product p (months p - 1);
  Ok {| series := ser; final_effective_job_slot_ratio := final_slot_ratio; pop := pop |}.
End Sim.

(* ------------------------------------------------------------------ *)
(** * A table-driven instance of the NumPy routines                    *)
(* ------------------------------------------------------------------ *)

(** The generator seeded with [s] hands out the entries [unif s 0],
    [unif s 1], ... of a fixed table for uniform draws and the entries of
    [gauss s] for standard normal and log-normal variates, one entry per
    draw, in call order; a shared cursor counts the draws.  [choice] with
    probabilities cycles through the categories, [choice] without
    replacement returns the first indices, [mean] sums left to right,
    [percentile] raises IndexError on an empty sample, as NumPy does,
    and otherwise takes the lower nearest rank, and [**] multiplies
    repeatedly.  Argument checks follow NumPy's. *)
Module Table.
Record tables := { unif : Z -> nat -> f32; gauss : Z -> nat -> f64 }.

Definition F64_add := SFadd F64.prec F64.emax.
Definition F64_div := SFdiv F64.prec F64.emax.

Definition random (T : tables) (n : nat) (g : Z * nat) : list f32 * (Z * nat) :=
  (unif T g.1 <$> seq g.2 n, (g.1, (g.2 + n)%nat)).

Definition lognormal (T : tables) (mu sg : f64) (n : nat) (g : Z * nat)
    : result (list f64 * (Z * nat)) :=
  if flt sg (F64.of_Z 0) then Err ValueError
  else Ok (gauss T g.1 <$> seq g.2 n, (g.1, (g.2 + n)%nat)).

Definition normal (T : tables) (loc : list f32) (sc : f64) (n : nat) (g : Z * nat)
    : result (list f64 * (Z * nat)) :=
  if flt sc (F64.of_Z 0) then Err ValueError
  else if negb (length loc =? n)%nat then Err ValueError
  else Ok (zip_with (fun l z => F64_add (to_f64 l) (F64.mul sc z)) loc
             (gauss T g.1 <$> seq g.2 n), (g.1, (g.2 + n)%nat)).

(** NumPy accepts [p] when it has [a] entries, none negative, and its
    sum is within [sqrt(eps) = 2^-26] of one. *)
Definition valid_probs (a : Z) (pr : list f64) : bool :=
  (Z.of_nat (length pr) =? a) &&
  forallb (fun x => negb (flt x (F64.of_Z 0)) && negb (is_nan x)) pr &&
  fle (SFabs (F64.sub (foldl F64_add (F64.of_Z 0) pr) (F64.of_Z 1))) (F64.of_dyadic 1 (-26)).

Definition choice (a : Z) (n : nat) (pr : list f64) (g : Z * nat)
    : result (list Z * (Z * nat)) :=
  if (0 <? a) && valid_probs a pr
  then Ok ((fun k => Z.of_nat k mod a) <$> seq g.2 n, (g.1, (g.2 + n)%nat))
  else Err ValueError.

Definition choice_norepl (a k : Z) (g : Z * nat) : result (list Z * (Z * nat)) :=
  if (0 <=? k) && (k <=? a)
  then Ok (Z.of_nat <$> seq 0 (Z.to_nat k), (g.1, (g.2 + Z.to_nat k)%nat))
  else Err ValueError.

Definition mean (l : list f32) : f32 :=
  F32.div (foldl F32.add (F32.of_Z 0) l) (F32.of_Z (Z.of_nat (length l))).

Fixpoint insert_sorted (x : f32) (l : list f32) : list f32 :=
  match l with
  | [] => [x]
  | y :: l' => if np_less y x then y :: insert_sorted x l' else x :: l
  end.

Definition percentile (l : list f32) (q : list Z) : result (list f64) :=
  match l with
  | [] => Err IndexError
  | _ =>
      let sorted := foldr insert_sorted [] l in
      Ok ((fun k =>
             to_f64 (nth (Z.to_nat (k * (Z.of_nat (length l) - 1) / 100)) sorted S754_nan)) <$> q)
  end.

Definition pow (x : f64) (n : Z) : result f64 :=
  if 0 <=? n then Ok (Z.iter n (fun a => F64.mul a x) (F64.of_Z 1))
  else
    match x with
    | S754_zero _ => Err ZeroDivisionError
    | _ => Ok (F64_div (F64.of_Z 1) (Z.iter (- n) (fun a => F64.mul a x) (F64.of_Z 1)))
    end.

Definition seed_rng (s : Z) : result (Z * nat) :=
  if s <? 0 then Err ValueError else Ok (s, 0%nat).

#[refine] Instance numpy (T : tables) : Numpy := {|
  Generator := Z * nat;
  default_rng := seed_rng;
  rng_random := random T;
  rng_lognormal := lognormal T;
  rng_normal := normal T;
  rng_choice := choice;
  rng_choice_norepl := choice_norepl;
  np_mean := mean;
  np_percentile := percentile;
  py_pow := pow;
|}.
Proof.
  - intros n g. cbn. by rewrite length_fmap, length_seq.
  - intros mu sg n g l g'. unfold lognormal. destruct (flt sg _); [discriminate|].
    intros [= <- _]. by rewrite length_fmap, length_seq.
  - intros loc sc n g l g'. unfold normal. destruct (flt sc _); [discriminate|].
    destruct (length loc =? n)%nat eqn:E; [|discriminate]. cbn.
    apply Nat.eqb_eq in E. intros [= <- _].
    rewrite length_zip_with, length_fmap, length_seq. lia.
  - intros a n pr g l g'. unfold choice.
    destruct (0 <? a) eqn:Ha; [|discriminate]. destruct (valid_probs a pr); [|discriminate].
    cbn. intros [= <- _]. split; [by rewrite length_fmap, length_seq|].
    apply Forall_fmap, list.Forall_forall. intros k _. cbn.
    apply Z.ltb_lt in Ha. apply Z.mod_pos_bound. lia.
  - intros a k g l g'. unfold choice_norepl.
    destruct (0 <=? k) eqn:H0; [|discriminate]. destruct (k <=? a) eqn:H1; [|discriminate].
    cbn. intros [= <- _]. split; [by rewrite length_fmap, length_seq|].
    apply Forall_fmap, list.Forall_forall. intros i Hi. cbn.
    apply elem_of_seq in Hi. lia.
  - intros a q l. unfold percentile. destruct a; [discriminate|].
    intros [= <-]. by rewrite length_fmap.
Defined.
End Table.

(* ------------------------------------------------------------------ *)
(** * The month seen from one agent                                    *)
(* ------------------------------------------------------------------ *)

(** The three state assignments of the kernel applied to an active agent
    whose post-cashflow capital is [x] and whose state was [s]: STABLE is
    written last, PRECARIOUS before it, INSOLVENT first. *)
Definition classify (p : SimParams) (x : f32) (s : State) : State :=
  if fge x (to_f32 (precarious_thresh p)) then STABLE
  else if flt x (to_f32 (precarious_thresh p)) && negb (fle x (to_f32 (insolvent_thresh p)))
       then PRECARIOUS
  else if fle x (to_f32 (insolvent_thresh p)) then INSOLVENT
  else s.

(** Employment flag after the employment draw and the separation. *)
Definition agent_emp1 (hired sep : bool) : Z := if sep then 0 else if hired then 1 else 0.

(** Unemployment duration after the duration update. *)
Definition agent_um1 (e1 u : Z) : Z := if e1 =? 1 then 0 else inc_unemp u.

(** New [(employed, unemployment_months, state)] of an agent with state
    [s] and duration [u], given its three draws as booleans ([hired]: the
    employment draw fell below the slot ratio; [sep]: it separated;
    [exit_hit]: the exit draw fell below its risk) and its post-cashflow
    capital [x']. *)
Definition agent_month (p : SimParams) (s : State) (u : Z)
    (hired sep exit_hit : bool) (x' : f32) : Z * Z * State :=
  if state_eqb s EXITED then (0, u, EXITED)
  else
    let e1 := agent_emp1 hired sep in
    let u1 := agent_um1 e1 u in
    let s1 := classify p x' s in
    if state_eqb s1 INSOLVENT && exit_hit then (0, inc_unemp u1, EXITED) else (e1, u1, s1).

Record Agent := {
  a_cap : f32;
  a_tier : Z;
  a_emp : Z;
  a_um : Z;
  a_state : State;
}.

(** Row [j] of the columnar population. *)
Definition agent_at (pop : Population) (j : nat) : option Agent :=
  x ← capital pop !! j; t ← tiers pop !! j; e ← employed pop !! j;
  u ← unemp_months pop !! j; s ← state pop !! j;
  Some {| a_cap := x; a_tier := t; a_emp := e; a_um := u; a_state := s |}.

(** One kernel application relates the agent before and after. *)
Definition agent_step (p : SimParams) (a a' : Agent) : Prop :=
  a_tier a' = a_tier a /\
  (a_state a = EXITED -> a_cap a' = a_cap a) /\
  exists hired sep exit_hit : bool,
    (a_emp a', a_um a', a_state a') =
    agent_month p (a_state a) (a_um a) hired sep exit_hit (a_cap a').

(** All five arrays have [n] entries and every tier is 0, 1 or 2. *)
Definition pop_wf (n : nat) (pop : Population) : Prop :=
  length (capital pop) = n /\ length (tiers pop) = n /\ length (employed pop) = n /\
  length (unemp_months pop) = n /\ length (state pop) = n /\
  Forall (fun t => 0 <= t < 3) (tiers pop).

(** The employment flag is 0 or 1, and 0 once the agent has exited. *)
Definition agent_ok (a : Agent) : Prop :=
  (a_emp a = 0 \/ a_emp a = 1) /\ (a_state a = EXITED -> a_emp a = 0).

(** What a month (any number of kernel applications) does to a population. *)
Definition pop_evolves (p : SimParams) (n : nat) (pop pop' : Population) : Prop :=
  pop_wf n pop' /\ tiers pop' = tiers pop /\ sample_idx pop' = sample_idx pop /\
  forall j a, agent_at pop j = Some a ->
    exists a', agent_at pop' j = Some a' /\ rtc (agent_step p) a a'.

(** One month's entries, read back from the series. *)
Definition entry_at (ser : Series) (m : nat) (st : MonthStats) : Prop :=
  active_ct ser !! m = Some (ms_active st) /\ exited_ct ser !! m = Some (ms_exited st) /\
  emp_ct ser !! m = Some (ms_emp st) /\ unemp_ct ser !! m = Some (ms_unemp st) /\
  mean ser !! m = Some (ms_mean st) /\ p10 ser !! m = Some (ms_p10 st) /\
  p50 ser !! m = Some (ms_p50 st) /\ p90 ser !! m = Some (ms_p90 st) /\
  hist ser !! m = Some (ms_hist st).

(** Every series has one slot per month. *)
Definition series_wf (k : nat) (ser : Series) : Prop :=
  length (active_ct ser) = k /\ length (exited_ct ser) = k /\ length (emp_ct ser) = k /\
  length (unemp_ct ser) = k /\ length (mean ser) = k /\ length (p10 ser) = k /\
  length (p50 ser) = k /\ length (p90 ser) = k /\ length (hist ser) = k.

(** What holds of the run after any number of months. *)
Definition run_inv `{NP : Numpy} (N : Z) (p : SimParams)
    (st : Population * Generator * Series) : Prop :=
  0 <= N /\ 0 <= months p /\ pop_wf (Z.to_nat N) st.1.1 /\
  (forall j a, agent_at st.1.1 j = Some a -> agent_ok a) /\
  bins st.2 = to_f32 <$> hist_bins p /\ series_wf (Z.to_nat (months p)) st.2.

(** Two buffers agree wherever [P] holds. *)
Definition agree_on {A} (P : nat -> Prop) (xs ys : list A) : Prop :=
  forall i, P i -> xs !! i = ys !! i.


(** The parameters [initialize_population] reads. *)
Definition same_init_fields (p p' : SimParams) : Prop :=
  seed p = seed p' /\ capital_logn_mu p = capital_logn_mu p' /\
  capital_logn_sigma p = capital_logn_sigma p' /\ capital_cap_max p = capital_cap_max p' /\
  tier_probs p = tier_probs p' /\ precarious_thresh p = precarious_thresh p' /\
  insolvent_thresh p = insolvent_thresh p' /\ sample_size p = sample_size p'.

(** The series of a run of zero months. *)
Definition empty_series (p : SimParams) : Series :=
  {| active_ct := []; exited_ct := []; emp_ct := []; unemp_ct := [];
     mean := []; p10 := []; p50 := []; p90 := []; hist := [];
     bins := to_f32 <$> hist_bins p |}.

(** [dataclasses.replace(p, chunk_size=c)] *)
Definition set_chunk_size (c : Z) (p : SimParams) : SimParams :=
  {| seed := seed p; months := months p;
     capital_logn_mu := capital_logn_mu p; capital_logn_sigma := capital_logn_sigma p;
     capital_cap_max := capital_cap_max p; tier_probs := tier_probs p;
     job_slot_ratio0 := job_slot_ratio0 p; job_slot_decline := job_slot_decline p;
     hire_friction := hire_friction p;
     rev_employed_mu := rev_employed_mu p; rev_unemployed_mu := rev_unemployed_mu p;
     rev_sigma := rev_sigma p;
     shock_prob_monthly := shock_prob_monthly p; shock_cost_mu := shock_cost_mu p;
     shock_cost_sigma := shock_cost_sigma p;
     separation_prob_monthly := separation_prob_monthly p;
     separation_income_hit := separation_income_hit p;
     precarious_thresh := precarious_thresh p; insolvent_thresh := insolvent_thresh p;
     unemp_exit_boost_after := unemp_exit_boost_after p;
     exit_prob_monthly_if_insolvent_unemployed := exit_prob_monthly_if_insolvent_unemployed p;
     exit_prob_monthly_if_insolvent_only := exit_prob_monthly_if_insolvent_only p;
     chunk_size := c; sample_size := sample_size p; hist_bins := hist_bins p |}.

(* ------------------------------------------------------------------ *)
(** * Agent invariants, horizons and the command line                  *)
(* ------------------------------------------------------------------ *)

(** The three state assignments of [initialize_population] on one
    capital: STABLE, overwritten by PRECARIOUS below the precarious
    threshold, overwritten by INSOLVENT at or below the insolvent one. *)
Definition initial_state (p : SimParams) (x : f32) : State :=
  if fle x (to_f32 (insolvent_thresh p)) then INSOLVENT
  else if flt x (to_f32 (precarious_thresh p)) then PRECARIOUS
  else STABLE.

(** The state agrees with the capital, when the capital is a number: an
    exited agent left at or below the insolvent threshold, any other
    agent is in the state of its capital. *)
Definition state_matches (p : SimParams) (a : Agent) : Prop :=
  is_nan (a_cap a) = false ->
  (a_state a = EXITED /\ fle (a_cap a) (to_f32 (insolvent_thresh p)) = true) \/
  a_state a = initial_state p (a_cap a).

(** The duration is a [uint8] and is zero for an employed agent. *)
Definition duration_ok (a : Agent) : Prop :=
  0 <= a_um a <= 255 /\ (a_emp a = 1 -> a_um a = 0).

(** [dataclasses.replace(p, months=m)] *)
Definition set_months (m : Z) (p : SimParams) : SimParams :=
  {| seed := seed p; months := m;
     capital_logn_mu := capital_logn_mu p; capital_logn_sigma := capital_logn_sigma p;
     capital_cap_max := capital_cap_max p; tier_probs := tier_probs p;
     job_slot_ratio0 := job_slot_ratio0 p; job_slot_decline := job_slot_decline p;
     hire_friction := hire_friction p;
     rev_employed_mu := rev_employed_mu p; rev_unemployed_mu := rev_unemployed_mu p;
     rev_sigma := rev_sigma p;
     shock_prob_monthly := shock_prob_monthly p; shock_cost_mu := shock_cost_mu p;
     shock_cost_sigma := shock_cost_sigma p;
     separation_prob_monthly := separation_prob_monthly p;
     separation_income_hit := separation_income_hit p;
     precarious_thresh := precarious_thresh p; insolvent_thresh := insolvent_thresh p;
     unemp_exit_boost_after := unemp_exit_boost_after p;
     exit_prob_monthly_if_insolvent_unemployed := exit_prob_monthly_if_insolvent_unemployed p;
     exit_prob_monthly_if_insolvent_only := exit_prob_monthly_if_insolvent_only p;
     chunk_size := chunk_size p; sample_size := sample_size p; hist_bins := hist_bins p |}.

(** [dataclasses.replace(p, tier_probs=pr)] *)
Definition set_tier_probs (pr : list f64) (p : SimParams) : SimParams :=
  {| seed := seed p; months := months p;
     capital_logn_mu := capital_logn_mu p; capital_logn_sigma := capital_logn_sigma p;
     capital_cap_max := capital_cap_max p; tier_probs := pr;
     job_slot_ratio0 := job_slot_ratio0 p; job_slot_decline := job_slot_decline p;
     hire_friction := hire_friction p;
     rev_employed_mu := rev_employed_mu p; rev_unemployed_mu := rev_unemployed_mu p;
     rev_sigma := rev_sigma p;
     shock_prob_monthly := shock_prob_monthly p; shock_cost_mu := shock_cost_mu p;
     shock_cost_sigma := shock_cost_sigma p;
     separation_prob_monthly := separation_prob_monthly p;
     separation_income_hit := separation_income_hit p;
     precarious_thresh := precarious_thresh p; insolvent_thresh := insolvent_thresh p;
     unemp_exit_boost_after := unemp_exit_boost_after p;
     exit_prob_monthly_if_insolvent_unemployed := exit_prob_monthly_if_insolvent_unemployed p;
     exit_prob_monthly_if_insolvent_only := exit_prob_monthly_if_insolvent_only p;
     chunk_size := chunk_size p; sample_size := sample_size p; hist_bins := hist_bins p |}.

(** [dataclasses.replace(p, hist_bins=b)] *)
Definition set_hist_bins (b : list f64) (p : SimParams) : SimParams :=
  {| seed := seed p; months := months p;
     capital_logn_mu := capital_logn_mu p; capital_logn_sigma := capital_logn_sigma p;
     capital_cap_max := capital_cap_max p; tier_probs := tier_probs p;
     job_slot_ratio0 := job_slot_ratio0 p; job_slot_decline := job_slot_decline p;
     hire_friction := hire_friction p;
     rev_employed_mu := rev_employed_mu p; rev_unemployed_mu := rev_unemployed_mu p;
     rev_sigma := rev_sigma p;
     shock_prob_monthly := shock_prob_monthly p; shock_cost_mu := shock_cost_mu p;
     shock_cost_sigma := shock_cost_sigma p;
     separation_prob_monthly := separation_prob_monthly p;
     separation_income_hit := separation_income_hit p;
     precarious_thresh := precarious_thresh p; insolvent_thresh := insolvent_thresh p;
     unemp_exit_boost_after := unemp_exit_boost_after p;
     exit_prob_monthly_if_insolvent_unemployed := exit_prob_monthly_if_insolvent_unemployed p;
     exit_prob_monthly_if_insolvent_only := exit_prob_monthly_if_insolvent_only p;
     chunk_size := chunk_size p; sample_size := sample_size p; hist_bins := b |}.

(** The float a decimal literal [m / 10^k] denotes: the binary64 value
    nearest to it ([m] and [10^k] are exact in binary64 for the literals
    below, and the division rounds once, to nearest even). *)
Definition decimal (m : Z) (k : Z) : f64 :=
  SFdiv F64.prec F64.emax (F64.of_Z m) (F64.of_Z (10 ^ k)).

(** [SimParams()]: every field at the default of the dataclass. *)
Definition default_params : SimParams :=
  {| seed := 1234; months := 120;
     capital_logn_mu := decimal 115 2; capital_logn_sigma := decimal 85 2;
     capital_cap_max := F64.of_Z 48;
     tier_probs := [decimal 45 2; decimal 40 2; decimal 15 2];
     job_slot_ratio0 := decimal 62 2; job_slot_decline := decimal 15 4;
     hire_friction := decimal 92 2;
     rev_employed_mu := [decimal 2 2; decimal 8 2; decimal 20 2];
     rev_unemployed_mu := [decimal (-40) 2; decimal (-32) 2; decimal (-22) 2];
     rev_sigma := [decimal 10 2; decimal 8 2; decimal 7 2];
     shock_prob_monthly := decimal 2 2; shock_cost_mu := decimal 5 1;
     shock_cost_sigma := decimal 65 2;
     separation_prob_monthly := decimal 30 3; separation_income_hit := decimal 40 2;
     precarious_thresh := decimal 15 1; insolvent_thresh := F64.of_Z 0;
     unemp_exit_boost_after := 6;
     exit_prob_monthly_if_insolvent_unemployed := decimal 6 2;
     exit_prob_monthly_if_insolvent_only := decimal 2 2;
     chunk_size := 5000000; sample_size := 1000000;
     hist_bins := [F64.of_Z 0; decimal 5 1; F64.of_Z 1; F64.of_Z 2; F64.of_Z 3; F64.of_Z 6;
                   F64.of_Z 12; F64.of_Z 24; F64.of_Z 36; F64.of_Z 48] |}.

(** The parsed command line of [main], as far as it reaches the
    computation: [--N], [--months], [--chunk], [--sample].  ([--memmap]
    and [--memmap-dir] choose the storage of the arrays, [--out] the
    file name, [--progress-every] the progress lines.) *)
Record Args := {
  arg_N : Z;
  arg_months : Z;
  arg_chunk : Z;
  arg_sample : Z;
}.

(** [SimParams(months=args.months, chunk_size=args.chunk, sample_size=args.sample)] *)
Definition main_params (a : Args) : SimParams :=
  let d := default_params in
  {| seed := seed d; months := arg_months a;
     capital_logn_mu := capital_logn_mu d; capital_logn_sigma := capital_logn_sigma d;
     capital_cap_max := capital_cap_max d; tier_probs := tier_probs d;
     job_slot_ratio0 := job_slot_ratio0 d; job_slot_decline := job_slot_decline d;
     hire_friction := hire_friction d;
     rev_employed_mu := rev_employed_mu d; rev_unemployed_mu := rev_unemployed_mu d;
     rev_sigma := rev_sigma d;
     shock_prob_monthly := shock_prob_monthly d; shock_cost_mu := shock_cost_mu d;
     shock_cost_sigma := shock_cost_sigma d;
     separation_prob_monthly := separation_prob_monthly d;
     separation_income_hit := separation_income_hit d;
     precarious_thresh := precarious_thresh d; insolvent_thresh := insolvent_thresh d;
     unemp_exit_boost_after := unemp_exit_boost_after d;
     exit_prob_monthly_if_insolvent_unemployed := exit_prob_monthly_if_insolvent_unemployed d;
     exit_prob_monthly_if_insolvent_only := exit_prob_monthly_if_insolvent_only d;
     chunk_size := arg_chunk a; sample_size := arg_sample a; hist_bins := hist_bins d |}.

(** [xs[-1]] *)
Definition py_last {A} (xs : list A) : result A :=
  match last xs with Some x => Ok x | None => Err IndexError end.

(** A Python int as an exact float operand (no rounding). *)
Definition exact_int (z : Z) : spec_float :=
  match z with
  | Z0 => S754_zero false
  | Zpos m => S754_finite false m 0
  | Zneg m => S754_finite true m 0
  end.

(** Python's [a / b] on two ints: the quotient rounded once to
    binary64; a zero divisor and a quotient beyond the floats raise. *)
Definition int_truediv (a b : Z) : result f64 :=
  if b =? 0 then Err ZeroDivisionError
  else match SFdiv F64.prec F64.emax (exact_int a) (exact_int b) with
       | S754_infinity _ => Err OverflowError
       | q => Ok q
       end.

(** The figures [main] prints under [=== FINAL ===]. *)
Record Summary := {
  exited_end : Z;
  exit_pct : f64;
  unemp_rate_end : f64;
  median_runway_end : f64;
  final_ratio : f64;
}.

Section Main.
Context `{NP : Numpy}.
Variable uninit : nat -> nat -> nat -> f32.

(** [main] after argument parsing: the run, then the final figures in
    the order the source computes them.  Writing the series to the NPZ
    file ([save_outputs]) and the printing itself are left out. *)
Definition main (a : Args) : result Summary :=
  let params := main_params a in
  out ← simulate uninit (arg_N a) params;
  let s := series out in
  exited_end ← py_last (exited_ct s);
  q ← int_truediv exited_end (arg_N a);
  let exit_pct := F64.mul q (F64.of_Z 100) in
  u ← py_last (unemp_ct s);
  act ← py_last (active_ct s);
  let unemp_rate_end := SFdiv F64.prec F64.emax (F64.of_Z u) (F64.of_Z (Z.max act 1)) in
  med ← py_last (p50 s);
  Ok {| exited_end := exited_end; exit_pct := exit_pct; unemp_rate_end := unemp_rate_end;
        median_runway_end := to_f64 med;
        final_ratio := final_effective_job_slot_ratio out |}.
End Main.

(* ------------------------------------------------------------------ *)
(** * Explicit inputs for the table-driven instance                    *)
(* ------------------------------------------------------------------ *)

Module Demo.
Definition half : f64 := F64.of_dyadic 1 (-1).
Definition zero : f64 := F64.of_Z 0.
Definition one : f64 := F64.of_Z 1.

(** Uniform draws: a quarter, a quarter, then three quarters for ever;
    normal and log-normal variates: the constant [z]. *)
Definition tables (z : f64) : Table.tables :=
  {| Table.unif := fun _ k => if (k <? 2)%nat then F32.of_dyadic 1 (-2) else F32.of_dyadic 3 (-2);
     Table.gauss := fun _ _ => z |}.

(** Uninitialised buffers hold NaN. *)
Definition uninit : nat -> nat -> nat -> f32 := fun _ _ _ => S754_nan.

(** No shocks, no separations, no noise on the cashflow, every tier
    earning nothing; the remaining parameters are the arguments. *)
Definition params (months chunk : Z) (ratio0 prec ins exit_p : f64) : SimParams :=
  {| seed := 0; months := months;
     capital_logn_mu := one; capital_logn_sigma := one; capital_cap_max := F64.of_Z 48;
     tier_probs := [half; F64.of_dyadic 1 (-2); F64.of_dyadic 1 (-2)];
     job_slot_ratio0 := ratio0; job_slot_decline := zero; hire_friction := one;
     rev_employed_mu := [zero; zero; zero];
     rev_unemployed_mu := [zero; zero; zero];
     rev_sigma := [zero; zero; zero];
     shock_prob_monthly := zero; shock_cost_mu := zero; shock_cost_sigma := one;
     separation_prob_monthly := zero; separation_income_hit := zero;
     precarious_thresh := prec; insolvent_thresh := ins;
     unemp_exit_boost_after := 6;
     exit_prob_monthly_if_insolvent_unemployed := exit_p;
     exit_prob_monthly_if_insolvent_only := exit_p;
     chunk_size := chunk; sample_size := 10;
     hist_bins := [zero; one; F64.of_Z 2; F64.of_Z 48] |}.

Definition two : f64 := F64.of_Z 2.
Definition four : f64 := F64.of_Z 4.
Definition minus_one : f64 := F64.of_Z (-1).
Definition three_halves : f64 := F64.of_dyadic 3 (-1).

Definition sim (z : f64) (N : Z) (p : SimParams) : result Output :=
  @simulate (Table.numpy (tables z)) uninit N p.
Definition run (z : f64) (N : Z) (p : SimParams) (k : nat) :=
  @run_months (Table.numpy (tables z)) uninit N p k.

(** One month, two agents per chunk. *)
Definition P_month : SimParams := params 1 2 half three_halves zero zero.
(** 256 months without a single job slot. *)
Definition P_long : SimParams := params 256 1 zero three_halves zero zero.
(** The insolvent threshold (2) above the precarious one (1). *)
Definition P_inverted : SimParams := params 1 1 half one two zero.
(** No month at all. *)
Definition P_none : SimParams := params 0 2 half three_halves zero zero.
(** Three months, every insolvent agent exits. *)
Definition P_exit : SimParams := params 3 2 half three_halves zero one.
(** Twice as many job slots as agents. *)
Definition P_over : SimParams := params 1 2 two three_halves zero zero.

(** The series of a run and the population after some months, when
    there is no exception. *)
Definition series_of (r : result Output) : option Series :=
  match r with Ok o => Some (series o) | Err _ => None end.
Definition pop_of {G} (r : result (Population * G * Series)) : option Population :=
  match r with Ok (pop, _, _) => Some pop | Err _ => None end.
End Demo.

(** More explicit inputs: degenerate chunk sizes, a generator whose
    draws make every agent exit in its first month, and command lines. *)
Module Cases.
(** One month, chunk size -2. *)
Definition P_negative_chunk : SimParams :=
  Demo.params 1 (-2) Demo.half Demo.three_halves Demo.zero Demo.zero.
(** One month, chunk size 0. *)
Definition P_zero_chunk : SimParams :=
  Demo.params 1 0 Demo.half Demo.three_halves Demo.zero Demo.zero.

(** One month, tier probabilities one half each. *)
Definition P_bad_probs : SimParams :=
  set_tier_probs [Demo.half; Demo.half; Demo.half] Demo.P_month.
(** No month, the bin edges 1, 0. *)
Definition P_unsorted_none : SimParams := set_hist_bins [Demo.one; Demo.zero] Demo.P_none.
(** One month, the bin edges 1, 0. *)
Definition P_unsorted : SimParams := set_hist_bins [Demo.one; Demo.zero] Demo.P_month.

(** Uniform draws all 0, normal and log-normal variates all -1. *)
Definition tables_exit : Table.tables :=
  {| Table.unif := fun _ _ => F32.of_Z 0; Table.gauss := fun _ _ => Demo.minus_one |}.

(** [--N n --months m --chunk 2 --sample 2] *)
Definition args (n m : Z) : Args :=
  {| arg_N := n; arg_months := m; arg_chunk := 2; arg_sample := 2 |}.

(** A chunk of two stable agents. *)
Definition chunk2 : Chunk :=
  {| cap := [F32.of_Z 4; F32.of_Z 4]; tr := [0; 1]; emp := [0; 1]; um := [0; 0];
     stt := [STABLE; STABLE] |}.

Definition main_of (T : Table.tables) (a : Args) : result Summary :=
  @main (Table.numpy T) Demo.uninit a.
Definition sim_of (T : Table.tables) (N : Z) (p : SimParams) : result Output :=
  @simulate (Table.numpy T) Demo.uninit N p.
End Cases.



(* ------------------------------------------------------------------ *)
(** * Masked operations, index by index                                *)
(* ------------------------------------------------------------------ *)

Lemma bind_Ok {A B} (m : result A) (f : A -> result B) (b : B) :
  m ≫= f = Ok b -> exists a, m = Ok a /\ f a = Ok b.
Proof. destruct m as [a|e]; cbn; [eauto | discriminate]. Qed.

Lemma state_eqb_eq a b : state_eqb a b = true <-> a = b.
Proof. destruct a, b; cbn; split; (discriminate || reflexivity). Qed.

Lemma mask_at_nil i : mask_at [] i = false.
Proof. by destruct i. Qed.

Lemma mask_at_cons_S b m i : mask_at (b :: m) (S i) = mask_at m i.
Proof. done. Qed.

Lemma mask_at_mand a b i : mask_at (mand a b) i = mask_at a i && mask_at b i.
Proof.
  unfold mask_at, mand. rewrite lookup_zip_with.
  destruct (a !! i) as [x|], (b !! i) as [y|]; cbn; try done.
  by rewrite andb_false_r.
Qed.

Lemma mask_at_mnot a i : (i < length a)%nat -> mask_at (mnot a) i = negb (mask_at a i).
Proof.
  intros Hi. unfold mask_at, mnot. rewrite list_lookup_fmap.
  destruct (lookup_lt_is_Some_2 a i Hi) as [x ->]. done.
Qed.

Lemma mask_at_fmap {A} (f : A -> bool) (l : list A) i :
  mask_at (f <$> l) i = from_option f false (l !! i).
Proof. unfold mask_at. rewrite list_lookup_fmap. by destruct (l !! i). Qed.

Lemma mask_at_active stt i :
  mask_at (active_mask stt) i = from_option (fun s => negb (state_eqb s EXITED)) false (stt !! i).
Proof. apply mask_at_fmap. Qed.

Lemma length_where_ {A} (m : mask) (f : A -> A) xs : length (where_ m f xs) = length xs.
Proof.
  revert m. induction xs as [|x xs IH]; intros [|b m]; cbn; try done.
  by rewrite IH.
Qed.

Lemma lookup_where_ {A} (m : mask) (f : A -> A) xs i :
  where_ m f xs !! i = (fun x => if mask_at m i then f x else x) <$> xs !! i.
Proof.
  revert m i. induction xs as [|x xs IH]; intros [|b m] [|i]; cbn; try done.
  by destruct (xs !! i).
Qed.

Lemma length_scatter_with {A B} (f : A -> B -> A) m xs vals :
  length (scatter_with f m xs vals) = length xs.
Proof.
  revert m vals. induction xs as [|x xs IH]; intros [|b m] vals; cbn; try done.
  destruct b, vals; cbn; by rewrite IH.
Qed.

Lemma lookup_scatter_with_false {A B} (f : A -> B -> A) m xs vals i :
  mask_at m i = false -> scatter_with f m xs vals !! i = xs !! i.
Proof.
  revert m vals i. induction xs as [|x xs IH]; intros [|b m] vals [|i] Hm; cbn; try done.
  - cbn in Hm. subst b. done.
  - rewrite mask_at_cons_S in Hm. destruct b, vals; cbn; by apply IH.
Qed.

(** A selected position receives either a drawn value or, were the
    values to run out, nothing. *)
Lemma lookup_scatter_with {A B} (f : A -> B -> A) m xs vals i x :
  xs !! i = Some x ->
  scatter_with f m xs vals !! i = Some x \/
  exists v, mask_at m i = true /\ scatter_with f m xs vals !! i = Some (f x v).
Proof.
  revert m vals i. induction xs as [|y xs IH]; intros [|b m] vals [|i] Hx; cbn in *; try done.
  - by left.
  - by left.
  - injection Hx as ->. destruct b, vals; cbn; eauto.
  - destruct b, vals; cbn; by apply IH.
Qed.

Lemma where__none {A} (m : mask) (f : A -> A) xs : mask_any m = false -> where_ m f xs = xs.
Proof.
  revert m. induction xs as [|x xs IH]; intros [|b m] Hm; cbn in *; try done.
  apply orb_false_iff in Hm as [-> Hm]. by rewrite IH.
Qed.

Lemma scatter_with_none {A B} (f : A -> B -> A) m xs vals :
  mask_any m = false -> scatter_with f m xs vals = xs.
Proof.
  revert m vals. induction xs as [|x xs IH]; intros [|b m] vals Hm; cbn in *; try done.
  apply orb_false_iff in Hm as [-> Hm]. by rewrite IH.
Qed.

(** [xs[m] = g(xs[m])] is the elementwise update. *)
Lemma scatter_select {A} (g : A -> A) m xs :
  scatter m xs (g <$> select m xs) = where_ m g xs.
Proof.
  unfold scatter. revert m. induction xs as [|x xs IH]; intros [|b m]; cbn; try done.
  destruct b; cbn; by rewrite IH.
Qed.

Lemma if_any_where_ {A} (m : mask) (f : A -> A) xs :
  (if mask_any m then where_ m f xs else xs) = where_ m f xs.
Proof. destruct (mask_any m) eqn:E; [done | by rewrite where__none]. Qed.

Lemma length_select {A} (m : mask) (xs : list A) :
  length m = length xs -> length (select m xs) = mask_sum m.
Proof.
  unfold mask_sum.
  revert xs. induction m as [|b m IH]; intros [|x xs] Hl; cbn in *; try done.
  destruct b; cbn; rewrite IH by lia; lia.
Qed.

Lemma length_slice {A} (s e : nat) (xs : list A) :
  (e <= length xs)%nat -> length (slice s e xs) = (e - s)%nat.
Proof. intros. unfold slice. rewrite length_take, length_drop. lia. Qed.

Lemma length_set_slice {A} (s e : nat) (xs new : list A) :
  (s <= e <= length xs)%nat -> length new = (e - s)%nat ->
  length (set_slice s e xs new) = length xs.
Proof.
  intros. unfold set_slice. rewrite !length_app, length_take, length_drop. lia.
Qed.

Lemma foldlM_app {A B} (f : B -> A -> result B) b l1 l2 :
  foldlM f b (l1 ++ l2) = (b' ← foldlM f b l1; foldlM f b' l2).
Proof.
  revert b. induction l1 as [|x l1 IH]; intros b; cbn; [done|].
  destruct (f b x); cbn; [apply IH | done].
Qed.

(** An invariant of the loop body holds after the loop. *)
Lemma foldlM_inv {A B} (f : B -> A -> result B) (I : B -> Prop) l b b' :
  (forall b x b', x ∈ l -> I b -> f b x = Ok b' -> I b') ->
  I b -> foldlM f b l = Ok b' -> I b'.
Proof.
  revert b. induction l as [|x l IH]; intros b Hstep Hb H; cbn in H.
  - by injection H as <-.
  - apply bind_Ok in H as (b1 & H1 & H2).
    eapply IH; [| |exact H2].
    + intros ? ? ? ?. apply Hstep. by right.
    + eapply Hstep; [left | exact Hb | exact H1].
Qed.

Lemma mask_any_mand_l a b : mask_any a = false -> mask_any (mand a b) = false.
Proof.
  revert b. induction a as [|x a IH]; intros [|y b] H; cbn in *; try done.
  apply orb_false_iff in H as [-> H]. cbn. by apply IH.
Qed.

(* ------------------------------------------------------------------ *)
(** * The kernel, stage by stage and agent by agent                    *)
(* ------------------------------------------------------------------ *)

Section Kernel.
Context `{NP : Numpy}.

Lemma separations_eq p active sd cap emp :
  separations p active sd cap emp =
  (where_ (mand active ((fun d => flt d (to_f32 (separation_prob_monthly p))) <$> sd))
          (fun x => F32.sub x (to_f32 (separation_income_hit p))) cap,
   where_ (mand active ((fun d => flt d (to_f32 (separation_prob_monthly p))) <$> sd))
          (fun _ => 0) emp).
Proof.
  unfold separations. cbn zeta. destruct (mask_any _) eqn:E; [done|].
  by rewrite !where__none.
Qed.

Lemma unemployment_duration_update_eq active emp um :
  unemployment_duration_update active emp um =
  where_ (mand active ((fun e => e =? 1) <$> emp)) (fun _ => 0)
    (where_ (mand active ((fun e => e =? 0) <$> emp)) inc_unemp um).
Proof.
  unfold unemployment_duration_update. cbn zeta.
  by rewrite scatter_select, !if_any_where_.
Qed.

Lemma exit_rule_shape p size active emp um stt g :
  exists Y g',
    exit_rule p size active emp um stt g =
    (where_ (mand (mand ((fun s => state_eqb s INSOLVENT) <$> stt) active) Y) (fun _ => 0) emp,
     where_ (mand (mand ((fun s => state_eqb s INSOLVENT) <$> stt) active) Y) inc_unemp um,
     where_ (mand (mand ((fun s => state_eqb s INSOLVENT) <$> stt) active) Y) (fun _ => EXITED) stt,
     g').
Proof.
  unfold exit_rule. cbn zeta. destruct (mask_any _) eqn:E.
  - destruct (rng_random size g) as [ed g2]. eexists _, g2.
    by rewrite scatter_select.
  - exists [], g. by rewrite !where__none by (by apply mask_any_mand_l).
Qed.

Lemma shocks_shape p active sd cap g cap' g' :
  shocks p active sd cap g = Ok (cap', g') ->
  exists S costs, cap' = scatter_with F32.sub (mand active S) cap costs.
Proof.
  unfold shocks. cbn zeta. destruct (mask_any _) eqn:E.
  - intros H. apply bind_Ok in H as ([costs g2] & _ & [= <- _]). eauto.
  - intros [= <- _]. eexists _, []. by rewrite scatter_with_none.
Qed.

Lemma monthly_cashflow_shape p active tr emp rev cap g cap' g' :
  monthly_cashflow p active tr emp rev cap g = Ok (cap', g') ->
  exists gains, cap' = scatter_with F32.add active cap gains.
Proof.
  unfold monthly_cashflow. intros H.
  apply bind_Ok in H as ([rev' g2] & _ & [= <- _]). eauto.
Qed.

(** The kernel agent by agent. *)
Lemma advance_chunk_agent p sr rev0 size g c c' g' :
  advance_chunk p sr rev0 size g c = Ok (c', g') ->
  tr c' = tr c /\
  exists hired sep exit_hit : mask, forall i s e u x,
    stt c !! i = Some s -> emp c !! i = Some e -> um c !! i = Some u -> cap c !! i = Some x ->
    exists x',
      cap c' !! i = Some x' /\
      (s = EXITED -> x' = x) /\
      let r := agent_month p s u (mask_at hired i) (mask_at sep i) (mask_at exit_hit i) x' in
      emp c' !! i = Some r.1.1 /\ um c' !! i = Some r.1.2 /\ stt c' !! i = Some r.2.
Proof.
  unfold advance_chunk. cbn zeta. intros H.
  destruct (rng_random size g) as [draw g1].
  destruct (rng_random size g1) as [shock_draw g2].
  apply bind_Ok in H as ([cap1 g3] & Hshock & H).
  destruct (rng_random size g3) as [sep_draw g4].
  rewrite separations_eq in H.
  apply bind_Ok in H as ([cap2 g5] & Hcash & H).
  rewrite unemployment_duration_update_eq in H.
  match type of H with context [exit_rule ?p ?sz ?a ?e ?u ?s ?g] =>
    destruct (exit_rule_shape p sz a e u s g) as (Y & g6 & HY); rewrite HY in H end.
  injection H as <- <-. cbn [tr cap emp um stt]. split; [done|].
  apply shocks_shape in Hshock as (S & costs & ->).
  apply monthly_cashflow_shape in Hcash as (gains & ->).
  unfold employment_assignment.
  exists ((fun d => flt d (to_f32 sr)) <$> draw), ((fun d => flt d (to_f32 (separation_prob_monthly p))) <$> sep_draw), Y. intros i s e u x Hs He Hu Hx.
  match goal with |- exists x', ?ce !! i = Some x' /\ _ => remember ce as cap1 eqn:Hcap1 end.
  assert (exists x', cap1 !! i = Some x' /\ (s = EXITED -> x' = x)) as (x' & Hx' & Hexit).
  { destruct (lookup_lt_is_Some_2 cap1 i) as [x' Hx'].
    { subst cap1. rewrite length_scatter_with, length_where_, length_scatter_with.
      by eapply lookup_lt_Some. }
    exists x'. split; [done|]. intros ->. subst cap1.
    assert (mask_at (active_mask (stt c)) i = false) as Ha
      by (by rewrite mask_at_active, Hs).
    rewrite lookup_scatter_with_false, lookup_where_, lookup_scatter_with_false, Hx in Hx';
      rewrite ?mask_at_mand, ?Ha; try done.
    rewrite mask_at_mand, Ha in Hx'. cbn in Hx'. congruence. }
  clear Hcap1. exists x'. split; [done|]. split; [done|].
  unfold state_transitions. cbn zeta.
  repeat (progress (unfold mask_at, mand, mnot, active_mask;
     rewrite ?lookup_where_, ?list_lookup_fmap, ?lookup_zip_with, ?Hs, ?He, ?Hu, ?Hx';
     cbn [fmap option_fmap option_map mbind option_bind default])).
  unfold agent_month, classify, agent_emp1, agent_um1.
  destruct (Y !! i) as [[]|], (sep_draw !! i) as [d1|], (draw !! i) as [d2|]; cbn;
    try destruct (flt d1 _); try destruct (flt d2 _);
    destruct (fge x' _), (flt x' _), (fle x' _), s; cbn; done.
Qed.
End Kernel.

Lemma lookup_slice {A} (s e : nat) (xs : list A) i :
  (i < e - s)%nat -> slice s e xs !! i = xs !! (s + i)%nat.
Proof. intros. unfold slice. by rewrite lookup_take_lt, lookup_drop. Qed.

Lemma lookup_set_slice_in {A} (s e : nat) (xs new : list A) j :
  (s <= length xs)%nat -> (s <= j < s + length new)%nat ->
  set_slice s e xs new !! j = new !! (j - s)%nat.
Proof.
  intros Hs Hj. unfold set_slice.
  rewrite lookup_app_r by (rewrite length_take; lia).
  rewrite length_take, Nat.min_l by lia.
  rewrite lookup_app_l by lia. done.
Qed.

Lemma lookup_set_slice_out {A} (s e : nat) (xs new : list A) j :
  (s <= e <= length xs)%nat -> length new = (e - s)%nat -> (j < s \/ e <= j)%nat ->
  set_slice s e xs new !! j = xs !! j.
Proof.
  intros Hs Hn Hj. unfold set_slice. destruct Hj as [Hj|Hj].
  - rewrite lookup_app_l by (rewrite length_take; lia). by rewrite lookup_take_lt.
  - rewrite lookup_app_r by (rewrite length_take; lia).
    rewrite length_take, Nat.min_l by lia.
    rewrite lookup_app_r by lia. rewrite lookup_drop. f_equal. lia.
Qed.

(* ------------------------------------------------------------------ *)
(** * The driver: chunks, months, runs                                 *)
(* ------------------------------------------------------------------ *)

Section Driver.
Context `{NP : Numpy}.
Variable uninit : nat -> nat -> nat -> f32.

Lemma advance_chunk_length p sr rev0 size g c c' g' :
  advance_chunk p sr rev0 size g c = Ok (c', g') ->
  length (cap c') = length (cap c) /\ length (emp c') = length (emp c) /\
  length (um c') = length (um c) /\ length (stt c') = length (stt c).
Proof.
  unfold advance_chunk. cbn zeta. intros H.
  destruct (rng_random size g) as [draw g1].
  destruct (rng_random size g1) as [shock_draw g2].
  apply bind_Ok in H as ([cap1 g3] & Hshock & H).
  destruct (rng_random size g3) as [sep_draw g4].
  rewrite separations_eq in H.
  apply bind_Ok in H as ([cap2 g5] & Hcash & H).
  rewrite unemployment_duration_update_eq in H.
  match type of H with context [exit_rule ?p ?sz ?a ?e ?u ?s ?g] =>
    destruct (exit_rule_shape p sz a e u s g) as (Y & g6 & HY); rewrite HY in H end.
  injection H as <- <-. cbn [tr cap emp um stt].
  apply shocks_shape in Hshock as (S & costs & ->).
  apply monthly_cashflow_shape in Hcash as (gains & ->).
  unfold employment_assignment, state_transitions. cbn zeta.
  rewrite !length_where_, !length_scatter_with, !length_where_, !length_scatter_with,
    length_fmap. done.
Qed.

Lemma chunk_step_agents N p m sr pop g start pop' g' :
  pop_wf (Z.to_nat N) pop -> 0 <= start < N -> 0 < chunk_size p ->
  chunk_step uninit N p m sr (pop, g) start = Ok (pop', g') ->
  pop_wf (Z.to_nat N) pop' /\ tiers pop' = tiers pop /\ sample_idx pop' = sample_idx pop /\
  forall j a, agent_at pop j = Some a ->
    exists a', agent_at pop' j = Some a' /\ (a' = a \/ agent_step p a a').
Proof.
  intros (Lc & Lt & Le & Lu & Ls & Ht) Hstart Hchunk H.
  unfold chunk_step in H.
  set (e := Z.to_nat (Z.min (start + chunk_size p) N)) in *.
  set (s := Z.to_nat start) in *.
  assert (s < e <= Z.to_nat N)%nat as Hse by lia.
  apply bind_Ok in H as ([c' g2] & Hk & H). injection H as <- <-.
  destruct (advance_chunk_length _ _ _ _ _ _ _ _ Hk) as (L1 & L2 & L3 & L4).
  destruct (advance_chunk_agent _ _ _ _ _ _ _ _ Hk) as (Htr & hired & sep & ex & Hag).
  cbn [cap tr emp um stt] in *.
  rewrite length_slice in L1 by lia. rewrite length_slice in L2 by lia.
  rewrite length_slice in L3 by lia. rewrite length_slice in L4 by lia.
  split.
  { unfold pop_wf. cbn. rewrite !length_set_slice by lia. done. }
  split; [done|]. split; [done|].
  intros j a Ha. unfold agent_at in *. cbn [capital tiers employed unemp_months state].
  destruct (capital pop !! j) as [x|] eqn:Hx; [|done].
  destruct (tiers pop !! j) as [t|] eqn:Htj; [|done].
  destruct (employed pop !! j) as [ej|] eqn:Hej; [|done].
  destruct (unemp_months pop !! j) as [u|] eqn:Hu; [|done].
  destruct (state pop !! j) as [st|] eqn:Hst; [|done].
  cbn in Ha. injection Ha as <-.
  destruct (decide (s <= j < e)%nat) as [Hin|Hout].
  - destruct (Hag (j - s)%nat st ej u x) as (x' & Hx' & Hfro & He' & Hu' & Hs').
    { rewrite lookup_slice by lia. rewrite <- Hst. f_equal. lia. }
    { rewrite lookup_slice by lia. rewrite <- Hej. f_equal. lia. }
    { rewrite lookup_slice by lia. rewrite <- Hu. f_equal. lia. }
    { rewrite lookup_slice by lia. rewrite <- Hx. f_equal. lia. }
    rewrite !lookup_set_slice_in by lia.
    rewrite Hx', He', Hu', Hs'. cbn. eexists. split; [done|]. right.
    unfold agent_step. cbn. split; [done|]. split; [done|].
    exists (mask_at hired (j - s)), (mask_at sep (j - s)), (mask_at ex (j - s)).
    by destruct (agent_month _ _ _ _ _ _ _) as [[? ?] ?].
  - rewrite !lookup_set_slice_out by lia. rewrite Hx, Hej, Hu, Hst. cbn.
    eexists. split; [done|]. by left.
Qed.
End Driver.

Lemma py_range_elem N c l x :
  0 <= N -> py_range 0 N c = Ok l -> x ∈ l -> 0 < c /\ 0 <= x < N.
Proof.
  intros HN. unfold py_range. destruct (c =? 0) eqn:Hc; [discriminate|].
  apply Z.eqb_neq in Hc. intros [= <-] Hx.
  apply list_elem_of_fmap in Hx as (k & -> & Hk). apply elem_of_seq in Hk.
  destruct (0 <? c) eqn:Hpos.
  - apply Z.ltb_lt in Hpos. split; [done|].
    assert (Z.of_nat k < (N - 0 + c - 1) / c) as Hlt by lia.
    pose proof (Z.mul_div_le (N - 0 + c - 1) c Hpos). nia.
  - exfalso. apply Z.ltb_ge in Hpos.
    assert ((0 - N - c - 1) / - c <= 0); [|lia].
    assert (0 - N - c - 1 < - c) by lia.
    destruct (Z_lt_le_dec (0 - N - c - 1) 0).
    + pose proof (Z.div_lt_upper_bound (0 - N - c - 1) (- c) 1). lia.
    + rewrite Z.div_small; lia.
Qed.

Lemma classify_active p x s : s <> EXITED -> classify p x s <> EXITED.
Proof. unfold classify. intros Hs. repeat case_match; done. Qed.

Lemma agent_step_ok p a a' : agent_step p a a' -> agent_ok a'.
Proof.
  intros (_ & _ & h & s & x & H). unfold agent_ok.
  unfold agent_month, agent_emp1 in H.
  destruct (state_eqb (a_state a) EXITED) eqn:Hs0; [injection H as -> _ _; split; auto|].
  destruct (state_eqb (classify _ _ _) INSOLVENT && x) eqn:E.
  - injection H as -> _ _. split; auto.
  - injection H as -> _ Hs. split; [destruct s, h; auto|].
    intros Hex. rewrite Hex in Hs. exfalso. symmetry in Hs. revert Hs.
    apply classify_active. intros Hsa. apply state_eqb_eq in Hsa. congruence.
Qed.

Lemma agent_step_exited p a a' :
  agent_step p a a' -> a_state a = EXITED -> a_emp a = 0 -> a' = a.
Proof.
  intros (Ht & Hc & h & s & x & H) Hs He. specialize (Hc Hs).
  unfold agent_month in H. rewrite Hs in H. cbn in H. injection H as H1 H2 H3.
  destruct a, a'; cbn in *. congruence.
Qed.

Lemma rtc_agent_ok p a a' : agent_ok a -> rtc (agent_step p) a a' -> agent_ok a'.
Proof.
  intros Ha H. induction H as [|a b c Hab _ IH]; [done|].
  apply IH. by eapply agent_step_ok.
Qed.

Lemma rtc_agent_exited p a a' :
  rtc (agent_step p) a a' -> a_state a = EXITED -> a_emp a = 0 -> a' = a.
Proof.
  intros H Hs He. induction H as [|a b c Hab _ IH]; [done|].
  apply (agent_step_exited _ _ _ Hab Hs) in He as Hb. subst b. by apply IH.
Qed.

Lemma rtc_agent_tier p a a' : rtc (agent_step p) a a' -> a_tier a' = a_tier a.
Proof.
  intros H. induction H as [|a b c Hab _ IH]; [done|].
  destruct Hab as (Ht & _). congruence.
Qed.

Lemma pop_evolves_refl p n pop : pop_wf n pop -> pop_evolves p n pop pop.
Proof. intros. repeat split; try done; try apply H. intros j a Ha. by exists a. Qed.

Lemma pop_evolves_trans p n pop1 pop2 pop3 :
  pop_evolves p n pop1 pop2 -> pop_evolves p n pop2 pop3 -> pop_evolves p n pop1 pop3.
Proof.
  intros (W2 & T2 & S2 & A2) (W3 & T3 & S3 & A3).
  split; [done|]. split; [congruence|]. split; [congruence|].
  intros j a Ha. destruct (A2 j a Ha) as (a2 & Ha2 & R2).
  destruct (A3 j a2 Ha2) as (a3 & Ha3 & R3). exists a3. split; [done|].
  by etrans.
Qed.

Section Run.
Context `{NP : Numpy}.
Variable uninit : nat -> nat -> nat -> f32.

Lemma chunk_loop_evolves N p m sr pop g starts pop' g' :
  0 <= N -> pop_wf (Z.to_nat N) pop ->
  py_range 0 N (chunk_size p) = Ok starts ->
  foldlM (chunk_step uninit N p m sr) (pop, g) starts = Ok (pop', g') ->
  pop_evolves p (Z.to_nat N) pop pop'.
Proof.
  intros HN Hwf Hr H.
  apply (foldlM_inv _ (fun b => pop_evolves p (Z.to_nat N) pop b.1) _ _ _) in H; [done| |].
  - intros [pop1 g1] x [pop2 g2] Hx Hev Hstep. cbn in *.
    destruct (py_range_elem _ _ _ _ HN Hr Hx) as (Hc & Hx').
    eapply pop_evolves_trans; [exact Hev|].
    destruct Hev as (W1 & _).
    destruct (chunk_step_agents uninit _ _ _ _ _ _ _ _ _ W1 Hx' Hc Hstep) as (W2 & T2 & S2 & A2).
    repeat split; try done; try apply W2.
    intros j a Ha. destruct (A2 j a Ha) as (a' & Ha' & [Heq|Hs]); exists a'; split; try done.
    + by subst a'.
    + by apply rtc_once.
  - by apply pop_evolves_refl.
Qed.

Lemma month_step_evolves N p pop g ser m pop' g' ser' :
  0 <= N -> pop_wf (Z.to_nat N) pop ->
  month_step uninit N p (pop, g, ser) m = Ok (pop', g', ser') ->
  pop_evolves p (Z.to_nat N) pop pop' /\
  exists st, aggregates pop' (bins ser) = Ok st /\ ser' = record_month m st ser.
Proof.
  intros HN Hwf H. unfold month_step in H.
  apply bind_Ok in H as (sr & _ & H).
  apply bind_Ok in H as (starts & Hr & H).
  apply bind_Ok in H as ([pop1 g1] & Hloop & H).
  apply bind_Ok in H as (st & Hst & H). injection H as <- <- <-.
  split; [by eapply chunk_loop_evolves|]. eauto.
Qed.

Lemma run_months_S N p k :
  run_months uninit N p (S k) = (st ← run_months uninit N p k; month_step uninit N p st k).
Proof.
  unfold run_months. destruct (sim_start N p) as [st|e]; [|done].
  change (Ok st ≫= ?f) with (f st). cbn beta.
  rewrite seq_S, foldlM_app.
  destruct (foldlM _ st _) as [b|]; cbn; [|done].
  by destruct (month_step uninit N p b k).
Qed.
End Run.

Lemma agent_at_Some n pop j :
  pop_wf n pop -> (j < n)%nat -> exists a, agent_at pop j = Some a.
Proof.
  intros (Lc & Lt & Le & Lu & Ls & _) Hj. unfold agent_at.
  destruct (lookup_lt_is_Some_2 (capital pop) j) as [x ->]; [lia|].
  destruct (lookup_lt_is_Some_2 (tiers pop) j) as [t ->]; [lia|].
  destruct (lookup_lt_is_Some_2 (employed pop) j) as [e ->]; [lia|].
  destruct (lookup_lt_is_Some_2 (unemp_months pop) j) as [u ->]; [lia|].
  destruct (lookup_lt_is_Some_2 (state pop) j) as [s ->]; [lia|].
  cbn. eauto.
Qed.

Lemma agent_at_fields pop j a :
  agent_at pop j = Some a ->
  capital pop !! j = Some (a_cap a) /\ tiers pop !! j = Some (a_tier a) /\
  employed pop !! j = Some (a_emp a) /\ unemp_months pop !! j = Some (a_um a) /\
  state pop !! j = Some (a_state a).
Proof.
  unfold agent_at. intros H.
  destruct (capital pop !! j); [|done]. destruct (tiers pop !! j); [|done].
  destruct (employed pop !! j); [|done]. destruct (unemp_months pop !! j); [|done].
  destruct (state pop !! j); [|done]. cbn in H. by injection H as <-.
Qed.

Lemma record_month_wf k m st ser : series_wf k ser -> series_wf k (record_month m st ser).
Proof. unfold series_wf, record_month. cbn. by rewrite !length_insert. Qed.

Lemma record_month_entry k m st ser :
  series_wf k ser -> (m < k)%nat -> entry_at (record_month m st ser) m st.
Proof.
  intros (?&?&?&?&?&?&?&?&?) Hm. unfold entry_at, record_month. cbn.
  repeat split; apply list_lookup_insert_eq; lia.
Qed.

Lemma record_month_other m m' st st' ser :
  m <> m' -> entry_at ser m' st' -> entry_at (record_month m st ser) m' st'.
Proof.
  intros Hne (?&?&?&?&?&?&?&?&?). unfold entry_at, record_month. cbn.
  repeat split; by rewrite list_lookup_insert_ne.
Qed.

Section Run2.
Context `{NP : Numpy}.
Variable uninit : nat -> nat -> nat -> f32.

Lemma initialize_population_wf N p pop :
  initialize_population N p = Ok pop ->
  0 <= N /\ pop_wf (Z.to_nat N) pop /\
  (forall j a, agent_at pop j = Some a ->
     a_emp a = 0 /\ a_um a = 0 /\ a_state a <> EXITED) /\
  length (sample_idx pop) = Z.to_nat (Z.min (sample_size p) N) /\
  Forall (fun i => 0 <= i < N) (sample_idx pop).
Proof.
  unfold initialize_population, alloc. intros H.
  apply bind_Ok in H as (g0 & _ & H).
  apply bind_Ok in H as (n & Hn & H).
  destruct (N <? 0) eqn:HN; [discriminate|]. injection Hn as <-. apply Z.ltb_ge in HN.
  apply bind_Ok in H as ([cap64 g1] & Hcap & H).
  apply bind_Ok in H as ([tr0 g2] & Htr & H).
  apply bind_Ok in H as ([sidx g3] & Hsi & H). injection H as <-.
  apply rng_lognormal_length in Hcap. apply rng_choice_spec in Htr as (Ltr & Ftr).
  apply rng_choice_norepl_spec in Hsi as (Lsi & Fsi).
  split; [done|]. split.
  { unfold pop_wf. cbn.
    rewrite !length_where_, !length_fmap, !length_replicate.
    repeat split; try done.
    apply Forall_fmap. eapply Forall_impl; [exact Ftr|].
    intros x Hx. cbn in *. unfold uint8. rewrite Z.mod_small; lia. }
  split; [|done].
  intros j a Ha. apply agent_at_fields in Ha as (_ & _ & He & Hu & Hs). cbn in *.
  apply lookup_replicate in He as [He _]. apply lookup_replicate in Hu as [Hu _].
  split; [done|]. split; [done|].
  rewrite !lookup_where_ in Hs.
  destruct (replicate (Z.to_nat N) STABLE !! j) as [s0|] eqn:E; [|done].
  apply lookup_replicate in E as [-> _]. cbn in Hs. injection Hs as Hs.
  rewrite <- Hs. repeat case_match; done.
Qed.

Lemma sim_start_inv N p pop g ser :
  sim_start N p = Ok (pop, g, ser) ->
  initialize_population N p = Ok pop /\ default_rng (seed p + 1) = Ok g /\
  0 <= months p /\ bins ser = to_f32 <$> hist_bins p /\
  series_wf (Z.to_nat (months p)) ser.
Proof.
  unfold sim_start, np_zeros. intros H.
  apply bind_Ok in H as (pop0 & Hpop & H).
  apply bind_Ok in H as (g0 & Hg & H).
  apply bind_Ok in H as (row & _ & H).
  destruct (months p <? 0) eqn:Hm; [apply bind_Ok in H as (? & ? & _); discriminate|].
  apply Z.ltb_ge in Hm. cbn in H. injection H as <- <- <-. cbn.
  repeat split; try done; cbn; by rewrite length_replicate.
Qed.

Lemma run_months_inv N p k st : run_months uninit N p k = Ok st -> run_inv N p st.
Proof.
  revert st. induction k as [|k IH]; intros [[pop g] ser] H.
  - unfold run_months in H. apply bind_Ok in H as ([[pop0 g0] ser0] & Hs & H).
    cbn in H. injection H as <- <- <-.
    apply sim_start_inv in Hs as (Hi & _ & Hm & Hb & Hw).
    apply initialize_population_wf in Hi as (HN & Hwf & Hag & _).
    unfold run_inv. cbn. split; [done|]. split; [done|]. split; [done|].
    split; [|done].
    intros j a Ha. destruct (Hag j a Ha) as (He & _ & Hs). split; [by left|done].
  - rewrite run_months_S in H. apply bind_Ok in H as ([[pop0 g0] ser0] & Hk & H).
    destruct (IH _ Hk) as (HN & Hm & Hwf & Hag & Hb & Hw). cbn in *.
    apply month_step_evolves in H as ((W & _ & _ & A) & st & _ & ->); try done.
    unfold run_inv. cbn. split; [done|]. split; [done|]. split; [done|].
    split; [|split; [done | by apply record_month_wf]].
    intros j a Ha. destruct (agent_at_Some _ _ j Hwf) as [a0 Ha0].
    { apply agent_at_fields in Ha as (Hc & _). apply lookup_lt_Some in Hc.
      destruct W as (Lc & _). lia. }
    destruct (A j a0 Ha0) as (a' & Ha' & R). rewrite Ha in Ha'. injection Ha' as <-.
    exact (rtc_agent_ok _ _ _ (Hag _ _ Ha0) R).
Qed.

(** Entry [m] of the series is the aggregate of the population after
    month [m], whatever happens later. *)
Lemma run_months_entry N p k pop g ser m :
  (k <= Z.to_nat (months p))%nat ->
  run_months uninit N p k = Ok (pop, g, ser) -> (m < k)%nat ->
  exists pop_m g_m ser_m st,
    run_months uninit N p (S m) = Ok (pop_m, g_m, ser_m) /\
    aggregates pop_m (bins ser) = Ok st /\ entry_at ser m st.
Proof.
  revert pop g ser. induction k as [|k IH]; intros pop g ser Hk H Hm; [lia|].
  pose proof H as H0.
  rewrite run_months_S in H. apply bind_Ok in H as ([[pop0 g0] ser0] & Hrun & H).
  pose proof (run_months_inv _ _ _ _ Hrun) as (HN & _ & Hwf & _ & Hb & Hw). cbn in *.
  apply month_step_evolves in H as (_ & st & Hst & ->); try done.
  destruct (decide (m = k)) as [->|Hne].
  - exists pop, g, (record_month k st ser0), st. split; [done|]. split; [done|].
    eapply record_month_entry; [done|lia].
  - destruct (IH pop0 g0 ser0) as (pm & gm & sm & stm & Hr & Ha & He); [lia|done|lia|].
    exists pm, gm, sm, stm. split; [done|]. split; [done|].
    by apply record_month_other.
Qed.
End Run2.

Lemma mask_sum_cons b m : mask_sum (b :: m) = ((if b then 1 else 0) + mask_sum m)%nat.
Proof. by destruct b. Qed.

Lemma mask_sum_compl {A} (f : A -> bool) (l : list A) :
  (mask_sum (f <$> l) + mask_sum ((fun x => negb (f x)) <$> l) = length l)%nat.
Proof.
  induction l as [|x l IH]; [done|]. rewrite !fmap_cons, !mask_sum_cons. cbn [length].
  destruct (f x); cbn; lia.
Qed.

Lemma mask_sum_emp_split (a : mask) (e : list Z) :
  length a = length e -> Forall (fun x => x = 0 \/ x = 1) e ->
  (mask_sum (mand a ((fun x => (x =? 1)%Z) <$> e)) +
   mask_sum (mand a ((fun x => (x =? 0)%Z) <$> e))
   = mask_sum a)%nat.
Proof.
  intros Hl He. revert a Hl. induction He as [|x e Hx He IH]; intros [|b a] Hl; try done.
  cbn in Hl. unfold mand in *. rewrite !fmap_cons. cbn [zip_with]. rewrite !mask_sum_cons.
  specialize (IH a ltac:(lia)).
  destruct Hx as [-> | ->], b; cbn; lia.
Qed.

Lemma count_exited_mono (l l' : list State) :
  length l = length l' ->
  (forall j, l !! j = Some EXITED -> l' !! j = Some EXITED) ->
  (mask_sum ((fun s => state_eqb s EXITED) <$> l) <=
   mask_sum ((fun s => state_eqb s EXITED) <$> l'))%nat.
Proof.
  revert l'. induction l as [|s l IH]; intros [|s' l'] Hl H; try done.
  rewrite !fmap_cons, !mask_sum_cons.
  assert (state_eqb s EXITED = true -> state_eqb s' EXITED = true) as H0.
  { intros Hs. apply state_eqb_eq in Hs as ->. specialize (H 0%nat eq_refl).
    cbn in H. injection H as ->. done. }
  specialize (IH l' ltac:(cbn in Hl; lia) (fun j => H (S j))).
  destruct (state_eqb s EXITED), (state_eqb s' EXITED); cbn; try lia.
  all: specialize (H0 eq_refl); done.
Qed.

(* ------------------------------------------------------------------ *)
(** * Counts, absorbing exits and the employment flag                  *)
(* ------------------------------------------------------------------ *)

Section Claims.
Context `{NP : Numpy}.
Variable uninit : nat -> nat -> nat -> f32.

Lemma aggregates_counts n pop bins st :
  pop_wf n pop -> (forall j a, agent_at pop j = Some a -> agent_ok a) ->
  aggregates pop bins = Ok st ->
  ms_active st + ms_exited st = Z.of_nat n /\ ms_emp st + ms_unemp st = ms_active st.
Proof.
  intros Hwf Hag H. unfold aggregates in H.
  apply bind_Ok in H as (samp & _ & H). apply bind_Ok in H as (pct & _ & H).
  apply bind_Ok in H as ([[q1 q2] q3] & _ & H). apply bind_Ok in H as (h & _ & H).
  injection H as <-. cbn. unfold count_nonzero.
  pose proof Hwf as (Lc & Lt & Le & Lu & Ls & _).
  split.
  - unfold active_mask.
    pose proof (mask_sum_compl (fun s => state_eqb s EXITED) (state pop)). lia.
  - rewrite <- Nat2Z.inj_add. f_equal. apply mask_sum_emp_split.
    + unfold active_mask. rewrite length_fmap. lia.
    + apply Forall_lookup_2. intros j e He.
      destruct (agent_at_Some n pop j Hwf) as [a Ha].
      { apply lookup_lt_Some in He. lia. }
      pose proof (Hag j a Ha) as [Hok _].
      apply agent_at_fields in Ha as (_ & _ & He' & _). congruence.
Qed.

Lemma simulate_run N p out :
  simulate uninit N p = Ok out ->
  exists pop0 g ser,
    run_months uninit N p (Z.to_nat (months p)) = Ok (pop0, g, ser) /\
    series out = ser /\ pop out = pop0 /\
    slot_product p (months p - 1) = Ok (final_effective_job_slot_ratio out).
Proof.
  unfold simulate. intros H. apply bind_Ok in H as ([[pop g] ser] & Hr & H).
  apply bind_Ok in H as (x & Hx & H). injection H as <-. cbn. eauto 10.
Qed.

(** C6: for every month [m] of a run the reported counts satisfy
    [active_ct[m] + exited_ct[m] = N] and
    [emp_ct[m] + unemp_ct[m] = active_ct[m]]. *)
Theorem counts_partition N p out m :
  simulate uninit N p = Ok out -> (m < Z.to_nat (months p))%nat ->
  exists a x e u,
    active_ct (series out) !! m = Some a /\ exited_ct (series out) !! m = Some x /\
    emp_ct (series out) !! m = Some e /\ unemp_ct (series out) !! m = Some u /\
    a + x = N /\ e + u = a.
Proof.
  intros H Hm. apply simulate_run in H as (pop & g & ser & Hr & -> & _ & _).
  destruct (run_months_entry uninit N p _ pop g ser m (le_n _) Hr Hm)
    as (pm & gm & sm & st & Hrm & Hagg & He).
  pose proof (run_months_inv uninit _ _ _ _ Hrm) as (HN & _ & Hwf & Hok & _). cbn in *.
  destruct (aggregates_counts _ _ _ _ Hwf Hok Hagg) as (H1 & H2).
  destruct He as (E1 & E2 & E3 & E4 & _).
  exists (ms_active st), (ms_exited st), (ms_emp st), (ms_unemp st).
  repeat split; try done. lia.
Qed.

Lemma pop_evolves_exited p n pop pop' j :
  pop_wf n pop -> (forall j a, agent_at pop j = Some a -> agent_ok a) ->
  pop_evolves p n pop pop' -> state pop !! j = Some EXITED ->
  agent_at pop' j = agent_at pop j /\ state pop' !! j = Some EXITED.
Proof.
  intros Hwf Hok (W & _ & _ & A) Hs.
  destruct (agent_at_Some n pop j Hwf) as [a Ha].
  { apply lookup_lt_Some in Hs. destruct Hwf as (_ & _ & _ & _ & Ls & _). lia. }
  destruct (A j a Ha) as (a' & Ha' & R).
  pose proof (agent_at_fields _ _ _ Ha) as (_ & _ & _ & _ & Hsa).
  assert (a_state a = EXITED) as Hex by congruence.
  pose proof (Hok j a Ha) as [_ He]. specialize (He Hex).
  apply (rtc_agent_exited _ _ _ R Hex) in He. subst a'.
  split; [congruence|]. apply agent_at_fields in Ha' as (_ & _ & _ & _ & Hs'). congruence.
Qed.

(** C8: in the population reached after any number of months every
    agent whose state is EXITED has [employed = 0], and whatever chunk the
    kernel is then applied to (any month, slot ratio and generator
    state), the population it writes back has the same property. *)
Theorem exited_implies_unemployed N p k pop g ser :
  run_months uninit N p k = Ok (pop, g, ser) ->
  (forall j, state pop !! j = Some EXITED -> employed pop !! j = Some 0) /\
  (forall m sr g0 start pop' g',
     0 <= start < N -> 0 < chunk_size p ->
     chunk_step uninit N p m sr (pop, g0) start = Ok (pop', g') ->
     forall j, state pop' !! j = Some EXITED -> employed pop' !! j = Some 0).
Proof.
  intros Hr. pose proof (run_months_inv uninit _ _ _ _ Hr) as (HN & _ & Hwf & Hok & _).
  cbn in *.
  assert (forall pop1, pop_wf (Z.to_nat N) pop1 ->
            (forall j a, agent_at pop1 j = Some a -> agent_ok a) ->
            forall j, state pop1 !! j = Some EXITED -> employed pop1 !! j = Some 0) as Hgen.
  { intros pop1 W1 Ok1 j Hs. destruct (agent_at_Some _ pop1 j W1) as [a Ha].
    { apply lookup_lt_Some in Hs. destruct W1 as (_ & _ & _ & _ & Ls & _). lia. }
    pose proof (Ok1 j a Ha) as [_ He].
    apply agent_at_fields in Ha as (_ & _ & He' & _ & Hs').
    rewrite He'. f_equal. apply He. congruence. }
  split; [by apply Hgen|].
  intros m sr g0 start pop' g' Hst Hc Hstep.
  destruct (chunk_step_agents uninit _ _ _ _ _ _ _ _ _ Hwf Hst Hc Hstep) as (W' & _ & _ & A).
  apply Hgen; [done|].
  intros j a' Ha'. destruct (agent_at_Some _ pop j Hwf) as [a Ha].
  { apply agent_at_fields in Ha' as (Hc' & _). apply lookup_lt_Some in Hc'.
    destruct W' as (Lc & _). lia. }
  destruct (A j a Ha) as (a2 & Ha2 & [->|Hs]).
  - rewrite Ha' in Ha2. injection Ha2 as ->. by apply (Hok j).
  - rewrite Ha' in Ha2. injection Ha2 as ->. by eapply agent_step_ok.
Qed.

(** C4: EXITED is absorbing.  An agent that is EXITED when a month
    starts has the same capital, tier, employment flag, unemployment
    duration and state when the month ends; and the [exited_ct] series of
    a run never decreases from one month to the next. *)
Theorem exited_absorbing N p :
  (forall k pop g ser pop' g' ser' j,
     run_months uninit N p k = Ok (pop, g, ser) ->
     run_months uninit N p (S k) = Ok (pop', g', ser') ->
     state pop !! j = Some EXITED ->
     capital pop' !! j = capital pop !! j /\ tiers pop' !! j = tiers pop !! j /\
     employed pop' !! j = employed pop !! j /\
     unemp_months pop' !! j = unemp_months pop !! j /\
     state pop' !! j = Some EXITED) /\
  (forall out m x y,
     simulate uninit N p = Ok out ->
     exited_ct (series out) !! m = Some x -> exited_ct (series out) !! S m = Some y ->
     x <= y).
Proof.
  assert (forall k pop g ser pop' g' ser',
     run_months uninit N p k = Ok (pop, g, ser) ->
     run_months uninit N p (S k) = Ok (pop', g', ser') ->
     pop_wf (Z.to_nat N) pop /\ (forall j a, agent_at pop j = Some a -> agent_ok a) /\
     pop_evolves p (Z.to_nat N) pop pop') as Hstep.
  { intros k pop g ser pop' g' ser' Hr Hr'.
    pose proof (run_months_inv uninit _ _ _ _ Hr) as (HN & _ & Hwf & Hok & _). cbn in *.
    rewrite run_months_S, Hr in Hr'. cbn in Hr'.
    apply month_step_evolves in Hr' as (Hev & _); done. }
  split.
  - intros k pop g ser pop' g' ser' j Hr Hr' Hs.
    destruct (Hstep _ _ _ _ _ _ _ Hr Hr') as (Hwf & Hok & Hev).
    destruct (pop_evolves_exited _ _ _ _ j Hwf Hok Hev Hs) as (Hag & Hs').
    destruct (agent_at_Some _ pop j Hwf) as [a Ha].
    { apply lookup_lt_Some in Hs. destruct Hwf as (_ & _ & _ & _ & Ls & _). lia. }
    rewrite Ha in Hag.
    apply agent_at_fields in Ha as (A1 & A2 & A3 & A4 & A5).
    apply agent_at_fields in Hag as (B1 & B2 & B3 & B4 & B5).
    repeat split; congruence.
  - intros out m x y H Hx Hy.
    apply simulate_run in H as (pop & g & ser & Hr & Hser & _ & _).
    rewrite Hser in Hx, Hy. clear Hser.
    pose proof (run_months_inv uninit _ _ _ _ Hr) as (_ & _ & _ & _ & _ & Hw). cbn in Hw.
    destruct Hw as (_ & Lx & _).
    assert (S m < Z.to_nat (months p))%nat as Hm
      by (apply lookup_lt_Some in Hy; lia).
    destruct (run_months_entry uninit N p _ pop g ser m (le_n _) Hr ltac:(lia))
      as (p1 & g1 & s1 & st1 & Hr1 & Ha1 & E1).
    destruct (run_months_entry uninit N p _ pop g ser (S m) (le_n _) Hr Hm)
      as (p2 & g2 & s2 & st2 & Hr2 & Ha2 & E2).
    destruct (Hstep _ _ _ _ _ _ _ Hr1 Hr2) as (Hwf & Hok & Hev).
    destruct E1 as (_ & E1 & _). destruct E2 as (_ & E2 & _).
    assert (x = ms_exited st1) as -> by congruence.
    assert (y = ms_exited st2) as -> by congruence.
    unfold aggregates in Ha1, Ha2.
    apply bind_Ok in Ha1 as (? & _ & Ha1). apply bind_Ok in Ha1 as (? & _ & Ha1).
    apply bind_Ok in Ha1 as ([[? ?] ?] & _ & Ha1). apply bind_Ok in Ha1 as (? & _ & Ha1).
    injection Ha1 as <-.
    apply bind_Ok in Ha2 as (? & _ & Ha2). apply bind_Ok in Ha2 as (? & _ & Ha2).
    apply bind_Ok in Ha2 as ([[? ?] ?] & _ & Ha2). apply bind_Ok in Ha2 as (? & _ & Ha2).
    injection Ha2 as <-. cbn. unfold count_nonzero. apply inj_le.
    apply count_exited_mono.
    + destruct Hwf as (_ & _ & _ & _ & L1 & _). destruct Hev as ((_ & _ & _ & _ & L2 & _) & _).
      lia.
    + intros j Hs. by destruct (pop_evolves_exited _ _ _ _ j Hwf Hok Hev Hs).
Qed.
End Claims.

Lemma foldlM_ext_inv {A B} (f g : B -> A -> result B) (I : B -> Prop) l b :
  (forall b x b', x ∈ l -> I b -> f b x = Ok b' -> I b') ->
  (forall b x, x ∈ l -> I b -> f b x = g b x) ->
  I b -> foldlM f b l = foldlM g b l.
Proof.
  revert b. induction l as [|x l IH]; intros b Hpres Hext Hb; cbn; [done|].
  rewrite <- (Hext b x) by (done || left).
  destruct (f b x) as [b'|e] eqn:E; cbn; [|done].
  apply IH.
  - intros ? ? ? ?. apply Hpres. by right.
  - intros ? ? ?. apply Hext. by right.
  - eapply Hpres; [left|exact Hb|exact E].
Qed.

Lemma py_range_single N c :
  N <= c -> 0 < c -> py_range 0 N c = Ok (if 0 <? N then [0] else []).
Proof.
  intros HN Hc. unfold py_range.
  destruct (c =? 0) eqn:E; [lia|]. destruct (0 <? c) eqn:E2; [|lia].
  destruct (0 <? N) eqn:E3.
  - assert ((N - 0 + c - 1) / c = 1) as ->.
    { symmetry. apply (Z.div_unique_pos _ _ 1 (N - 1)); lia. }
    cbn. repeat f_equal; try lia.
  - assert ((N - 0 + c - 1) / c <= 0) as Hle.
    { apply Z.ltb_ge in E3. destruct (Z_lt_le_dec (N - 0 + c - 1) 0).
      - pose proof (Z.div_lt_upper_bound (N - 0 + c - 1) c 1). lia.
      - rewrite Z.div_small; lia. }
    by replace (Z.to_nat _) with 0%nat by lia.
Qed.

Lemma scatter_lookup_true {A} (m : mask) (xs ys vals : list A) i :
  length xs = length ys -> (mask_sum m <= length vals)%nat -> mask_at m i = true ->
  scatter m xs vals !! i = scatter m ys vals !! i.
Proof.
  unfold scatter.
  revert ys m vals i. induction xs as [|x xs IH]; intros [|y ys] m vals i Hl Hv Hm;
    try done.
  destruct m as [|b m]; [by rewrite mask_at_nil in Hm|].
  - cbn in Hl. rewrite mask_sum_cons in Hv. destruct i as [|i].
    + cbn in Hm. subst b. destruct vals; [cbn in Hv; lia|done].
    + rewrite mask_at_cons_S in Hm. cbn [scatter_with].
      destruct b.
      * destruct vals as [|v vals]; [cbn in Hv; lia|]. cbn.
        apply IH; [lia| cbn in Hv; lia | done].
      * cbn. apply IH; [lia| cbn in Hv; lia | done].
Qed.

Lemma scatter_agree {A} (P : nat -> Prop) (m : mask) (xs ys vals : list A) :
  length xs = length ys -> (mask_sum m <= length vals)%nat -> agree_on P xs ys ->
  agree_on (fun i => P i \/ mask_at m i = true) (scatter m xs vals) (scatter m ys vals).
Proof.
  intros Hl Hv Hag i Hi. destruct (mask_at m i) eqn:Hm.
  - by apply scatter_lookup_true.
  - unfold scatter. rewrite !lookup_scatter_with_false by done.
    destruct Hi as [Hi|Hi]; [by apply Hag | done].
Qed.

Lemma select_agree {A} (m : mask) (xs ys : list A) :
  length xs = length ys -> agree_on (fun i => mask_at m i = true) xs ys ->
  select m xs = select m ys.
Proof.
  revert xs ys. induction m as [|b m IH]; intros [|x xs] [|y ys] Hl Hag; try done.
  cbn [select].
  rewrite (IH xs ys) by (cbn in Hl; try lia; intros i Hi; apply (Hag (S i)); done).
  destruct b; [|done]. specialize (Hag 0%nat eq_refl). cbn in Hag. congruence.
Qed.

Lemma bind_Ok_l {A B} (a : A) (f : A -> result B) : Ok a ≫= f = f a.
Proof. done. Qed.

Lemma bind_ext_Ok {A B} (m : result A) (f g : A -> result B) :
  (forall a, m = Ok a -> f a = g a) -> m ≫= f = m ≫= g.
Proof. intros H. destruct m as [a|e]; [by apply H | done]. Qed.

(* ------------------------------------------------------------------ *)
(** * Uninitialised buffers and chunk sizes                             *)
(* ------------------------------------------------------------------ *)

Section Uninit.
Context `{NP : Numpy}.

Lemma cashflow_tier_agree p active tr emp rev1 rev2 g t (P : nat -> Prop) :
  length rev1 = length rev2 -> agree_on P rev1 rev2 ->
  match cashflow_tier p active tr emp (rev1, g) t,
        cashflow_tier p active tr emp (rev2, g) t with
  | Ok (r1, g1), Ok (r2, g2) =>
      g1 = g2 /\ length r1 = length r2 /\
      agree_on (fun i => P i \/
                  mask_at (mand active ((fun x => x =? Z.of_nat t) <$> tr)) i = true) r1 r2
  | Err e1, Err e2 => e1 = e2
  | _, _ => False
  end.
Proof.
  intros Hl Hag. unfold cashflow_tier.
  destruct (mask_any _) eqn:Hany.
  - destruct (tuple_get (rev_employed_mu p) t); cbn; [|done].
    destruct (tuple_get (rev_unemployed_mu p) t); cbn; [|done].
    destruct (tuple_get (rev_sigma p) t); cbn; [|done].
    destruct (rng_normal _ _ _ g) as [[draws g1]|] eqn:Hd; cbn; [|done].
    apply rng_normal_length in Hd.
    split; [done|]. split.
    { unfold scatter. by rewrite !length_scatter_with. }
    apply scatter_agree; [done| by rewrite length_fmap, Hd |done].
  - split; [done|]. split; [done|]. intros i [Hi|Hi]; [by apply Hag|].
    exfalso. clear -Hany Hi. revert i Hi.
    induction (mand active _) as [|b m IH]; intros i Hi.
    + by rewrite mask_at_nil in Hi.
    + cbn in Hany. apply orb_false_iff in Hany as [-> Hany]. destruct i; [done|].
      by apply (IH Hany i).
Qed.

Lemma cashflow_fold_agree p active tr emp ts rev1 rev2 g (P : nat -> Prop) :
  length rev1 = length rev2 -> agree_on P rev1 rev2 ->
  match foldlM (cashflow_tier p active tr emp) (rev1, g) ts,
        foldlM (cashflow_tier p active tr emp) (rev2, g) ts with
  | Ok (r1, g1), Ok (r2, g2) =>
      g1 = g2 /\ length r1 = length r2 /\
      agree_on (fun i => P i \/ exists t, t ∈ ts /\
                  mask_at (mand active ((fun x => x =? Z.of_nat t) <$> tr)) i = true) r1 r2
  | Err e1, Err e2 => e1 = e2
  | _, _ => False
  end.
Proof.
  revert rev1 rev2 g P. induction ts as [|t ts IH]; intros rev1 rev2 g P Hl Hag.
  - cbn. split; [done|]. split; [done|]. intros i [Hi|(t & Ht & _)]; [by apply Hag|].
    by apply elem_of_nil in Ht.
  - cbn [foldlM].
    pose proof (cashflow_tier_agree p active tr emp rev1 rev2 g t P Hl Hag) as H0.
    destruct (cashflow_tier p active tr emp (rev1, g) t) as [[a1 g1]|];
      destruct (cashflow_tier p active tr emp (rev2, g) t) as [[b1 g1']|]; try done.
    destruct H0 as (<- & L1 & A1). rewrite !bind_Ok_l.
    specialize (IH a1 b1 g1 _ L1 A1).
    destruct (foldlM _ (a1, g1) ts) as [[r1 h1]|];
      destruct (foldlM _ (b1, g1) ts) as [[r2 h2]|]; try done.
    destruct IH as (<- & L2 & A2). split; [done|]. split; [done|].
    intros i Hi. apply A2. destruct Hi as [Hi|(t' & Ht' & Hi)]; [by left; left|].
    apply elem_of_cons in Ht' as [->|Ht']; [by left; right|].
    right. eauto.
Qed.

Lemma monthly_cashflow_uninit p active tr emp rev1 rev2 cap g :
  length rev1 = length rev2 -> length tr = length active ->
  Forall (fun t => 0 <= t < 3) tr ->
  monthly_cashflow p active tr emp rev1 cap g = monthly_cashflow p active tr emp rev2 cap g.
Proof.
  intros Hl Ht Hr. unfold monthly_cashflow.
  pose proof (cashflow_fold_agree p active tr emp [0; 1; 2]%nat rev1 rev2 g (fun _ => False) Hl
                ltac:(by intros ? ?)) as H0.
  destruct (foldlM _ (rev1, g) _) as [[r1 g1]|];
    destruct (foldlM _ (rev2, g) _) as [[r2 g2]|]; try done; [|by subst].
  destruct H0 as (<- & L & A). rewrite !bind_Ok_l.
  do 3 f_equal. apply select_agree; [done|].
  intros i Hi. apply A. right.
  destruct (lookup_lt_is_Some_2 tr i) as [t Hti].
  { unfold mask_at in Hi. destruct (active !! i) eqn:E; [|done].
    apply lookup_lt_Some in E. lia. }
  pose proof (Forall_lookup_1 _ _ _ _ Hr Hti) as Hrange. cbn in Hrange.
  exists (Z.to_nat t). split.
  - assert (t = 0 \/ t = 1 \/ t = 2) as [->|[->| ->]] by lia; cbn;
      rewrite !elem_of_cons; auto.
  - rewrite mask_at_mand, mask_at_fmap, Hti, Hi. cbn. apply Z.eqb_eq. lia.
Qed.

Lemma advance_chunk_uninit p sr r1 r2 size g c :
  length (tr c) = length (stt c) -> Forall (fun t => 0 <= t < 3) (tr c) ->
  advance_chunk p sr r1 size g c = advance_chunk p sr r2 size g c.
Proof.
  intros Hl Hr. unfold advance_chunk. cbn zeta.
  destruct (rng_random size g) as [draw g1].
  destruct (rng_random size g1) as [shock_draw g2].
  destruct (shocks _ _ _ _ _) as [[cap1 g3]|]; [|done].
  rewrite !bind_Ok_l. cbv beta iota.
  destruct (rng_random size g3) as [sep_draw g4].
  destruct (separations _ _ _ _ _) as [cap2 emp2].
  rewrite (monthly_cashflow_uninit p _ _ _ (r1 <$> seq 0 size) (r2 <$> seq 0 size)); try done.
  - by rewrite !length_fmap.
  - unfold active_mask. by rewrite length_fmap.
Qed.

Lemma chunk_step_uninit u1 u2 N p m sr pop g start :
  pop_wf (Z.to_nat N) pop -> 0 <= start < N -> 0 < chunk_size p ->
  chunk_step u1 N p m sr (pop, g) start = chunk_step u2 N p m sr (pop, g) start.
Proof.
  intros (Lc & Lt & Le & Lu & Ls & Ht) Hs Hc. unfold chunk_step. cbn zeta.
  rewrite (advance_chunk_uninit p sr (u1 m (Z.to_nat start)) (u2 m (Z.to_nat start))); [done| |].
  - cbn. rewrite !length_slice by lia. done.
  - cbn. unfold slice. by apply Forall_take, Forall_drop.
Qed.

Lemma month_step_uninit u1 u2 N p st m :
  0 <= N -> pop_wf (Z.to_nat N) st.1.1 ->
  month_step u1 N p st m = month_step u2 N p st m.
Proof.
  destruct st as [[pop g] ser]. cbn. intros HN Hwf. unfold month_step.
  destruct (slot_ratio_month p (Z.of_nat m)) as [sr|]; cbn; [|done].
  destruct (py_range 0 N (chunk_size p)) as [starts|] eqn:Hr; cbn; [|done].
  rewrite (foldlM_ext_inv (chunk_step u1 N p m sr) (chunk_step u2 N p m sr)
             (fun b => pop_wf (Z.to_nat N) b.1)); try done.
  - intros [pop1 g1] x [pop2 g2] Hx W1 Hstep.
    destruct (py_range_elem _ _ _ _ HN Hr Hx) as (Hc & Hx').
    by destruct (chunk_step_agents u1 _ _ _ _ _ _ _ _ _ W1 Hx' Hc Hstep).
  - intros [pop1 g1] x Hx W1.
    destruct (py_range_elem _ _ _ _ HN Hr Hx) as (Hc & Hx').
    by apply chunk_step_uninit.
Qed.

Lemma run_months_uninit u1 u2 N p k :
  run_months u1 N p k = run_months u2 N p k.
Proof.
  unfold run_months. apply bind_ext_Ok. intros [[pop g] ser] Hs.
  apply sim_start_inv in Hs as (Hi & _).
  apply initialize_population_wf in Hi as (HN & Hwf & _).
  apply (foldlM_ext_inv (month_step u1 N p) (month_step u2 N p)
           (fun st => pop_wf (Z.to_nat N) st.1.1)); [| |exact Hwf].
  - intros [[pop1 g1] ser1] m [[pop2 g2] ser2] _ W1 Hstep.
    apply month_step_evolves in Hstep as ((W2 & _) & _); done.
  - intros st m _ W1. by apply month_step_uninit.
Qed.

Lemma simulate_uninit u1 u2 N p : simulate u1 N p = simulate u2 N p.
Proof. unfold simulate. by rewrite (run_months_uninit u1 u2). Qed.

Variable uninit : nat -> nat -> nat -> f32.

Lemma chunk_step_single N p c1 c2 m sr acc :
  N <= c1 -> N <= c2 ->
  chunk_step uninit N (set_chunk_size c1 p) m sr acc 0 =
  chunk_step uninit N (set_chunk_size c2 p) m sr acc 0.
Proof.
  intros H1 H2. unfold chunk_step. destruct acc as [pop g]. cbn [chunk_size set_chunk_size].
  rewrite !Z.min_r by lia. reflexivity.
Qed.

(** C1 (as amended): two chunk sizes that both cover the whole
    population, so that the chunk loop makes a single pass, give the same
    result; the run with other chunk sizes draws its random numbers in a
    different order. *)
Theorem single_chunk_same N p c1 c2 :
  N <= c1 -> N <= c2 -> 0 < c1 -> 0 < c2 ->
  simulate uninit N (set_chunk_size c1 p) = simulate uninit N (set_chunk_size c2 p).
Proof.
  intros H1 H2 P1 P2. unfold simulate.
  change (months (set_chunk_size c1 p)) with (months p).
  change (months (set_chunk_size c2 p)) with (months p).
  assert (run_months uninit N (set_chunk_size c1 p) (Z.to_nat (months p)) =
          run_months uninit N (set_chunk_size c2 p) (Z.to_nat (months p))) as ->; [|reflexivity].
  unfold run_months.
  change (sim_start N (set_chunk_size c1 p)) with (sim_start N p).
  change (sim_start N (set_chunk_size c2 p)) with (sim_start N p).
  destruct (sim_start N p) as [st|]; [|done].
  change (Ok ?st ≫= ?f) with (f st). cbn beta.
  apply (foldlM_ext_inv _ _ (fun _ => True)); try done.
  intros [[pop g] ser] m _ _. unfold month_step.
  change (slot_ratio_month (set_chunk_size c1 p)) with (slot_ratio_month p).
  change (slot_ratio_month (set_chunk_size c2 p)) with (slot_ratio_month p).
  destruct (slot_ratio_month p (Z.of_nat m)) as [sr|]; cbn [mbind result_bind]; [|done].
  cbn [chunk_size set_chunk_size]. rewrite !py_range_single by done.
  cbn [mbind result_bind]. destruct (0 <? N); cbn [foldlM]; [|done].
  by rewrite (chunk_step_single N p c1 c2).
Qed.
End Uninit.

(* ------------------------------------------------------------------ *)
(** * Order facts on floats, clamping and the histogram                *)
(* ------------------------------------------------------------------ *)

Lemma SFcompare_antisym a b :
  SFcompare b a = CompOpp <$> SFcompare a b.
Proof.
  destruct a as [[]|[]| |[] ma ea], b as [[]|[]| |[] mb eb]; try done; cbn.
  - rewrite (Z.compare_antisym ea eb).
    destruct (ea ?= eb); cbn; try done.
    change (Pos.compare_cont Eq ?x ?y) with (Pos.compare x y).
    by rewrite (Pos.compare_antisym ma mb).
  - rewrite (Z.compare_antisym ea eb).
    destruct (ea ?= eb); cbn; try done.
    change (Pos.compare_cont Eq ?x ?y) with (Pos.compare x y).
    by rewrite (Pos.compare_antisym ma mb).
Qed.

Lemma flt_not_nan a b : flt a b = true -> is_nan a = false /\ is_nan b = false.
Proof. by destruct a, b. Qed.

Lemma fle_not_nan a b : fle a b = true -> is_nan a = false /\ is_nan b = false.
Proof. by destruct a, b. Qed.

Lemma flt_nan_r a : flt a S754_nan = false.
Proof. by destruct a. Qed.


Lemma flt_fle a b : flt a b = true -> fle a b = true.
Proof. unfold flt, fle, SFltb, SFleb. by destruct (SFcompare a b) as [[]|]. Qed.

(** On numbers, [a < b] is the negation of [b <= a]. *)
Lemma flt_negb_fle a b :
  is_nan a = false -> is_nan b = false -> flt a b = negb (fle b a).
Proof.
  intros Ha Hb. unfold flt, fle, SFltb, SFleb. rewrite (SFcompare_antisym a b).
  destruct (SFcompare a b) as [[]|] eqn:E; try done.
  by destruct a, b.
Qed.

Lemma flt_asym a b : flt a b = true -> flt b a = false.
Proof.
  intros H. destruct (flt_not_nan _ _ H) as [Ha Hb].
  rewrite flt_negb_fle by done. by rewrite (flt_fle _ _ H).
Qed.

Lemma flt_irrefl a : flt a a = false.
Proof. destruct (flt a a) eqn:E; [|done]. by rewrite (flt_asym _ _ E) in E. Qed.

Lemma fle_refl a : is_nan a = false -> fle a a = true.
Proof.
  destruct a as [[]|[]| |[] m e]; try done; intros _; unfold fle, SFleb, SFcompare;
    rewrite Z.compare_refl; change (Pos.compare_cont Eq ?x ?y) with (Pos.compare x y);
    by rewrite Pos.compare_refl.
Qed.

Lemma fle_trans a b c : fle a b = true -> fle b c = true -> fle a c = true.
Proof.
  unfold fle, SFleb, SFcompare.
  destruct a as [[]|[]| |[] ma ea], b as [[]|[]| |[] mb eb], c as [[]|[]| |[] mc ec];
    try done;
    change (Pos.compare_cont Eq ?x ?y) with (Pos.compare x y);
    destruct (Z.compare_spec ea eb), (Z.compare_spec eb ec), (Z.compare_spec ea ec);
    try done; try lia;
    destruct (Pos.compare_spec ma mb), (Pos.compare_spec mb mc), (Pos.compare_spec ma mc);
    cbn; try done; try lia.
Qed.

Lemma np_clip_above x :
  fgt x (F64.of_Z 1) = true ->
  np_clip x (F64.of_Z 0) (F64.of_Z 1) = F64.of_Z 1 /\ F64.of_Z 1 <> x.
Proof.
  unfold fgt. intros H.
  assert (F64.of_Z 1 <> x) as Hne by (intros <-; by rewrite flt_irrefl in H).
  split; [|done].
  assert (flt x (F64.of_Z 0) = false) as H0.
  { clear Hne. unfold flt in *. destruct x as [[]|[]| |[] m e]; done. }
  unfold np_clip. change (is_nan (F64.of_Z 0)) with false.
  change (is_nan (F64.of_Z 1)) with false. cbv iota zeta.
  unfold fgt. fold (flt (F64.of_Z 1) x). by rewrite H0, H.
Qed.

Lemma np_clip_below x :
  flt x (F64.of_Z 0) = true ->
  np_clip x (F64.of_Z 0) (F64.of_Z 1) = F64.of_Z 0 /\ F64.of_Z 0 <> x.
Proof.
  intros H.
  assert (F64.of_Z 0 <> x) as Hne by (intros <-; by rewrite flt_irrefl in H).
  split; [|done].
  unfold np_clip. change (is_nan (F64.of_Z 0)) with false.
  change (is_nan (F64.of_Z 1)) with false. cbv iota zeta. by rewrite H.
Qed.






(* ------------------------------------------------------------------ *)
(** * Unemployment duration and reclassification of one agent         *)
(* ------------------------------------------------------------------ *)

(** Below 255 the duration update is the plain increment. *)
Lemma inc_unemp_below u : 0 <= u < 255 -> inc_unemp u = u + 1.
Proof.
  intros Hu. unfold inc_unemp, uint8.
  rewrite (Z.mod_small (u + 1)) by lia. rewrite Z.min_l by lia.
  apply Z.mod_small. lia.
Qed.

(** The duration of an active agent over one month: reset when it ends
    employed, incremented when it ends unemployed, incremented once more
    when it exits. *)
Lemma agent_month_unemp p s u hired sep exit_hit x' :
  s <> EXITED ->
  let r := agent_month p s u hired sep exit_hit x' in
  (r.2 <> EXITED -> r.1.1 = 1 -> r.1.2 = 0) /\
  (r.2 <> EXITED -> r.1.1 = 0 -> r.1.2 = inc_unemp u) /\
  (r.2 = EXITED -> r.1.1 = 0 /\ r.1.2 = inc_unemp (agent_um1 (agent_emp1 hired sep) u)).
Proof.
  intros Hs. unfold agent_month.
  destruct (state_eqb s EXITED) eqn:E; [by apply state_eqb_eq in E|].
  pose proof (classify_active p x' s Hs) as Hc. cbn zeta.
  destruct (state_eqb (classify p x' s) INSOLVENT && exit_hit); cbn.
  - repeat split; done.
  - unfold agent_um1, agent_emp1. destruct sep, hired; cbn; repeat split; done.
Qed.

(** With the insolvent threshold below the precarious one and a capital
    that is a number, the kernel's three assignments are the cascade
    insolvent, precarious, stable. *)
Lemma classify_ordered p x s :
  flt (to_f32 (insolvent_thresh p)) (to_f32 (precarious_thresh p)) = true ->
  is_nan x = false ->
  classify p x s =
    if fle x (to_f32 (insolvent_thresh p)) then INSOLVENT
    else if flt x (to_f32 (precarious_thresh p)) then PRECARIOUS
    else STABLE.
Proof.
  intros Hth Hx. destruct (flt_not_nan _ _ Hth) as [Hi Hp].
  unfold classify, fge. fold (fle (to_f32 (precarious_thresh p)) x).
  rewrite (flt_negb_fle x) by done.
  destruct (fle x (to_f32 (insolvent_thresh p))) eqn:Ei.
  - assert (fle (to_f32 (precarious_thresh p)) x = false) as ->.
    { destruct (fle (to_f32 (precarious_thresh p)) x) eqn:Ep; [|done].
      pose proof (fle_trans _ _ _ Ep Ei) as Hc.
      rewrite (flt_negb_fle _ _ Hi Hp), Hc in Hth. done. }
    done.
  - by destruct (fle (to_f32 (precarious_thresh p)) x).
Qed.

Lemma is_Ok_bind_false {A B} (m : result A) (f : A -> result B) :
  is_Ok m = false -> is_Ok (m ≫= f) = false.
Proof. by destruct m. Qed.

Lemma is_Ok_bind_inv {A B} (m : result A) (f : A -> result B) :
  (forall a, m = Ok a -> is_Ok (f a) = false) -> is_Ok (m ≫= f) = false.
Proof. destruct m as [a|]; [|done]. intros H. by apply H. Qed.

(* ------------------------------------------------------------------ *)
(** * Slot ratio, histogram, reproducibility and parameter checks      *)
(* ------------------------------------------------------------------ *)

Section Claims2.
Context `{NP : Numpy}.
Variable uninit : nat -> nat -> nat -> f32.

(** C9: the reported [final_effective_job_slot_ratio] is the product
    [job_slot_ratio0 * (1 - job_slot_decline) ** (months - 1) * hire_friction]
    without clamping, while the last month draws employment against the
    same product clamped to [0, 1]; whenever the product is above 1 or
    below 0 the two differ. *)
Theorem final_slot_ratio_unclamped N p out :
  simulate uninit N p = Ok out ->
  let final := final_effective_job_slot_ratio out in
  slot_product p (months p - 1) = Ok final /\
  (0 < months p ->
   slot_ratio_month p (Z.of_nat (Z.to_nat (months p) - 1)) =
     Ok (np_clip final (F64.of_Z 0) (F64.of_Z 1))) /\
  (fgt final (F64.of_Z 1) = true \/ flt final (F64.of_Z 0) = true ->
   np_clip final (F64.of_Z 0) (F64.of_Z 1) <> final).
Proof.
  intros H. apply simulate_run in H as (pop & g & ser & _ & _ & _ & Hf). cbn zeta.
  split; [done|]. split.
  - intros Hm. replace (Z.of_nat (Z.to_nat (months p) - 1)) with (months p - 1) by lia.
    unfold slot_product in Hf. unfold slot_ratio_month.
    apply bind_Ok in Hf as (pw & -> & Hf). by injection Hf as <-.
  - intros [Hgt|Hlt].
    + destruct (np_clip_above _ Hgt) as [-> Hne]. done.
    + destruct (np_clip_below _ Hlt) as [-> Hne]. done.
Qed.

Lemma aggregates_hist pop bins st :
  aggregates pop bins = Ok st ->
  exists samp, gather (capital pop) (sample_idx pop) = Ok samp /\
               np_histogram samp bins = Ok (ms_hist st).
Proof.
  unfold aggregates. intros H.
  apply bind_Ok in H as (samp & Hs & H). apply bind_Ok in H as (pct & _ & H).
  apply bind_Ok in H as ([[q1 q2] q3] & _ & H). apply bind_Ok in H as (h & Hh & H).
  injection H as <-. cbn. eauto.
Qed.


(** C3: a run is a function of [N] and the parameters alone: whatever
    the uninitialised buffers of the kernel hold, the result (series,
    final arrays or exception) is the same.  The initializer reads only
    the seed, the capital and tier parameters, the two thresholds and the
    sample size, so it returns the same arrays for any two parameter sets
    that agree on them, and the kernel's generator is a fresh one seeded
    with [seed + 1]. *)
Theorem runs_reproducible (u1 u2 : nat -> nat -> nat -> f32) N p :
  simulate u1 N p = simulate u2 N p /\
  (forall p', same_init_fields p p' ->
     initialize_population N p = initialize_population N p') /\
  (forall pop g ser, sim_start N p = Ok (pop, g, ser) ->
     initialize_population N p = Ok pop /\ default_rng (seed p + 1) = Ok g).
Proof.
  split; [apply simulate_uninit|]. split.
  - intros p' (H1 & H2 & H3 & H4 & H5 & H6 & H7 & H8).
    unfold initialize_population. by rewrite H1, H2, H3, H4, H5, H6, H7, H8.
  - intros pop g ser H. by apply sim_start_inv in H as (? & ? & _).
Qed.

(** C7 (as amended): parameters are not validated up front.  A
    negative [N], a negative month count, or tier probabilities that
    [rng.choice] rejects make the run fail before its first month, in
    the start-up that precedes the month loop, with the library's own
    exception: for a negative [N] the ValueError of the array allocation
    once the initializer's generator is seeded, for a negative month
    count the ValueError of [np.zeros] once the initializer has returned
    and the kernel's generator is seeded, for rejected tier probabilities
    whatever [rng.choice] raises once the capitals are drawn.  A sample
    size above [N] is clamped to [N], a chunk size of at least [N] gives
    a single chunk, and a run of zero months succeeds with empty
    series. *)
Theorem no_parameter_validation N p :
  (N < 0 ->
     is_Ok (sim_start N p) = false /\ is_Ok (simulate uninit N p) = false /\
     forall g, default_rng (seed p) = Ok g ->
       sim_start N p = Err ValueError /\ simulate uninit N p = Err ValueError) /\
  (months p < 0 ->
     is_Ok (sim_start N p) = false /\ is_Ok (simulate uninit N p) = false /\
     forall pop0 g, initialize_population N p = Ok pop0 -> default_rng (seed p + 1) = Ok g ->
       sim_start N p = Err ValueError /\ simulate uninit N p = Err ValueError) /\
  ((forall g, is_Ok (rng_choice 3 (Z.to_nat N) (tier_probs p) g) = false) ->
     is_Ok (sim_start N p) = false /\ is_Ok (simulate uninit N p) = false) /\
  (forall e, (forall g, rng_choice 3 (Z.to_nat N) (tier_probs p) g = Err e) ->
     forall g c g', 0 <= N -> default_rng (seed p) = Ok g ->
       rng_lognormal (capital_logn_mu p) (capital_logn_sigma p) (Z.to_nat N) g = Ok (c, g') ->
       sim_start N p = Err e /\ simulate uninit N p = Err e) /\
  (forall pop0, initialize_population N p = Ok pop0 ->
     length (sample_idx pop0) = Z.to_nat (Z.min (sample_size p) N)) /\
  (N <= chunk_size p -> 0 < chunk_size p ->
     py_range 0 N (chunk_size p) = Ok (if 0 <? N then [0] else [])) /\
  (forall pop0 g x,
     months p = 0 -> hist_bins p <> [] ->
     initialize_population N p = Ok pop0 -> default_rng (seed p + 1) = Ok g ->
     slot_product p (-1) = Ok x ->
     simulate uninit N p =
       Ok {| series := empty_series p; final_effective_job_slot_ratio := x; pop := pop0 |}).
Proof.
  assert (is_Ok (sim_start N p) = false -> is_Ok (simulate uninit N p) = false) as Hstart.
  { intros H. unfold simulate, run_months. by do 2 apply is_Ok_bind_false. }
  assert (forall e, sim_start N p = Err e -> simulate uninit N p = Err e) as Herr.
  { intros e H. unfold simulate, run_months. by rewrite H. }
  assert (is_Ok (initialize_population N p) = false -> is_Ok (sim_start N p) = false) as Hinit.
  { intros H. unfold sim_start. by apply is_Ok_bind_false. }
  split; [|split; [|split; [|split; [|split; [|split]]]]].
  - intros HN.
    assert (is_Ok (sim_start N p) = false) as Hs.
    { apply Hinit. unfold initialize_population. apply is_Ok_bind_inv. intros g0 _.
      apply is_Ok_bind_false. unfold alloc. by destruct (N <? 0) eqn:E; [|lia]. }
    split; [done|]. split; [by apply Hstart|]. intros g Hg.
    assert (sim_start N p = Err ValueError) as He; [|by split; [|apply Herr]].
    unfold sim_start, initialize_population, alloc. rewrite Hg, bind_Ok_l.
    by destruct (N <? 0) eqn:E; [|lia].
  - intros Hm.
    assert (is_Ok (sim_start N p) = false) as Hs.
    { unfold sim_start.
      apply is_Ok_bind_inv. intros pop0 _. apply is_Ok_bind_inv. intros g _.
      apply is_Ok_bind_inv. intros row _. apply is_Ok_bind_false.
      unfold np_zeros. by destruct (months p <? 0) eqn:E; [|lia]. }
    split; [done|]. split; [by apply Hstart|]. intros pop0 g Hi Hg.
    assert (sim_start N p = Err ValueError) as He; [|by split; [|apply Herr]].
    unfold sim_start. rewrite Hi, bind_Ok_l, Hg, bind_Ok_l. unfold np_zeros.
    destruct (Z.of_nat (length (to_f32 <$> hist_bins p)) - 1 <? 0); [done|].
    rewrite bind_Ok_l. by destruct (months p <? 0) eqn:E; [|lia].
  - intros Hch.
    assert (is_Ok (sim_start N p) = false) as Hs; [|by split; [|apply Hstart]].
    apply Hinit. unfold initialize_population. apply is_Ok_bind_inv. intros g0 _.
    apply is_Ok_bind_inv. intros n Hn. apply is_Ok_bind_inv. intros [cap64 g1] _.
    apply is_Ok_bind_false.
    unfold alloc in Hn. destruct (N <? 0); [done|]. injection Hn as <-. apply Hch.
  - intros e Hch g c g' HN Hg Hc.
    assert (sim_start N p = Err e) as He; [|by split; [|apply Herr]].
    unfold sim_start, initialize_population, alloc. rewrite Hg, bind_Ok_l.
    destruct (N <? 0) eqn:E; [lia|]. rewrite bind_Ok_l, Hc, bind_Ok_l.
    by rewrite Hch.
  - intros pop0 H. by apply initialize_population_wf in H as (_ & _ & _ & H & _).
  - apply py_range_single.
  - intros pop0 g x Hm Hb Hi Hg Hx.
    unfold simulate, run_months, sim_start. rewrite Hi, Hg, Hm. cbn [Z.to_nat seq foldlM].
    rewrite !bind_Ok_l. unfold np_zeros.
    destruct (Z.of_nat (length (to_f32 <$> hist_bins p)) - 1 <? 0) eqn:E.
    { rewrite length_fmap in E. apply Z.ltb_lt in E.
      destruct (hist_bins p); [done|]. cbn [length] in E. lia. }
    rewrite !bind_Ok_l. cbn [Z.ltb Z.compare Z.to_nat replicate]. rewrite !bind_Ok_l.
    change (0 - 1) with (-1). rewrite Hx. done.
Qed.
End Claims2.

(* ------------------------------------------------------------------ *)
(** * Runs on explicit inputs                                          *)
(* ------------------------------------------------------------------ *)

Module DemoRuns.
Import Demo.

(** Two agents, one month, half of the slots filled: with one chunk of
    two the employment draws are the table's entries 0 and 1, with two
    chunks of one they are its entries 0 and 3, and the employed counts
    differ. *)
Lemma chunk_size_changes_series :
  emp_ct <$> series_of (sim four 2 (set_chunk_size 2 P_month)) = Some [2] /\
  emp_ct <$> series_of (sim four 2 (set_chunk_size 1 P_month)) = Some [1] /\
  series_of (sim four 2 (set_chunk_size 1 P_month)) <>
  series_of (sim four 2 (set_chunk_size 2 P_month)).
Proof.
  split; [by vm_compute|]. split; [by vm_compute|].
  vm_compute. intros H. discriminate H.
Qed.

Lemma single_chunk_same_witness :
  2 <= 2 /\ 2 <= 7 /\ 0 < 2 /\ 0 < 7 /\
  sim four 2 (set_chunk_size 2 P_month) = sim four 2 (set_chunk_size 7 P_month).
Proof.
  split; [lia|]. split; [lia|]. split; [lia|]. split; [lia|].
  apply (single_chunk_same (NP := Table.numpy (tables four))); lia.
Defined.

(** C2: an agent that stays active and unemployed has 255 unemployment
    months after the 255th month and 0 after the 256th: the increment
    wraps around in [uint8] before [np.minimum] can bound it. *)
Theorem unemployment_months_wraps :
  inc_unemp 255 = 0 /\
  pop_of (run four 1 P_long 255) =
    Some {| capital := [F32.of_Z 4]; tiers := [1]; employed := [0];
            unemp_months := [255]; state := [STABLE]; sample_idx := [0] |} /\
  pop_of (run four 1 P_long 256) =
    Some {| capital := [F32.of_Z 4]; tiers := [1]; employed := [0];
            unemp_months := [0]; state := [STABLE]; sample_idx := [0] |}.
Proof. split; [done|]. split; by vm_compute. Qed.

(** C5: with [insolvent_thresh = 2] above [precarious_thresh = 1], an
    agent whose capital stays at 1.5 is INSOLVENT after initialization
    and STABLE after the first month, although its capital is at most
    the insolvent threshold. *)
Theorem kernel_stable_overrides_insolvent :
  pop_of (run three_halves 1 P_inverted 0) =
    Some {| capital := [F32.of_dyadic 3 (-1)]; tiers := [1]; employed := [0];
            unemp_months := [0]; state := [INSOLVENT]; sample_idx := [0] |} /\
  pop_of (run three_halves 1 P_inverted 1) =
    Some {| capital := [F32.of_dyadic 3 (-1)]; tiers := [1]; employed := [1];
            unemp_months := [0]; state := [STABLE]; sample_idx := [0] |} /\
  fle (F32.of_dyadic 3 (-1)) (to_f32 (insolvent_thresh P_inverted)) = true /\
  classify P_inverted (F32.of_dyadic 3 (-1)) INSOLVENT = STABLE.
Proof. repeat split; by vm_compute. Qed.

(** A run of zero months with a sample size above [N] returns normally. *)
Lemma zero_months_accepted :
  months P_none <= 0 /\ 2 < sample_size P_none /\ is_Ok (sim four 2 P_none) = true.
Proof. split; [done|]. split; [done|]. by vm_compute. Qed.

Lemma no_parameter_validation_witness :
  (-1 < 0 /\ is_Ok (sim four (-1) P_none) = false /\
   sim four (-1) P_none = Err ValueError) /\
  (months (set_months (-1) P_month) < 0 /\
   sim four 2 (set_months (-1) P_month) = Err ValueError) /\
  ((forall g, Table.choice 3 (Z.to_nat 2) (tier_probs Cases.P_bad_probs) g = Err ValueError) /\
   sim four 2 Cases.P_bad_probs = Err ValueError) /\
  (2 <= chunk_size P_none /\ 0 < chunk_size P_none /\
   py_range 0 2 (chunk_size P_none) = Ok [0]).
Proof.
  pose proof (no_parameter_validation (NP := Table.numpy (tables four)) uninit (-1) P_none)
    as (H1 & _).
  pose proof (no_parameter_validation (NP := Table.numpy (tables four)) uninit 2
                (set_months (-1) P_month)) as (_ & H2 & _).
  pose proof (no_parameter_validation (NP := Table.numpy (tables four)) uninit 2
                Cases.P_bad_probs) as (_ & _ & _ & H4 & _).
  pose proof (no_parameter_validation (NP := Table.numpy (tables four)) uninit 2 P_none)
    as (_ & _ & _ & _ & _ & H6 & _).
  assert (-1 < 0) as Hneg by lia.
  assert (months (set_months (-1) P_month) < 0) as Hm by (vm_compute; reflexivity).
  assert (forall g, Table.choice 3 (Z.to_nat 2) (tier_probs Cases.P_bad_probs) g = Err ValueError)
    as Hch by (intros g; vm_compute; reflexivity).
  split; [|split; [|split]].
  - destruct (H1 Hneg) as (_ & Hf & He). split; [exact Hneg|]. split; [exact Hf|].
    exact (proj2 (He (0, 0%nat) eq_refl)).
  - split; [exact Hm|]. destruct (H2 Hm) as (_ & _ & He).
    destruct (@initialize_population (Table.numpy (tables four)) 2 (set_months (-1) P_month))
      as [pop0|e] eqn:Hi; [|vm_compute in Hi; discriminate Hi].
    exact (proj2 (He pop0 (1, 0%nat) eq_refl eq_refl)).
  - split; [exact Hch|].
    refine (proj2 (H4 ValueError Hch (0, 0%nat) _ _ ltac:(lia) eq_refl _)).
    vm_compute. reflexivity.
  - split; [vm_compute; discriminate|]. split; [reflexivity|]. apply H6; [vm_compute; discriminate|reflexivity].
Defined.

Lemma runs_reproducible_witness :
  same_init_fields P_month P_exit /\
  @initialize_population (Table.numpy (tables four)) 2 P_month =
  @initialize_population (Table.numpy (tables four)) 2 P_exit /\
  sim four 2 P_month =
  @simulate (Table.numpy (tables four)) (fun _ _ _ => F32.of_Z 0) 2 P_month.
Proof.
  pose proof (runs_reproducible (NP := Table.numpy (tables four))
                uninit (fun _ _ _ => F32.of_Z 0) 2 P_month) as (H1 & H2 & _).
  assert (same_init_fields P_month P_exit) as Hs by (by repeat split).
  split; [done|]. split; [by apply H2 | exact H1].
Defined.

Lemma exited_absorbing_witness :
  exists pop pop',
    pop_of (run minus_one 2 P_exit 1) = Some pop /\
    pop_of (run minus_one 2 P_exit 2) = Some pop' /\
    state pop !! 0%nat = Some EXITED /\
    capital pop' !! 0%nat = capital pop !! 0%nat /\
    tiers pop' !! 0%nat = tiers pop !! 0%nat /\
    employed pop' !! 0%nat = employed pop !! 0%nat /\
    unemp_months pop' !! 0%nat = unemp_months pop !! 0%nat /\
    state pop' !! 0%nat = Some EXITED.
Proof.
  unfold run.
  destruct (run_months uninit 2 P_exit 1) as [[[pop g] ser]|e] eqn:H1;
    [|by vm_compute in H1].
  destruct (run_months uninit 2 P_exit 2) as [[[pop' g'] ser']|e] eqn:H2;
    [|by vm_compute in H2].
  exists pop, pop'. split; [done|]. split; [done|].
  assert (state pop !! 0%nat = Some EXITED) as Hs.
  { pose proof H1 as H. vm_compute in H. by injection H as <- _ _. }
  split; [done|].
  exact (proj1 (exited_absorbing (NP := Table.numpy (tables minus_one)) uninit 2 P_exit)
           1%nat pop g ser pop' g' ser' 0%nat H1 H2 Hs).
Defined.

Lemma counts_partition_witness :
  exists out a x e u,
    sim four 2 P_month = Ok out /\ (0 < Z.to_nat (months P_month))%nat /\
    active_ct (series out) !! 0%nat = Some a /\ exited_ct (series out) !! 0%nat = Some x /\
    emp_ct (series out) !! 0%nat = Some e /\ unemp_ct (series out) !! 0%nat = Some u /\
    a + x = 2 /\ e + u = a.
Proof.
  unfold sim.
  destruct (simulate uninit 2 P_month) as [out|e] eqn:H; [|by vm_compute in H].
  assert (0 < Z.to_nat (months P_month))%nat as Hm by (vm_compute; lia).
  destruct (counts_partition (NP := Table.numpy (tables four)) uninit 2 P_month out 0%nat H Hm)
    as (a & x & e & u & Hc).
  exists out, a, x, e, u. split; [done|]. split; [done|]. exact Hc.
Defined.

Lemma exited_implies_unemployed_witness :
  exists pop,
    pop_of (run minus_one 2 P_exit 1) = Some pop /\
    state pop !! 0%nat = Some EXITED /\ employed pop !! 0%nat = Some 0.
Proof.
  unfold run.
  destruct (run_months uninit 2 P_exit 1) as [[[pop g] ser]|e] eqn:H1;
    [|by vm_compute in H1].
  exists pop. split; [done|].
  assert (state pop !! 0%nat = Some EXITED) as Hs.
  { pose proof H1 as H. vm_compute in H. by injection H as <- _ _. }
  split; [done|].
  exact (proj1 (exited_implies_unemployed (NP := Table.numpy (tables minus_one))
                  uninit 2 P_exit 1%nat pop g ser H1) 0%nat Hs).
Defined.

Lemma final_slot_ratio_unclamped_witness :
  exists out,
    sim four 2 P_over = Ok out /\
    fgt (final_effective_job_slot_ratio out) (F64.of_Z 1) = true /\
    slot_product (NP := Table.numpy (tables four)) P_over (months P_over - 1) =
      Ok (final_effective_job_slot_ratio out) /\
    np_clip (final_effective_job_slot_ratio out) (F64.of_Z 0) (F64.of_Z 1) <>
      final_effective_job_slot_ratio out.
Proof.
  unfold sim.
  destruct (simulate uninit 2 P_over) as [out|e] eqn:H; [|by vm_compute in H].
  exists out. split; [done|].
  assert (fgt (final_effective_job_slot_ratio out) (F64.of_Z 1) = true) as Hgt.
  { pose proof H as H'. vm_compute in H'. by injection H' as <-. }
  split; [done|].
  destruct (final_slot_ratio_unclamped (NP := Table.numpy (tables four)) uninit 2 P_over out H)
    as (Hf & _ & Hne).
  split; [exact Hf|]. apply Hne. by left.
Defined.
End DemoRuns.



(* ------------------------------------------------------------------ *)
(** * Shapes: the arrays, the sample and the series                    *)
(* ------------------------------------------------------------------ *)

Lemma gather_in_range {A} (xs : list A) (idx : list Z) :
  Forall (fun i => 0 <= i < Z.of_nat (length xs)) idx ->
  exists l, gather xs idx = Ok l /\ length l = length idx.
Proof.
  induction 1 as [|i idx Hi _ IH]; [by exists []|].
  destruct IH as (l & Hl & Hlen). cbn [gather].
  destruct (i <? 0) eqn:E; [lia|].
  destruct (lookup_lt_is_Some_2 xs (Z.to_nat i)) as [x Hx]; [lia|].
  unfold tuple_get. rewrite Hx, Hl. cbn. exists (x :: l). by rewrite <- Hlen.
Qed.

Lemma length_np_diff l : length (np_diff l) = (length l - 1)%nat.
Proof.
  unfold np_diff. rewrite length_zip_with. destruct l as [|x l]; [done|].
  cbn [tail length]. lia.
Qed.

Lemma length_np_histogram a edges h :
  np_histogram a edges = Ok h -> length h = (length edges - 1)%nat.
Proof.
  unfold np_histogram. destruct (mask_any _); [discriminate|]. intros [= <-].
  rewrite length_np_diff. unfold search_sorted_inclusive.
  destruct edges as [|e edges]; [done|].
  rewrite length_app, length_fmap. cbn [length].
  assert (length (removelast (e :: edges)) = length edges) as ->; [|lia].
  revert e. induction edges as [|e' edges IH]; intros e; [done|].
  change (removelast (e :: e' :: edges)) with (e :: removelast (e' :: edges)).
  cbn [length]. by rewrite IH.
Qed.

Lemma inc_unemp_range u : 0 <= inc_unemp u <= 255.
Proof.
  unfold inc_unemp, uint8.
  pose proof (Z.mod_pos_bound (Z.min ((u + 1) mod 256) 255) 256 ltac:(lia)). lia.
Qed.

Lemma agent_step_state_matches p a a' :
  flt (to_f32 (insolvent_thresh p)) (to_f32 (precarious_thresh p)) = true ->
  state_matches p a -> agent_step p a a' -> state_matches p a'.
Proof.
  intros Hth Ha (_ & Hfro & h & s & x & H) Hnan. unfold agent_month in H.
  destruct (state_eqb (a_state a) EXITED) eqn:Es.
  - apply state_eqb_eq in Es. injection H as _ _ Hs. rewrite (Hfro Es) in *.
    destruct (Ha Hnan) as [[_ Hle]|Hi]; [by left|].
    rewrite Es in Hi. unfold initial_state in Hi. by repeat case_match.
  - cbn zeta in H. rewrite (classify_ordered _ _ _ Hth Hnan) in H.
    fold (initial_state p (a_cap a')) in H.
    destruct (state_eqb (initial_state p (a_cap a')) INSOLVENT && x) eqn:E.
    + injection H as _ _ Hs. left. split; [done|].
      apply andb_true_iff in E as [E _]. apply state_eqb_eq in E.
      unfold initial_state in E. by repeat case_match.
    + injection H as _ _ Hs. by right.
Qed.

Lemma agent_step_duration_ok p a a' : duration_ok a -> agent_step p a a' -> duration_ok a'.
Proof.
  intros [Hu He] (_ & _ & h & s & x & H). unfold duration_ok, agent_month in *.
  destruct (state_eqb (a_state a) EXITED).
  { injection H as -> -> _. split; [done|lia]. }
  cbn zeta in H.
  destruct (state_eqb _ INSOLVENT && x).
  { injection H as -> -> _. split; [apply inc_unemp_range|lia]. }
  injection H as -> -> _. unfold agent_um1, agent_emp1.
  pose proof (inc_unemp_range (a_um a)).
  destruct s, h; cbn; split; try done; try lia.
Qed.

Lemma rtc_agent_inv (I : Agent -> Prop) p a a' :
  (forall b b', I b -> agent_step p b b' -> I b') ->
  I a -> rtc (agent_step p) a a' -> I a'.
Proof.
  intros Hstep Ha H. induction H as [|a b c Hab _ IH]; [done|].
  apply IH. by eapply Hstep.
Qed.

Section Shape.
Context `{NP : Numpy}.
Variable uninit : nat -> nat -> nat -> f32.

(** What the initializer returns, agent by agent. *)
Lemma initialize_population_agent N p pop j a :
  initialize_population N p = Ok pop -> agent_at pop j = Some a ->
  a_emp a = 0 /\ a_um a = 0 /\ 0 <= a_tier a < 3 /\
  fgt (a_cap a) (to_f32 (capital_cap_max p)) = false /\
  a_state a = initial_state p (a_cap a).
Proof.
  intros Hi Ha. pose proof (initialize_population_wf _ _ _ Hi) as (_ & Hwf & Hz & _).
  destruct (Hz j a Ha) as (He & Hu & _). split; [done|]. split; [done|].
  pose proof (agent_at_fields _ _ _ Ha) as (Hc & Ht & _ & _ & Hs).
  split.
  { destruct Hwf as (_ & _ & _ & _ & _ & Hr). by apply (Forall_lookup_1 _ _ _ _ Hr Ht). }
  unfold initialize_population in Hi.
  apply bind_Ok in Hi as (g0 & _ & Hi). apply bind_Ok in Hi as (n & _ & Hi).
  apply bind_Ok in Hi as ([cap64 g1] & _ & Hi). apply bind_Ok in Hi as ([tr0 g2] & _ & Hi).
  apply bind_Ok in Hi as ([sidx g3] & _ & Hi). injection Hi as <-. cbn in Hc, Hs.
  split.
  - rewrite <- list_fmap_compose, list_lookup_fmap in Hc.
    destruct (cap64 !! j) as [x|]; [|done]. cbn in Hc. injection Hc as <-.
    change (fgt ?u ?v) with (flt v u). unfold np_minimum.
    generalize (to_f32 (capital_cap_max p)) as c. generalize (to_f32 x) as y.
    intros y c. destruct (is_nan y) eqn:En.
    { destruct y; try done. apply flt_nan_r. }
    destruct (flt y c) eqn:El.
    + by apply flt_asym.
    + apply flt_irrefl.
  - rewrite !lookup_where_ in Hs.
    destruct (replicate n STABLE !! j) as [s0|] eqn:E; [|done].
    apply lookup_replicate in E as [-> _]. cbn in Hs. injection Hs as <-.
    rewrite !mask_at_fmap, Hc. unfold initial_state. cbn. by repeat case_match.
Qed.

(** X1: every agent of a freshly initialized population is unemployed
    with a zero unemployment duration, has a tier among 0, 1, 2 and a
    capital that is not above [capital_cap_max], and is INSOLVENT when its
    capital is at most [insolvent_thresh], else PRECARIOUS when it is
    below [precarious_thresh], else STABLE. *)
Theorem initial_population N p pop0 j a :
  initialize_population N p = Ok pop0 -> agent_at pop0 j = Some a ->
  a_emp a = 0 /\ a_um a = 0 /\ 0 <= a_tier a < 3 /\
  fgt (a_cap a) (to_f32 (capital_cap_max p)) = false /\
  a_state a =
    (if fle (a_cap a) (to_f32 (insolvent_thresh p)) then INSOLVENT
     else if flt (a_cap a) (to_f32 (precarious_thresh p)) then PRECARIOUS
     else STABLE).
Proof. apply initialize_population_agent. Qed.

(** The run after [k] months still works on the tiers and the sample of
    the initializer. *)
Lemma run_months_from_init N p k pop0 g ser :
  run_months uninit N p k = Ok (pop0, g, ser) ->
  exists pop1, initialize_population N p = Ok pop1 /\
    tiers pop0 = tiers pop1 /\ sample_idx pop0 = sample_idx pop1.
Proof.
  revert pop0 g ser. induction k as [|k IH]; intros pop0 g ser H.
  - unfold run_months in H. apply bind_Ok in H as ([[pop1 g0] ser0] & Hs & H).
    cbn in H. injection H as <- <- <-. apply sim_start_inv in Hs as (Hi & _). eauto.
  - rewrite run_months_S in H.
    apply bind_Ok in H as ([[pop1 g1] ser1] & Hk & H).
    destruct (IH _ _ _ Hk) as (pop2 & Hi & Ht & Hs).
    pose proof (run_months_inv uninit _ _ _ _ Hk) as (HN & _ & Hwf & _). cbn in Hwf.
    apply month_step_evolves in H as ((_ & Ht' & Hs' & _) & _); try done.
    exists pop2. split; [done|]. split; congruence.
Qed.

(** X2: after any number of months the five per-agent arrays still
    have [N] entries, and the tiers and the sample indices are those the
    initializer drew; every tier is 0, 1 or 2. *)
Theorem arrays_keep_shape N p k pop0 g ser :
  run_months uninit N p k = Ok (pop0, g, ser) ->
  exists pop1, initialize_population N p = Ok pop1 /\
    tiers pop0 = tiers pop1 /\ sample_idx pop0 = sample_idx pop1 /\
    Forall (fun t => 0 <= t < 3) (tiers pop0) /\
    length (capital pop0) = Z.to_nat N /\ length (tiers pop0) = Z.to_nat N /\
    length (employed pop0) = Z.to_nat N /\ length (unemp_months pop0) = Z.to_nat N /\
    length (state pop0) = Z.to_nat N.
Proof.
  intros H. destruct (run_months_from_init _ _ _ _ _ _ H) as (pop1 & Hi & Ht & Hs).
  pose proof (run_months_inv uninit _ _ _ _ H) as (_ & _ & Hwf & _). cbn in Hwf.
  destruct Hwf as (Lc & Lt & Le & Lu & Ls & Hr).
  exists pop1. repeat split; done.
Qed.

(** X3: the sample lookup [capital[sample_idx]] of the aggregator never
    fails: after any number of months it returns
    [min(sample_size, N)] capitals. *)
Theorem sample_lookup_succeeds N p k pop0 g ser :
  run_months uninit N p k = Ok (pop0, g, ser) ->
  exists samp,
    gather (capital pop0) (sample_idx pop0) = Ok samp /\
    length samp = Z.to_nat (Z.min (sample_size p) N) /\
    (length samp <= Z.to_nat N)%nat.
Proof.
  intros H. destruct (run_months_from_init _ _ _ _ _ _ H) as (pop1 & Hi & _ & Hs).
  pose proof (run_months_inv uninit _ _ _ _ H) as (HN & _ & Hwf & _). cbn in Hwf.
  destruct Hwf as (Lc & _).
  apply initialize_population_wf in Hi as (_ & _ & _ & Hlen & Hrange).
  destruct (gather_in_range (capital pop0) (sample_idx pop0)) as (samp & Hg & Hl).
  { rewrite Hs, Lc. eapply Forall_impl; [exact Hrange|]. cbn. lia. }
  exists samp. split; [done|]. rewrite Hl, Hs, Hlen. split; lia.
Qed.

(** Every row of the histogram series has one entry per bin. *)
Lemma run_months_hist_rows N p k pop0 g ser :
  run_months uninit N p k = Ok (pop0, g, ser) ->
  Forall (fun row => length row = (length (hist_bins p) - 1)%nat) (hist ser).
Proof.
  revert pop0 g ser. induction k as [|k IH]; intros pop0 g ser H.
  - unfold run_months in H. apply bind_Ok in H as ([[pop1 g0] ser0] & Hs & H).
    cbn in H. injection H as <- <- <-. unfold sim_start in Hs.
    apply bind_Ok in Hs as (pop2 & _ & Hs). apply bind_Ok in Hs as (g1 & _ & Hs).
    apply bind_Ok in Hs as (row & Hrow & Hs). apply bind_Ok in Hs as (h & Hh & Hs).
    apply bind_Ok in Hs as (zi & _ & Hs). apply bind_Ok in Hs as (zf & _ & Hs).
    injection Hs as <- <- <-. cbn.
    unfold np_zeros in Hrow, Hh.
    destruct (_ <? 0) eqn:E1 in Hrow; [discriminate|]. injection Hrow as <-.
    destruct (months p <? 0); [discriminate|]. injection Hh as <-.
    apply Forall_replicate. rewrite length_replicate, length_fmap. lia.
  - rewrite run_months_S in H. apply bind_Ok in H as ([[pop1 g1] ser1] & Hk & H).
    pose proof (IH _ _ _ Hk) as Hrows.
    pose proof (run_months_inv uninit _ _ _ _ Hk) as (HN & _ & Hwf & _ & Hb & _). cbn in *.
    apply month_step_evolves in H as (_ & st & Hst & ->); try done.
    cbn. apply Forall_insert; [done|].
    apply aggregates_hist in Hst as (samp & _ & Hh).
    apply length_np_histogram in Hh. by rewrite Hh, Hb, length_fmap.
Qed.

(** X4: a run that returns has a non-negative number of months and at
    least one bin edge; each of its nine series has one entry per month,
    the reported edges are the parameters' edges as [float32], and every
    histogram row has one count per bin. *)
Theorem output_shape N p out :
  simulate uninit N p = Ok out ->
  0 <= months p /\ hist_bins p <> [] /\
  length (active_ct (series out)) = Z.to_nat (months p) /\
  length (exited_ct (series out)) = Z.to_nat (months p) /\
  length (emp_ct (series out)) = Z.to_nat (months p) /\
  length (unemp_ct (series out)) = Z.to_nat (months p) /\
  length (mean (series out)) = Z.to_nat (months p) /\
  length (p10 (series out)) = Z.to_nat (months p) /\
  length (p50 (series out)) = Z.to_nat (months p) /\
  length (p90 (series out)) = Z.to_nat (months p) /\
  length (hist (series out)) = Z.to_nat (months p) /\
  bins (series out) = to_f32 <$> hist_bins p /\
  Forall (fun row => length row = (length (hist_bins p) - 1)%nat) (hist (series out)).
Proof.
  intros H. apply simulate_run in H as (pop0 & g & ser & Hr & -> & _ & _).
  pose proof (run_months_inv uninit _ _ _ _ Hr) as (_ & Hm & _ & _ & Hb & Hw). cbn in Hb, Hw.
  destruct Hw as (?&?&?&?&?&?&?&?&?).
  split; [done|]. split.
  { intros Hnil. unfold run_months in Hr. apply bind_Ok in Hr as (st & Hs & _).
    unfold sim_start in Hs.
    apply bind_Ok in Hs as (pop1 & _ & Hs). apply bind_Ok in Hs as (g1 & _ & Hs).
    apply bind_Ok in Hs as (row & Hrow & _). rewrite Hnil in Hrow. discriminate. }
  repeat split; try done. by eapply run_months_hist_rows.
Qed.
End Shape.

(* ------------------------------------------------------------------ *)
(** * One kernel application per agent and month                       *)
(* ------------------------------------------------------------------ *)

Section OneStep.
Context `{NP : Numpy}.
Variable uninit : nat -> nat -> nat -> f32.

(** One chunk: the agents of the slice go through the kernel, the others
    are left as they are. *)
Lemma chunk_step_agents_split N p m sr pop0 g start pop' g' :
  pop_wf (Z.to_nat N) pop0 -> 0 <= start < N -> 0 < chunk_size p ->
  chunk_step uninit N p m sr (pop0, g) start = Ok (pop', g') ->
  forall j a, agent_at pop0 j = Some a ->
    exists a', agent_at pop' j = Some a' /\
      ((start <= Z.of_nat j < start + chunk_size p -> agent_step p a a') /\
       (~ start <= Z.of_nat j < start + chunk_size p -> a' = a)).
Proof.
  intros (Lc & Lt & Le & Lu & Ls & Ht) Hstart Hchunk H.
  unfold chunk_step in H.
  set (e := Z.to_nat (Z.min (start + chunk_size p) N)) in *.
  set (s := Z.to_nat start) in *.
  assert (s < e <= Z.to_nat N)%nat as Hse by lia.
  apply bind_Ok in H as ([c' g2] & Hk & H). injection H as <- <-.
  destruct (advance_chunk_length _ _ _ _ _ _ _ _ Hk) as (L1 & L2 & L3 & L4).
  destruct (advance_chunk_agent _ _ _ _ _ _ _ _ Hk) as (Htr & hired & sep & ex & Hag).
  cbn [cap tr emp um stt] in *.
  rewrite length_slice in L1 by lia. rewrite length_slice in L2 by lia.
  rewrite length_slice in L3 by lia. rewrite length_slice in L4 by lia.
  intros j a Ha. unfold agent_at in *. cbn [capital tiers employed unemp_months state].
  destruct (capital pop0 !! j) as [x|] eqn:Hx; [|done].
  destruct (tiers pop0 !! j) as [t|] eqn:Htj; [|done].
  destruct (employed pop0 !! j) as [ej|] eqn:Hej; [|done].
  destruct (unemp_months pop0 !! j) as [u|] eqn:Hu; [|done].
  destruct (state pop0 !! j) as [st|] eqn:Hst; [|done].
  cbn in Ha. injection Ha as <-.
  assert (j < Z.to_nat N)%nat as HjN by (apply lookup_lt_Some in Hx; lia).
  destruct (decide (s <= j < e)%nat) as [Hin|Hout].
  - destruct (Hag (j - s)%nat st ej u x) as (x' & Hx' & Hfro & He' & Hu' & Hs').
    { rewrite lookup_slice by lia. rewrite <- Hst. f_equal. lia. }
    { rewrite lookup_slice by lia. rewrite <- Hej. f_equal. lia. }
    { rewrite lookup_slice by lia. rewrite <- Hu. f_equal. lia. }
    { rewrite lookup_slice by lia. rewrite <- Hx. f_equal. lia. }
    rewrite !lookup_set_slice_in by lia.
    rewrite Hx', He', Hu', Hs'. cbn. eexists. split; [done|].
    split; [|intros Hn; exfalso; apply Hn; lia]. intros _.
    unfold agent_step. cbn. split; [done|]. split; [done|].
    exists (mask_at hired (j - s)), (mask_at sep (j - s)), (mask_at ex (j - s)).
    by destruct (agent_month _ _ _ _ _ _ _) as [[? ?] ?].
  - rewrite !lookup_set_slice_out by lia. rewrite Hx, Hej, Hu, Hst. cbn.
    eexists. split; [done|]. split; [intros Hn; exfalso; lia|done].
Qed.

(** The chunk loop after its first [i] chunks: the agents below
    [i * chunk_size] have made one step, the others none. *)
Lemma chunk_prefix_steps N p m sr pop0 g i pop' g' :
  0 <= N -> 0 < chunk_size p -> pop_wf (Z.to_nat N) pop0 ->
  Z.of_nat i <= (N + chunk_size p - 1) / chunk_size p ->
  foldlM (chunk_step uninit N p m sr) (pop0, g)
    ((fun k => 0 + Z.of_nat k * chunk_size p) <$> seq 0 i) = Ok (pop', g') ->
  pop_wf (Z.to_nat N) pop' /\
  forall j a, agent_at pop0 j = Some a ->
    exists a', agent_at pop' j = Some a' /\
      ((Z.of_nat j < Z.of_nat i * chunk_size p -> agent_step p a a') /\
       (Z.of_nat i * chunk_size p <= Z.of_nat j -> a' = a)).
Proof.
  intros HN Hc Hwf. revert pop' g'. induction i as [|i IH]; intros pop' g' Hi H.
  - cbn in H. injection H as <- <-. split; [done|]. intros j a Ha. exists a.
    split; [done|]. split; [lia|done].
  - rewrite seq_S, fmap_app, foldlM_app in H.
    apply bind_Ok in H as ([pop1 g1] & H1 & H). cbn [fmap list_fmap foldlM] in H.
    apply bind_Ok in H as ([pop2 g2] & H2 & H). injection H as <- <-.
    destruct (IH pop1 g1 ltac:(lia) H1) as (W1 & A1). cbn [Nat.add] in H2.
    set (c := chunk_size p) in *.
    assert (0 <= 0 + Z.of_nat i * c < N) as Hst.
    { pose proof (Z.mul_div_le (N + c - 1) c Hc).
      pose proof (Z.mod_pos_bound (N + c - 1) c Hc).
      pose proof (Z.div_mod (N + c - 1) c ltac:(lia)). nia. }
    destruct (chunk_step_agents uninit _ _ _ _ _ _ _ _ _ W1 Hst Hc H2) as (W2 & _).
    split; [done|]. intros j a Ha.
    destruct (A1 j a Ha) as (a1 & Ha1 & Hlt & Hge).
    destruct (chunk_step_agents_split _ _ _ _ _ _ _ _ _ W1 Hst Hc H2 j a1 Ha1)
      as (a2 & Ha2 & Hin & Hout).
    exists a2. split; [done|]. split.
    + intros Hj. destruct (decide (Z.of_nat j < Z.of_nat i * c)) as [Hb|Hb].
      * rewrite Hout by lia. by apply Hlt.
      * rewrite <- (Hge ltac:(lia)). apply Hin. lia.
    + intros Hj. rewrite Hout by lia. apply Hge. lia.
Qed.

(** A month with a positive chunk size takes every agent through the
    kernel exactly once. *)
Lemma month_step_one_step N p pop0 g ser m pop' g' ser' :
  0 <= N -> 0 < chunk_size p -> pop_wf (Z.to_nat N) pop0 ->
  month_step uninit N p (pop0, g, ser) m = Ok (pop', g', ser') ->
  forall j a, agent_at pop0 j = Some a ->
    exists a', agent_at pop' j = Some a' /\ agent_step p a a'.
Proof.
  intros HN Hc Hwf H. unfold month_step in H.
  apply bind_Ok in H as (sr & _ & H).
  apply bind_Ok in H as (starts & Hr & H).
  apply bind_Ok in H as ([pop1 g1] & Hloop & H).
  apply bind_Ok in H as (st & Hst & H). injection H as <- <- <-.
  unfold py_range in Hr. destruct (chunk_size p =? 0) eqn:E0; [lia|].
  destruct (0 <? chunk_size p) eqn:E1; [|lia]. injection Hr as <-.
  replace (N - 0 + chunk_size p - 1) with (N + chunk_size p - 1) in Hloop by lia.
  set (c := chunk_size p) in *.
  assert (0 <= (N + c - 1) / c) as Hn by (apply Z.div_pos; lia).
  assert (Z.of_nat (Z.to_nat ((N + c - 1) / c)) <= (N + c - 1) / c) as Hle
    by (rewrite Z2Nat.id; [reflexivity|done]).
  destruct (chunk_prefix_steps N p m sr pop0 g _ pop1 g1 HN Hc Hwf Hle Hloop) as (_ & A).
  intros j a Ha. destruct (A j a Ha) as (a' & Ha' & Hlt & _).
  exists a'. split; [done|]. apply Hlt.
  assert (j < Z.to_nat N)%nat as HjN.
  { apply agent_at_fields in Ha as (Hx & _). apply lookup_lt_Some in Hx.
    destruct Hwf as (Lc & _). lia. }
  rewrite Z2Nat.id by done.
  pose proof (Z.mod_pos_bound (N + c - 1) c Hc).
  pose proof (Z.div_mod (N + c - 1) c ltac:(lia)). nia.
Qed.

(** X5: with a positive chunk size, however the chunks cut the
    population, a month takes each agent through the kernel exactly once:
    its tier is kept, its capital is kept if it had exited, and its new
    employment flag, unemployment duration and state are those of
    [agent_month] for some outcome of its employment, separation and exit
    draws and its new capital. *)
Theorem month_one_step N p k pop0 g ser pop' g' ser' j a :
  0 < chunk_size p ->
  run_months uninit N p k = Ok (pop0, g, ser) ->
  run_months uninit N p (S k) = Ok (pop', g', ser') ->
  agent_at pop0 j = Some a ->
  exists a' (hired sep exit_hit : bool),
    agent_at pop' j = Some a' /\
    a_tier a' = a_tier a /\
    (a_state a = EXITED -> a_cap a' = a_cap a) /\
    (a_emp a', a_um a', a_state a') =
      agent_month p (a_state a) (a_um a) hired sep exit_hit (a_cap a').
Proof.
  intros Hc Hk HS Ha. rewrite run_months_S, Hk in HS. rewrite bind_Ok_l in HS.
  pose proof (run_months_inv uninit _ _ _ _ Hk) as (HN & _ & Hwf & _). cbn in Hwf.
  destruct (month_step_one_step _ _ _ _ _ _ _ _ _ HN Hc Hwf HS j a Ha)
    as (a' & Ha' & Ht & Hf & h & s & x & Hm).
  by exists a', h, s, x.
Qed.
End OneStep.

(* ------------------------------------------------------------------ *)
(** * Invariants of the agents over a run                              *)
(* ------------------------------------------------------------------ *)

Section Invariants.
Context `{NP : Numpy}.
Variable uninit : nat -> nat -> nat -> f32.

(** An invariant of single kernel applications that holds of the
    initial agents holds after any number of months. *)
Lemma run_months_agent_inv (I : Agent -> Prop) N p k pop0 g ser :
  (forall b b', I b -> agent_step p b b' -> I b') ->
  (forall pop1 j a, initialize_population N p = Ok pop1 -> agent_at pop1 j = Some a -> I a) ->
  run_months uninit N p k = Ok (pop0, g, ser) ->
  forall j a, agent_at pop0 j = Some a -> I a.
Proof.
  intros Hstep Hinit. revert pop0 g ser. induction k as [|k IH]; intros pop0 g ser H j a Ha.
  - unfold run_months in H. apply bind_Ok in H as ([[pop1 g0] ser0] & Hs & H).
    cbn in H. injection H as <- <- <-. apply sim_start_inv in Hs as (Hi & _).
    by eapply Hinit.
  - rewrite run_months_S in H. apply bind_Ok in H as ([[pop1 g1] ser1] & Hk & H).
    pose proof (run_months_inv uninit _ _ _ _ Hk) as (HN & _ & Hwf & _). cbn in Hwf.
    apply month_step_evolves in H as ((W & _ & _ & A) & _); try done.
    destruct (agent_at_Some _ _ j Hwf) as [a0 Ha0].
    { apply agent_at_fields in Ha as (Hc & _). apply lookup_lt_Some in Hc.
      destruct W as (Lc & _). lia. }
    destruct (A j a0 Ha0) as (a' & Ha' & R). rewrite Ha in Ha'. injection Ha' as <-.
    eapply rtc_agent_inv; [exact Hstep| |exact R]. by eapply IH.
Qed.

Lemma run_months_state_matches N p k pop0 g ser j a :
  flt (to_f32 (insolvent_thresh p)) (to_f32 (precarious_thresh p)) = true ->
  run_months uninit N p k = Ok (pop0, g, ser) -> agent_at pop0 j = Some a ->
  state_matches p a.
Proof.
  intros Hth H Ha.
  refine (run_months_agent_inv (state_matches p) N p k pop0 g ser _ _ H j a Ha).
  - intros b b'. by apply agent_step_state_matches.
  - intros pop1 j0 a0 Hi Ha0 _. right.
    by destruct (initialize_population_agent _ _ _ _ _ Hi Ha0) as (_ & _ & _ & _ & ?).
Qed.

(** X6: when [insolvent_thresh] is below [precarious_thresh], the
    state array agrees with the capital array after every month: an agent
    whose capital is a number is either EXITED with a capital at most
    [insolvent_thresh], or in the state its capital gives (INSOLVENT at
    most [insolvent_thresh], PRECARIOUS below [precarious_thresh], STABLE
    otherwise). *)
Theorem state_tracks_capital N p k pop0 g ser j a :
  flt (to_f32 (insolvent_thresh p)) (to_f32 (precarious_thresh p)) = true ->
  run_months uninit N p k = Ok (pop0, g, ser) -> agent_at pop0 j = Some a ->
  is_nan (a_cap a) = false ->
  (a_state a = EXITED /\ fle (a_cap a) (to_f32 (insolvent_thresh p)) = true) \/
  a_state a =
    (if fle (a_cap a) (to_f32 (insolvent_thresh p)) then INSOLVENT
     else if flt (a_cap a) (to_f32 (precarious_thresh p)) then PRECARIOUS
     else STABLE).
Proof. intros Hth H Ha. exact (run_months_state_matches _ _ _ _ _ _ _ _ Hth H Ha). Qed.

(** X7: after any number of months every unemployment duration is
    within 0..255 and every agent whose employment flag is 1 has a
    duration of 0. *)
Theorem employed_have_no_duration N p k pop0 g ser j a :
  run_months uninit N p k = Ok (pop0, g, ser) -> agent_at pop0 j = Some a ->
  0 <= a_um a <= 255 /\ (a_emp a = 1 -> a_um a = 0).
Proof.
  intros H Ha.
  refine (run_months_agent_inv duration_ok N p k pop0 g ser _ _ H j a Ha).
  - intros b b'. apply agent_step_duration_ok.
  - intros pop1 j0 a0 Hi Ha0.
    destruct (initialize_population_agent _ _ _ _ _ Hi Ha0) as (He & Hu & _).
    split; lia.
Qed.
End Invariants.

(* ------------------------------------------------------------------ *)
(** * Degenerate chunk sizes, the slot ratio, the employment flags     *)
(* ------------------------------------------------------------------ *)

Lemma py_range_negative_step N c : 0 <= N -> c < 0 -> py_range 0 N c = Ok [].
Proof.
  intros HN Hc. unfold py_range.
  destruct (c =? 0) eqn:E0; [lia|]. destruct (0 <? c) eqn:E1; [lia|].
  assert ((0 - N - c - 1) / - c <= 0) as Hle.
  { destruct (Z_lt_le_dec (0 - N - c - 1) 0).
    - pose proof (Z.div_lt_upper_bound (0 - N - c - 1) (- c) 1). lia.
    - rewrite Z.div_small; lia. }
  by replace (Z.to_nat ((0 - N - c - 1) / - c)) with 0%nat by lia.
Qed.

Lemma mask_sum_all_false {A} (f : A -> bool) (l : list A) :
  Forall (fun x => f x = false) l -> mask_sum (f <$> l) = 0%nat.
Proof.
  induction 1 as [|x l Hx _ IH]; [done|]. rewrite fmap_cons, mask_sum_cons, Hx, IH. done.
Qed.

Lemma mask_sum_mand_false_r (a b : mask) :
  Forall (fun x => x = false) b -> mask_sum (mand a b) = 0%nat.
Proof.
  intros Hb. revert a. induction Hb as [|x b -> _ IH]; intros [|y a]; try done.
  unfold mand in *. cbn [zip_with]. rewrite mask_sum_cons, andb_false_r, IH. done.
Qed.

Lemma fmap_zero_replicate {A} (l : list A) : (fun _ => 0) <$> l = replicate (length l) 0.
Proof. induction l as [|x l IH]; [done|]. cbn. by rewrite <- IH. Qed.

(** A clamped value that is a number lies between the bounds. *)
Lemma np_clip_range x lo hi :
  fle lo hi = true -> is_nan (np_clip x lo hi) = false ->
  fle lo (np_clip x lo hi) = true /\ fle (np_clip x lo hi) hi = true.
Proof.
  intros Hb. destruct (fle_not_nan _ _ Hb) as [Hlo Hhi].
  unfold np_clip. rewrite Hlo, Hhi. cbv zeta. change (fgt ?a ?b) with (flt b a).
  assert (flt hi lo = false) as Hhl by (rewrite flt_negb_fle by done; by rewrite Hb).
  destruct (flt x lo) eqn:E0.
  - rewrite Hhl. intros _. split; [by apply fle_refl|done].
  - destruct (flt hi x) eqn:E1; intros Hn.
    + split; [done|by apply fle_refl].
    + rewrite flt_negb_fle in E0, E1 by done.
      split; [by destruct (fle lo x)|by destruct (fle x hi)].
Qed.

Section Edge.
Context `{NP : Numpy}.
Variable uninit : nat -> nat -> nat -> f32.

(** A month whose chunk loop has no chunk. *)
Lemma month_step_no_chunk N p pop0 g ser m :
  0 <= N -> chunk_size p < 0 ->
  month_step uninit N p (pop0, g, ser) m =
  (_ ← slot_ratio_month p (Z.of_nat m);
   st ← aggregates pop0 (bins ser);
   Ok (pop0, g, record_month m st ser)).
Proof.
  intros HN Hc. unfold month_step. rewrite (py_range_negative_step _ _ HN Hc).
  destruct (slot_ratio_month p (Z.of_nat m)); [|done]. by rewrite !bind_Ok_l.
Qed.

Lemma run_months_negative_chunk N p k pop0 g ser :
  chunk_size p < 0 ->
  run_months uninit N p k = Ok (pop0, g, ser) ->
  initialize_population N p = Ok pop0 /\ default_rng (seed p + 1) = Ok g.
Proof.
  intros Hc. revert pop0 g ser. induction k as [|k IH]; intros pop0 g ser H.
  - unfold run_months in H. apply bind_Ok in H as ([[pop1 g0] ser0] & Hs & H).
    cbn in H. injection H as <- <- <-. by apply sim_start_inv in Hs as (? & ? & _).
  - rewrite run_months_S in H. apply bind_Ok in H as ([[pop1 g1] ser1] & Hk & H).
    pose proof (run_months_inv uninit _ _ _ _ Hk) as (HN & _).
    rewrite month_step_no_chunk in H by done.
    apply bind_Ok in H as (sr & _ & H). apply bind_Ok in H as (st & _ & H).
    injection H as <- <- <-. by eapply IH.
Qed.

(** The counts of a population that has just been initialized. *)
Lemma aggregates_initial N p pop0 edges st :
  initialize_population N p = Ok pop0 -> aggregates pop0 edges = Ok st ->
  ms_active st = N /\ ms_exited st = 0 /\ ms_emp st = 0 /\ ms_unemp st = N.
Proof.
  intros Hi Hst.
  pose proof (initialize_population_wf _ _ _ Hi) as (HN & Hwf & Hag & _).
  assert (forall j a, agent_at pop0 j = Some a -> agent_ok a) as Hok.
  { intros j a Ha. destruct (Hag j a Ha) as (He & _ & Hs). split; [by left|done]. }
  destruct (aggregates_counts _ _ _ _ Hwf Hok Hst) as [H1 H2].
  assert (ms_exited st = 0 /\ ms_emp st = 0) as [Hx He]; [|lia].
  unfold aggregates in Hst.
  apply bind_Ok in Hst as (samp & _ & H). apply bind_Ok in H as (pct & _ & H).
  apply bind_Ok in H as ([[q1 q2] q3] & _ & H). apply bind_Ok in H as (h & _ & H).
  injection H as <-. cbn. unfold count_nonzero. split.
  - rewrite mask_sum_all_false; [done|]. apply Forall_lookup_2. intros j s Hs.
    destruct (agent_at_Some _ _ j Hwf) as [a Ha].
    { apply lookup_lt_Some in Hs. destruct Hwf as (_ & _ & _ & _ & Ls & _). lia. }
    destruct (Hag j a Ha) as (_ & _ & Hne).
    apply agent_at_fields in Ha as (_ & _ & _ & _ & Hs'). rewrite Hs in Hs'.
    injection Hs' as ->. destruct (state_eqb (a_state a) EXITED) eqn:E; [|done].
    by apply state_eqb_eq in E.
  - rewrite mask_sum_mand_false_r; [done|]. apply Forall_fmap, Forall_lookup_2.
    intros j e Hej. cbn.
    destruct (agent_at_Some _ _ j Hwf) as [a Ha].
    { apply lookup_lt_Some in Hej. destruct Hwf as (_ & _ & Le & _). lia. }
    destruct (Hag j a Ha) as (He0 & _).
    apply agent_at_fields in Ha as (_ & _ & He' & _). rewrite Hej in He'.
    injection He' as ->. by rewrite He0.
Qed.

(** X8: a negative chunk size is accepted, and since
    [range(0, N, chunk)] is then empty no agent ever goes through the
    kernel: the run returns the population exactly as the initializer
    made it, and every month reports [N] active, [N] unemployed, nobody
    employed and nobody exited. *)
Theorem negative_chunk_freezes N p out :
  chunk_size p < 0 -> simulate uninit N p = Ok out ->
  initialize_population N p = Ok (pop out) /\
  forall m, (m < Z.to_nat (months p))%nat ->
    active_ct (series out) !! m = Some N /\ exited_ct (series out) !! m = Some 0 /\
    emp_ct (series out) !! m = Some 0 /\ unemp_ct (series out) !! m = Some N.
Proof.
  intros Hc H. apply simulate_run in H as (pop0 & g & ser & Hr & -> & -> & _).
  destruct (run_months_negative_chunk _ _ _ _ _ _ Hc Hr) as [Hi _].
  split; [done|]. intros m Hm.
  destruct (run_months_entry uninit N p _ pop0 g ser m (le_n _) Hr Hm)
    as (pm & gm & sm & st & Hrm & Hagg & He).
  destruct (run_months_negative_chunk _ _ _ _ _ _ Hc Hrm) as [Him _].
  destruct (aggregates_initial _ _ _ _ _ Him Hagg) as (Ha & Hx & Hemp & Hu).
  destruct He as (E1 & E2 & E3 & E4 & _). by rewrite E1, E2, E3, E4, Ha, Hx, Hemp, Hu.
Qed.

(** X9: with a chunk size of zero and at least one month the run
    fails; when the initialization succeeds and the power of the first
    month's slot ratio is defined, the exception is the ValueError of
    [range(0, N, 0)] in the first month. *)
Theorem zero_chunk_raises N p :
  chunk_size p = 0 -> 0 < months p ->
  is_Ok (simulate uninit N p) = false /\
  forall st pw,
    sim_start N p = Ok st ->
    py_pow (F64.sub (F64.of_Z 1) (job_slot_decline p)) 0 = Ok pw ->
    simulate uninit N p = Err ValueError.
Proof.
  intros Hc Hm.
  assert (exists k, Z.to_nat (months p) = S k) as [k Hk]
    by (exists (Z.to_nat (months p) - 1)%nat; lia).
  assert (forall st, is_Ok (month_step uninit N p st 0) = false) as Hfirst.
  { intros [[pop0 g0] ser0]. unfold month_step.
    apply is_Ok_bind_inv. intros sr _. apply is_Ok_bind_false.
    unfold py_range. by rewrite Hc. }
  split.
  - unfold simulate, run_months. rewrite Hk. apply is_Ok_bind_false.
    apply is_Ok_bind_inv. intros st _. cbn [seq foldlM]. apply is_Ok_bind_false. apply Hfirst.
  - intros [[pop0 g0] ser0] pw Hs Hp. unfold simulate, run_months. rewrite Hs, Hk, bind_Ok_l.
    cbn [seq foldlM].
    assert (month_step uninit N p (pop0, g0, ser0) 0 = Err ValueError) as ->; [|done].
    unfold month_step, slot_ratio_month. change (Z.of_nat 0) with 0.
    rewrite Hp, !bind_Ok_l. unfold py_range. by rewrite Hc.
Qed.

(** X10: the effective slot ratio a month draws employment against is
    either NaN or a number between 0 and 1, whatever the parameters. *)
Theorem slot_ratio_clamped p m sr :
  slot_ratio_month p m = Ok sr -> is_nan sr = false ->
  fle (F64.of_Z 0) sr = true /\ fle sr (F64.of_Z 1) = true.
Proof.
  unfold slot_ratio_month. intros H. apply bind_Ok in H as (pw & _ & H).
  injection H as <-. cbn zeta. by apply np_clip_range.
Qed.

(** X11: employment has no memory: the kernel overwrites the
    employment flags before reading them, so its result (arrays, generator
    state or exception) is the same for any incoming flags. *)
Theorem employment_not_carried_over p sr rev0 size g c e2 :
  length e2 = length (emp c) ->
  advance_chunk p sr rev0 size g
    {| cap := cap c; tr := tr c; emp := e2; um := um c; stt := stt c |} =
  advance_chunk p sr rev0 size g c.
Proof.
  intros Hl. unfold advance_chunk, employment_assignment. cbn [cap tr emp um stt].
  by rewrite !fmap_zero_replicate, Hl.
Qed.
End Edge.

(* ------------------------------------------------------------------ *)
(** * The horizon                                                      *)
(* ------------------------------------------------------------------ *)

Section Horizon.
Context `{NP : Numpy}.
Variable uninit : nat -> nat -> nat -> f32.

(** The month loop reads the series only for its bin edges. *)
Lemma month_step_series N q pop0 g ser1 ser2 m pop' g' ser1' :
  bins ser2 = bins ser1 ->
  month_step uninit N q (pop0, g, ser1) m = Ok (pop', g', ser1') ->
  exists st, aggregates pop' (bins ser1) = Ok st /\ ser1' = record_month m st ser1 /\
    month_step uninit N q (pop0, g, ser2) m = Ok (pop', g', record_month m st ser2).
Proof.
  intros Hb H. unfold month_step in *.
  destruct (slot_ratio_month q (Z.of_nat m)) as [sr|]; [|done]. rewrite bind_Ok_l in H |- *.
  destruct (py_range 0 N (chunk_size q)) as [starts|]; [|done]. rewrite bind_Ok_l in H |- *.
  destruct (foldlM _ _ _) as [[pop1 g1]|]; [|done]. rewrite bind_Ok_l in H |- *.
  rewrite Hb. destruct (aggregates pop1 (bins ser1)) as [st|] eqn:Hst; [|done].
  rewrite bind_Ok_l in H |- *. injection H as <- <- <-. by exists st.
Qed.

(** The month loop reads the horizon only to size the series. *)
Lemma month_step_horizon N p m1 m2 pop0 g ser1 ser2 m pop' g' ser1' :
  bins ser2 = bins ser1 ->
  month_step uninit N (set_months m1 p) (pop0, g, ser1) m = Ok (pop', g', ser1') ->
  exists st, aggregates pop' (bins ser1) = Ok st /\ ser1' = record_month m st ser1 /\
    month_step uninit N (set_months m2 p) (pop0, g, ser2) m =
      Ok (pop', g', record_month m st ser2).
Proof.
  intros Hb H.
  change (month_step uninit N (set_months m1 p) (pop0, g, ser1) m) with
         (month_step uninit N (set_months m2 p) (pop0, g, ser1) m) in H.
  by apply month_step_series.
Qed.

Lemma run_months_horizon N p m1 m2 k pop0 g ser1 :
  0 <= m2 ->
  run_months uninit N (set_months m1 p) k = Ok (pop0, g, ser1) ->
  exists ser2, run_months uninit N (set_months m2 p) k = Ok (pop0, g, ser2) /\
    bins ser2 = bins ser1.
Proof.
  intros Hm2. revert pop0 g ser1. induction k as [|k IH]; intros pop0 g ser1 H.
  - unfold run_months in *. apply bind_Ok in H as ([[pop1 g0] ser0] & Hs & H).
    cbn in H. injection H as <- <- <-. unfold sim_start in *.
    change (initialize_population N (set_months m2 p)) with
           (initialize_population N (set_months m1 p)).
    apply bind_Ok in Hs as (pop2 & -> & Hs). cbn [seed set_months] in *.
    apply bind_Ok in Hs as (g1 & -> & Hs). cbn [hist_bins set_months] in *.
    apply bind_Ok in Hs as (row & -> & Hs).
    apply bind_Ok in Hs as (h & _ & Hs). apply bind_Ok in Hs as (zi & _ & Hs).
    apply bind_Ok in Hs as (zf & _ & Hs). injection Hs as <- <- <-.
    rewrite !bind_Ok_l. cbn [months set_months]. unfold np_zeros.
    destruct (m2 <? 0) eqn:E; [lia|]. rewrite !bind_Ok_l. cbn [foldlM]. eauto.
  - rewrite run_months_S in *. apply bind_Ok in H as ([[pop1 g1] ser1'] & Hk & H).
    destruct (IH _ _ _ Hk) as (ser2 & -> & Hb). rewrite bind_Ok_l.
    destruct (month_step_horizon _ _ _ m2 _ _ _ ser2 _ _ _ _ Hb H) as (st & _ & -> & ->).
    eexists. split; [done|]. done.
Qed.

(** X12: lengthening the horizon does not change the months already
    simulated: two runs that differ only in [months] report the same
    counts, sample statistics and histogram for every month of the
    shorter one. *)
Theorem horizon_prefix N p m1 m2 out1 out2 m :
  m1 <= m2 ->
  simulate uninit N (set_months m1 p) = Ok out1 ->
  simulate uninit N (set_months m2 p) = Ok out2 ->
  (m < Z.to_nat m1)%nat ->
  active_ct (series out2) !! m = active_ct (series out1) !! m /\
  exited_ct (series out2) !! m = exited_ct (series out1) !! m /\
  emp_ct (series out2) !! m = emp_ct (series out1) !! m /\
  unemp_ct (series out2) !! m = unemp_ct (series out1) !! m /\
  mean (series out2) !! m = mean (series out1) !! m /\
  p10 (series out2) !! m = p10 (series out1) !! m /\
  p50 (series out2) !! m = p50 (series out1) !! m /\
  p90 (series out2) !! m = p90 (series out1) !! m /\
  hist (series out2) !! m = hist (series out1) !! m.
Proof.
  intros Hle H1 H2 Hm.
  apply simulate_run in H1 as (pop1 & g1 & ser1 & Hr1 & -> & _ & _).
  apply simulate_run in H2 as (pop2 & g2 & ser2 & Hr2 & -> & _ & _).
  cbn [months set_months] in Hr1, Hr2.
  pose proof (run_months_inv uninit _ _ _ _ Hr1) as (_ & _ & _ & _ & Hb1 & _).
  pose proof (run_months_inv uninit _ _ _ _ Hr2) as (_ & Hm2 & _ & _ & Hb2 & _).
  cbn in Hb1, Hb2, Hm2.
  destruct (run_months_entry uninit N (set_months m1 p) _ pop1 g1 ser1 m (le_n _) Hr1 Hm)
    as (pa & ga & sa & st1 & Hra & Hagg1 & He1).
  destruct (run_months_entry uninit N (set_months m2 p) _ pop2 g2 ser2 m (le_n _) Hr2
              ltac:(cbn; lia))
    as (pb & gb & sb & st2 & Hrb & Hagg2 & He2).
  destruct (run_months_horizon _ _ _ m2 _ _ _ _ Hm2 Hra) as (sb' & Hrb' & _).
  rewrite Hrb' in Hrb. injection Hrb as <- <- <-.
  rewrite Hb2, <- Hb1, Hagg1 in Hagg2. injection Hagg2 as <-.
  destruct He1 as (?&?&?&?&?&?&?&?&?), He2 as (?&?&?&?&?&?&?&?&?).
  repeat split; congruence.
Qed.
End Horizon.

(* ------------------------------------------------------------------ *)
(** * Bin edges                                                        *)
(* ------------------------------------------------------------------ *)

Lemma decreasing_edges_any (l : list f32) i a b :
  l !! i = Some a -> l !! S i = Some b -> fgt a b = true ->
  mask_any (zip_with fgt (removelast l) (tail l)) = true.
Proof.
  revert i. induction l as [|x l IH]; intros i Ha Hb Hgt; [done|].
  destruct l as [|y l]; [by destruct i|].
  change (removelast (x :: y :: l)) with (x :: removelast (y :: l)).
  cbn [tail zip_with mask_any foldr]. destruct i as [|i].
  - cbn in Ha, Hb. injection Ha as ->. injection Hb as ->. by rewrite Hgt.
  - apply orb_true_iff. right. by apply (IH i).
Qed.

Section Bins.
Context `{NP : Numpy}.
Variable uninit : nat -> nat -> nat -> f32.

(** X16: the bin edges are not validated before the month loop.
    When some edge is greater than its successor, a run of zero months
    still returns normally once its start-up and the final power have
    succeeded; a run of at least one month always fails, and once the
    start-up, the slot ratio, the chunk loop, the sample lookup and
    [np.percentile] of month 0 have succeeded, the exception is the
    ValueError of [np.histogram] in month 0. *)
Theorem unsorted_bins_raise N p i e1 e2 :
  hist_bins p !! i = Some e1 -> hist_bins p !! S i = Some e2 ->
  fgt (to_f32 e1) (to_f32 e2) = true ->
  (months p = 0 ->
   forall pop0 g0 ser0 x,
     sim_start N p = Ok (pop0, g0, ser0) -> slot_product p (-1) = Ok x ->
     simulate uninit N p =
       Ok {| series := ser0; final_effective_job_slot_ratio := x; pop := pop0 |}) /\
  (0 < months p -> is_Ok (simulate uninit N p) = false) /\
  (0 < months p ->
   forall pop0 g0 ser0 sr starts pop1 g1 samp pct,
     sim_start N p = Ok (pop0, g0, ser0) ->
     slot_ratio_month p 0 = Ok sr ->
     py_range 0 N (chunk_size p) = Ok starts ->
     foldlM (chunk_step uninit N p 0 sr) (pop0, g0) starts = Ok (pop1, g1) ->
     gather (capital pop1) (sample_idx pop1) = Ok samp ->
     np_percentile samp [10; 50; 90] = Ok pct ->
     simulate uninit N p = Err ValueError).
Proof.
  intros H1 H2 Hgt.
  assert (mask_any (zip_with fgt (removelast (to_f32 <$> hist_bins p))
                      (tail (to_f32 <$> hist_bins p))) = true) as Hany.
  { apply (decreasing_edges_any (to_f32 <$> hist_bins p) i (to_f32 e1) (to_f32 e2)); try done.
    - by rewrite list_lookup_fmap, H1.
    - by rewrite list_lookup_fmap, H2. }
  split; [|split].
  - intros Hm pop0 g0 ser0 x Hs Hx. unfold simulate, run_months.
    rewrite Hs, Hm, bind_Ok_l. change (Z.to_nat 0) with 0%nat. cbn [seq foldlM].
    rewrite bind_Ok_l.
    change (0 - 1) with (-1). by rewrite Hx.
  - intros Hm.
    assert (exists k, Z.to_nat (months p) = S k) as [k Hk]
      by (exists (Z.to_nat (months p) - 1)%nat; lia).
    unfold simulate. rewrite Hk. apply is_Ok_bind_false. rewrite run_months_S.
    apply is_Ok_bind_inv. intros [[pop0 g] ser] Hr.
    pose proof (run_months_inv uninit _ _ _ _ Hr) as (_ & _ & _ & _ & Hb & _). cbn in Hb.
    unfold month_step.
    apply is_Ok_bind_inv. intros sr _. apply is_Ok_bind_inv. intros starts _.
    apply is_Ok_bind_inv. intros [pop1 g1] _. apply is_Ok_bind_false.
    unfold aggregates.
    apply is_Ok_bind_inv. intros samp _. apply is_Ok_bind_inv. intros pct _.
    apply is_Ok_bind_inv. intros [[q1 q2] q3] _. apply is_Ok_bind_false.
    unfold np_histogram. by rewrite Hb, Hany.
  - intros Hm pop0 g0 ser0 sr starts pop1 g1 samp pct Hs Hsr Hr Hf Hg Hp.
    assert (exists k, Z.to_nat (months p) = S k) as [k Hk]
      by (exists (Z.to_nat (months p) - 1)%nat; lia).
    unfold simulate, run_months. rewrite Hs, Hk, bind_Ok_l. cbn [seq foldlM].
    assert (month_step uninit N p (pop0, g0, ser0) 0 = Err ValueError) as ->; [|done].
    apply sim_start_inv in Hs as (_ & _ & _ & Hb & _).
    unfold month_step. change (Z.of_nat 0) with 0.
    rewrite Hsr, bind_Ok_l, Hr, bind_Ok_l, Hf, bind_Ok_l.
    unfold aggregates. rewrite Hg, bind_Ok_l, Hp, bind_Ok_l.
    pose proof (np_percentile_length _ _ _ Hp) as Hl.
    destruct pct as [|q1 [|q2 [|q3 [|q4 pct]]]]; try discriminate Hl.
    cbn [fmap list_fmap unpack3]. rewrite bind_Ok_l.
    unfold np_histogram. by rewrite Hb, Hany.
Qed.
End Bins.

(* ------------------------------------------------------------------ *)
(** * The command line                                                 *)
(* ------------------------------------------------------------------ *)

Lemma py_last_lookup {A} (l : list A) x :
  py_last l = Ok x -> l !! (length l - 1)%nat = Some x.
Proof.
  unfold py_last. rewrite last_lookup.
  replace (pred (length l)) with (length l - 1)%nat by lia.
  destruct (l !! _); [by intros [= ->]|done].
Qed.

Section MainProps.
Context `{NP : Numpy}.
Variable uninit : nat -> nat -> nat -> f32.

Lemma aggregates_nonneg pop0 edges st :
  aggregates pop0 edges = Ok st ->
  0 <= ms_active st /\ 0 <= ms_exited st /\ 0 <= ms_emp st /\ 0 <= ms_unemp st.
Proof.
  unfold aggregates. intros H.
  apply bind_Ok in H as (samp & _ & H). apply bind_Ok in H as (pct & _ & H).
  apply bind_Ok in H as ([[q1 q2] q3] & _ & H). apply bind_Ok in H as (h & _ & H).
  injection H as <-. cbn. unfold count_nonzero. lia.
Qed.

(** A run on an empty population with at least one month and a
    non-zero chunk size reaches the first aggregation with an empty
    sample, and fails there as [np.percentile] does on an empty array. *)
Lemma simulate_empty_population p st pw e :
  0 < months p -> chunk_size p <> 0 ->
  sim_start 0 p = Ok st ->
  py_pow (F64.sub (F64.of_Z 1) (job_slot_decline p)) 0 = Ok pw ->
  np_percentile [] [10; 50; 90] = Err e ->
  simulate uninit 0 p = Err e.
Proof.
  intros Hm Hc Hs Hp He. destruct st as [[pop0 g0] ser0].
  assert (exists k, Z.to_nat (months p) = S k) as [k Hk]
    by (exists (Z.to_nat (months p) - 1)%nat; lia).
  unfold simulate, run_months. rewrite Hs, Hk, bind_Ok_l. cbn [seq foldlM].
  assert (month_step uninit 0 p (pop0, g0, ser0) 0 = Err e) as ->; [|done].
  apply sim_start_inv in Hs as (Hi & _).
  apply initialize_population_wf in Hi as (_ & (Lc & _) & _ & Ls & _).
  assert (capital pop0 = []) as Ec by (by destruct (capital pop0)).
  assert (sample_idx pop0 = []) as Es.
  { destruct (sample_idx pop0); [done|]. cbn [length] in Ls. lia. }
  assert (py_range 0 0 (chunk_size p) = Ok []) as Hr.
  { destruct (Z_lt_le_dec (chunk_size p) 0) as [Hneg|Hpos].
    - by apply py_range_negative_step.
    - rewrite py_range_single by lia. done. }
  unfold month_step, slot_ratio_month. change (Z.of_nat 0) with 0.
  rewrite Hp, !bind_Ok_l, Hr, bind_Ok_l. cbn [foldlM]. rewrite bind_Ok_l.
  unfold aggregates. rewrite Ec, Es. cbn [gather]. rewrite bind_Ok_l, He. done.
Qed.

(** X13: two command lines on which [main] fails.  With
    [--months 0] the run succeeds with empty series and
    [s["exited"][-1]] raises IndexError.  With [--N 0], at least one
    month and a non-zero chunk size, the run itself fails in the first
    month: the sample is empty, and [main] raises what [np.percentile]
    raises on an empty array (IndexError in NumPy), so the division
    [exited_end / args.N] is never reached. *)
Theorem main_edge_errors a :
  (forall out,
     simulate uninit (arg_N a) (main_params a) = Ok out ->
     arg_months a = 0 -> main uninit a = Err IndexError) /\
  (forall st pw e,
     arg_N a = 0 -> 0 < arg_months a -> arg_chunk a <> 0 ->
     sim_start 0 (main_params a) = Ok st ->
     py_pow (F64.sub (F64.of_Z 1) (job_slot_decline default_params)) 0 = Ok pw ->
     np_percentile [] [10; 50; 90] = Err e ->
     simulate uninit (arg_N a) (main_params a) = Err e /\ main uninit a = Err e).
Proof.
  split.
  - intros out H Hm. unfold main. cbn zeta. rewrite H, bind_Ok_l.
    apply simulate_run in H as (pop0 & g & ser & Hr & -> & _ & _).
    pose proof (run_months_inv uninit _ _ _ _ Hr) as (_ & _ & _ & _ & _ & Hw). cbn in Hw.
    destruct Hw as (La & Lx & _). cbn in Lx. rewrite Hm in Lx.
    destruct (exited_ct ser); [done|done].
  - intros st pw e HN Hm Hc Hs Hp He.
    assert (simulate uninit (arg_N a) (main_params a) = Err e) as Hsim.
    { rewrite HN. by eapply simulate_empty_population. }
    split; [done|]. unfold main. cbn zeta. by rewrite Hsim.
Qed.

(** X14: when [main] returns and nobody is active in the last month,
    the final unemployment rate is 0.0, by the guard
    [max(active, 1)], and the final exited count is [N]. *)
Theorem main_all_exited a out s :
  simulate uninit (arg_N a) (main_params a) = Ok out -> main uninit a = Ok s ->
  py_last (active_ct (series out)) = Ok 0 ->
  unemp_rate_end s = F64.of_Z 0 /\ exited_end s = arg_N a.
Proof.
  intros H Hmain Hact. unfold main in Hmain. cbn zeta in Hmain.
  rewrite H, bind_Ok_l in Hmain.
  apply bind_Ok in Hmain as (e & He & Hmain). apply bind_Ok in Hmain as (q & _ & Hmain).
  apply bind_Ok in Hmain as (u & Hu & Hmain). apply bind_Ok in Hmain as (act & Ha & Hmain).
  apply bind_Ok in Hmain as (med & _ & Hmain). injection Hmain as <-. cbn.
  rewrite Hact in Ha. injection Ha as <-.
  apply simulate_run in H as (pop0 & g & ser & Hr & Hser & _ & _). rewrite Hser in *.
  pose proof (run_months_inv uninit _ _ _ _ Hr) as (_ & _ & _ & _ & _ & Hw). cbn in Hw.
  destruct Hw as (La & Lx & _ & Lu & _).
  apply py_last_lookup in He, Hu, Hact. rewrite Lx in He. rewrite Lu in Hu. rewrite La in Hact.
  cbn [months main_params] in *.
  set (k := Z.to_nat (arg_months a)) in *.
  assert (k - 1 < k)%nat as Hk.
  { apply lookup_lt_Some in Hact. rewrite La in Hact. lia. }
  destruct (run_months_entry uninit _ _ _ pop0 g ser (k - 1)%nat (le_n _) Hr Hk)
    as (pm & gm & sm & st & Hrm & Hagg & Hent).
  destruct Hent as (E1 & E2 & _ & E4 & _).
  pose proof (run_months_inv uninit _ _ _ _ Hrm) as (_ & _ & Hwf & Hok & _). cbn in Hwf, Hok.
  destruct (aggregates_counts _ _ _ _ Hwf Hok Hagg) as [H1 H2].
  destruct (aggregates_nonneg _ _ _ Hagg) as (_ & _ & P3 & P4).
  pose proof (run_months_inv uninit _ _ _ _ Hr) as (HN & _).
  assert (ms_active st = 0) as Z1 by congruence.
  assert (u = ms_unemp st) as -> by congruence.
  assert (e = ms_exited st) as -> by congruence.
  replace (ms_unemp st) with 0 by lia. split; [done|lia].
Qed.

(** X15: the command line cannot change the thresholds, so in every
    run started by [main] (insolvent threshold 0.0 below precarious
    threshold 1.5) the final states agree with the final capitals: an
    agent whose capital is a number is EXITED with a capital at most 0.0,
    or INSOLVENT, PRECARIOUS or STABLE as its capital says. *)
Theorem main_runs_state_matches a out j ag :
  simulate uninit (arg_N a) (main_params a) = Ok out ->
  agent_at (pop out) j = Some ag -> is_nan (a_cap ag) = false ->
  (a_state ag = EXITED /\ fle (a_cap ag) (to_f32 (insolvent_thresh default_params)) = true) \/
  a_state ag =
    (if fle (a_cap ag) (to_f32 (insolvent_thresh default_params)) then INSOLVENT
     else if flt (a_cap ag) (to_f32 (precarious_thresh default_params)) then PRECARIOUS
     else STABLE).
Proof.
  intros H Ha. apply simulate_run in H as (pop0 & g & ser & Hr & _ & Hp & _).
  rewrite Hp in Ha.
  assert (flt (to_f32 (insolvent_thresh (main_params a)))
              (to_f32 (precarious_thresh (main_params a))) = true) as Hth by (by vm_compute).
  exact (run_months_state_matches uninit _ _ _ _ _ _ _ _ Hth Hr Ha).
Qed.
End MainProps.

(* ------------------------------------------------------------------ *)
(** * More runs on explicit inputs                                     *)
(* ------------------------------------------------------------------ *)

Module CaseRuns.
Import Demo Cases.

Lemma initial_population_witness :
  exists pop0 a,
    @initialize_population (Table.numpy (tables four)) 2 P_month = Ok pop0 /\
    agent_at pop0 0 = Some a /\
    a_emp a = 0 /\ a_um a = 0 /\ 0 <= a_tier a < 3 /\
    fgt (a_cap a) (to_f32 (capital_cap_max P_month)) = false /\
    a_state a =
      (if fle (a_cap a) (to_f32 (insolvent_thresh P_month)) then INSOLVENT
       else if flt (a_cap a) (to_f32 (precarious_thresh P_month)) then PRECARIOUS
       else STABLE).
Proof.
  destruct (@initialize_population (Table.numpy (tables four)) 2 P_month) as [pop0|e] eqn:H;
    [|vm_compute in H; discriminate H].
  destruct (agent_at pop0 0) as [a|] eqn:Ha.
  2:{ exfalso. pose proof H as H'. vm_compute in H'. injection H' as <-. vm_compute in Ha. discriminate Ha. }
  exists pop0, a. split; [first [assumption | reflexivity]|]. split; [first [assumption | reflexivity]|].
  exact (initial_population (NP := Table.numpy (tables four)) 2 P_month pop0 0%nat a H Ha).
Defined.

Lemma arrays_keep_shape_witness :
  exists pop0 pop1,
    pop_of (run four 2 P_month 1) = Some pop0 /\
    @initialize_population (Table.numpy (tables four)) 2 P_month = Ok pop1 /\
    tiers pop0 = tiers pop1 /\ sample_idx pop0 = sample_idx pop1 /\
    Forall (fun t => 0 <= t < 3) (tiers pop0) /\
    length (capital pop0) = Z.to_nat 2 /\ length (tiers pop0) = Z.to_nat 2 /\
    length (employed pop0) = Z.to_nat 2 /\ length (unemp_months pop0) = Z.to_nat 2 /\
    length (state pop0) = Z.to_nat 2.
Proof.
  unfold run.
  destruct (run_months uninit 2 P_month 1) as [[[pop0 g] ser]|e] eqn:H1;
    [|vm_compute in H1; discriminate H1].
  destruct (arrays_keep_shape (NP := Table.numpy (tables four)) uninit 2 P_month 1 pop0 g ser H1)
    as (pop1 & Hc).
  exists pop0, pop1. split; [first [assumption | reflexivity]|]. exact Hc.
Defined.

Lemma sample_lookup_succeeds_witness :
  exists pop0 samp,
    pop_of (run four 2 P_month 1) = Some pop0 /\
    gather (capital pop0) (sample_idx pop0) = Ok samp /\
    length samp = Z.to_nat (Z.min (sample_size P_month) 2) /\
    (length samp <= Z.to_nat 2)%nat.
Proof.
  unfold run.
  destruct (run_months uninit 2 P_month 1) as [[[pop0 g] ser]|e] eqn:H1;
    [|vm_compute in H1; discriminate H1].
  destruct (sample_lookup_succeeds (NP := Table.numpy (tables four))
              uninit 2 P_month 1 pop0 g ser H1) as (samp & Hc).
  exists pop0, samp. split; [first [assumption | reflexivity]|]. exact Hc.
Defined.

Lemma output_shape_witness :
  exists out,
    sim four 2 P_month = Ok out /\
    length (active_ct (series out)) = Z.to_nat (months P_month) /\
    length (hist (series out)) = Z.to_nat (months P_month) /\
    bins (series out) = to_f32 <$> hist_bins P_month /\
    Forall (fun row => length row = (length (hist_bins P_month) - 1)%nat) (hist (series out)).
Proof.
  unfold sim.
  destruct (simulate uninit 2 P_month) as [out|e] eqn:H; [|vm_compute in H; discriminate H].
  destruct (output_shape (NP := Table.numpy (tables four)) uninit 2 P_month out H)
    as (_ & _ & H1 & _ & _ & _ & _ & _ & _ & _ & H9 & Hb & Hrows).
  exists out. split; [first [assumption | reflexivity]|]. split; [exact H1|]. split; [exact H9|]. split; [exact Hb|].
  exact Hrows.
Defined.

Lemma month_one_step_witness :
  exists pop0 pop' a a' (hired sep exit_hit : bool),
    0 < chunk_size P_month /\
    pop_of (run four 2 P_month 0) = Some pop0 /\
    pop_of (run four 2 P_month 1) = Some pop' /\
    agent_at pop0 1 = Some a /\ agent_at pop' 1 = Some a' /\
    a_tier a' = a_tier a /\
    (a_state a = EXITED -> a_cap a' = a_cap a) /\
    (a_emp a', a_um a', a_state a') =
      agent_month P_month (a_state a) (a_um a) hired sep exit_hit (a_cap a').
Proof.
  unfold run.
  destruct (run_months uninit 2 P_month 0) as [[[pop0 g] ser]|e] eqn:H0;
    [|vm_compute in H0; discriminate H0].
  destruct (run_months uninit 2 P_month 1) as [[[pop' g'] ser']|e] eqn:H1;
    [|vm_compute in H1; discriminate H1].
  destruct (agent_at pop0 1) as [a|] eqn:Ha.
  2:{ exfalso. pose proof H0 as H'. vm_compute in H'. injection H' as <- _ _.
      vm_compute in Ha. discriminate Ha. }
  assert (0 < chunk_size P_month) as Hc by (vm_compute; reflexivity).
  destruct (month_one_step (NP := Table.numpy (tables four)) uninit 2 P_month 0
              pop0 g ser pop' g' ser' 1%nat a Hc H0 H1 Ha)
    as (a' & h & s & x & Ha' & Hrest).
  exists pop0, pop', a, a', h, s, x. split; [first [assumption | reflexivity]|]. split; [first [assumption | reflexivity]|]. split; [first [assumption | reflexivity]|].
  split; [first [assumption | reflexivity]|]. split; [first [assumption | reflexivity]|]. exact Hrest.
Defined.

Lemma state_tracks_capital_witness :
  exists pop0 a,
    flt (to_f32 (insolvent_thresh P_exit)) (to_f32 (precarious_thresh P_exit)) = true /\
    pop_of (run minus_one 2 P_exit 1) = Some pop0 /\
    agent_at pop0 0 = Some a /\ is_nan (a_cap a) = false /\
    ((a_state a = EXITED /\ fle (a_cap a) (to_f32 (insolvent_thresh P_exit)) = true) \/
     a_state a =
       (if fle (a_cap a) (to_f32 (insolvent_thresh P_exit)) then INSOLVENT
        else if flt (a_cap a) (to_f32 (precarious_thresh P_exit)) then PRECARIOUS
        else STABLE)).
Proof.
  unfold run.
  destruct (run_months uninit 2 P_exit 1) as [[[pop0 g] ser]|e] eqn:H1;
    [|vm_compute in H1; discriminate H1].
  destruct (agent_at pop0 0) as [a|] eqn:Ha.
  2:{ exfalso. pose proof H1 as H'. vm_compute in H'. injection H' as <- _ _.
      vm_compute in Ha. discriminate Ha. }
  assert (is_nan (a_cap a) = false) as Hn.
  { pose proof H1 as H'. vm_compute in H'. injection H' as <- _ _.
    vm_compute in Ha. injection Ha as <-. reflexivity. }
  assert (flt (to_f32 (insolvent_thresh P_exit)) (to_f32 (precarious_thresh P_exit)) = true)
    as Hth by (vm_compute; reflexivity).
  exists pop0, a. split; [first [assumption | reflexivity]|]. split; [first [assumption | reflexivity]|]. split; [first [assumption | reflexivity]|]. split; [first [assumption | reflexivity]|].
  exact (state_tracks_capital (NP := Table.numpy (tables minus_one)) uninit 2 P_exit 1
           pop0 g ser 0%nat a Hth H1 Ha Hn).
Defined.

Lemma employed_have_no_duration_witness :
  exists pop0 a,
    pop_of (run four 2 P_month 1) = Some pop0 /\ agent_at pop0 0 = Some a /\
    0 <= a_um a <= 255 /\ (a_emp a = 1 -> a_um a = 0).
Proof.
  unfold run.
  destruct (run_months uninit 2 P_month 1) as [[[pop0 g] ser]|e] eqn:H1;
    [|vm_compute in H1; discriminate H1].
  destruct (agent_at pop0 0) as [a|] eqn:Ha.
  2:{ exfalso. pose proof H1 as H'. vm_compute in H'. injection H' as <- _ _.
      vm_compute in Ha. discriminate Ha. }
  exists pop0, a. split; [first [assumption | reflexivity]|]. split; [first [assumption | reflexivity]|].
  exact (employed_have_no_duration (NP := Table.numpy (tables four)) uninit 2 P_month 1
           pop0 g ser 0%nat a H1 Ha).
Defined.

Lemma negative_chunk_freezes_witness :
  exists out,
    chunk_size P_negative_chunk < 0 /\ sim four 2 P_negative_chunk = Ok out /\
    @initialize_population (Table.numpy (tables four)) 2 P_negative_chunk = Ok (pop out) /\
    active_ct (series out) !! 0%nat = Some 2 /\ exited_ct (series out) !! 0%nat = Some 0 /\
    emp_ct (series out) !! 0%nat = Some 0 /\ unemp_ct (series out) !! 0%nat = Some 2.
Proof.
  unfold sim.
  destruct (simulate uninit 2 P_negative_chunk) as [out|e] eqn:H; [|vm_compute in H; discriminate H].
  assert (chunk_size P_negative_chunk < 0) as Hc by (vm_compute; reflexivity).
  destruct (negative_chunk_freezes (NP := Table.numpy (tables four)) uninit 2
              P_negative_chunk out Hc H) as (Hi & Hm).
  exists out. split; [first [assumption | reflexivity]|]. split; [first [assumption | reflexivity]|]. split; [exact Hi|].
  apply Hm. vm_compute. lia.
Defined.

Lemma zero_chunk_raises_witness :
  chunk_size P_zero_chunk = 0 /\ 0 < months P_zero_chunk /\
  is_Ok (sim four 2 P_zero_chunk) = false /\
  sim four 2 P_zero_chunk = Err ValueError.
Proof.
  assert (chunk_size P_zero_chunk = 0) as Hc by reflexivity.
  assert (0 < months P_zero_chunk) as Hm by (vm_compute; reflexivity).
  destruct (zero_chunk_raises (NP := Table.numpy (tables four)) uninit 2 P_zero_chunk Hc Hm)
    as (Hf & He).
  split; [first [assumption | reflexivity]|]. split; [first [assumption | reflexivity]|]. split; [exact Hf|].
  destruct (@sim_start (Table.numpy (tables four)) 2 P_zero_chunk) as [st|e] eqn:Hs;
    [|vm_compute in Hs; discriminate Hs].
  apply (He st (F64.of_Z 1)); [reflexivity|]. vm_compute. reflexivity.
Defined.

Lemma slot_ratio_clamped_witness :
  @slot_ratio_month (Table.numpy (tables four)) P_over 0 = Ok (F64.of_Z 1) /\
  is_nan (F64.of_Z 1) = false /\
  fle (F64.of_Z 0) (F64.of_Z 1) = true /\ fle (F64.of_Z 1) (F64.of_Z 1) = true.
Proof.
  assert (@slot_ratio_month (Table.numpy (tables four)) P_over 0 = Ok (F64.of_Z 1)) as H
    by (vm_compute; reflexivity).
  assert (is_nan (F64.of_Z 1) = false) as Hn by reflexivity.
  split; [first [assumption | reflexivity]|]. split; [first [assumption | reflexivity]|].
  exact (slot_ratio_clamped (NP := Table.numpy (tables four)) P_over 0 (F64.of_Z 1) H Hn).
Defined.

Lemma employment_not_carried_over_witness :
  length [1; 0] = length (emp chunk2) /\
  @advance_chunk (Table.numpy (tables four)) P_month half (uninit 0 0) 2 (0, 0%nat)
    {| cap := cap chunk2; tr := tr chunk2; emp := [1; 0]; um := um chunk2; stt := stt chunk2 |} =
  @advance_chunk (Table.numpy (tables four)) P_month half (uninit 0 0) 2 (0, 0%nat) chunk2.
Proof.
  assert (length [1; 0] = length (emp chunk2)) as Hl by reflexivity.
  split; [first [assumption | reflexivity]|].
  exact (employment_not_carried_over (NP := Table.numpy (tables four)) P_month half
           (uninit 0 0) 2 (0, 0%nat) chunk2 [1; 0] Hl).
Defined.

Lemma horizon_prefix_witness :
  exists out1 out2,
    1 <= 3 /\
    sim minus_one 2 (set_months 1 P_exit) = Ok out1 /\
    sim minus_one 2 (set_months 3 P_exit) = Ok out2 /\
    (0 < Z.to_nat 1)%nat /\
    exited_ct (series out2) !! 0%nat = exited_ct (series out1) !! 0%nat /\
    hist (series out2) !! 0%nat = hist (series out1) !! 0%nat.
Proof.
  unfold sim.
  destruct (simulate uninit 2 (set_months 1 P_exit)) as [out1|e] eqn:H1;
    [|vm_compute in H1; discriminate H1].
  destruct (simulate uninit 2 (set_months 3 P_exit)) as [out2|e] eqn:H2;
    [|vm_compute in H2; discriminate H2].
  assert (1 <= 3) as Hle by lia.
  assert (0 < Z.to_nat 1)%nat as Hm by (vm_compute; lia).
  destruct (horizon_prefix (NP := Table.numpy (tables minus_one)) uninit 2 P_exit 1 3
              out1 out2 0%nat Hle H1 H2 Hm) as (_ & Hx & _ & _ & _ & _ & _ & _ & Hh).
  exists out1, out2. split; [first [assumption | reflexivity]|]. split; [first [assumption | reflexivity]|]. split; [first [assumption | reflexivity]|]. split; [first [assumption | reflexivity]|].
  split; [exact Hx | exact Hh].
Defined.

Lemma main_edge_errors_witness :
  (is_Ok (sim_of (tables four) 2 (main_params (args 2 0))) = true /\
   arg_months (args 2 0) = 0 /\ main_of (tables four) (args 2 0) = Err IndexError) /\
  (arg_N (args 0 1) = 0 /\ 0 < arg_months (args 0 1) /\ arg_chunk (args 0 1) <> 0 /\
   is_Ok (@sim_start (Table.numpy (tables four)) 0 (main_params (args 0 1))) = true /\
   Table.percentile [] [10; 50; 90] = Err IndexError /\
   sim_of (tables four) 0 (main_params (args 0 1)) = Err IndexError /\
   main_of (tables four) (args 0 1) = Err IndexError).
Proof.
  unfold sim_of, main_of. split.
  - destruct (simulate uninit 2 (main_params (args 2 0))) as [out|e] eqn:H;
      [|vm_compute in H; discriminate H].
    split; [reflexivity|]. split; [reflexivity|].
    exact (proj1 (main_edge_errors (NP := Table.numpy (tables four)) uninit (args 2 0))
             out H eq_refl).
  - assert (arg_N (args 0 1) = 0) as HN by reflexivity.
    assert (0 < arg_months (args 0 1)) as Hm by reflexivity.
    assert (arg_chunk (args 0 1) <> 0) as Hc by (vm_compute; discriminate).
    assert (Table.percentile [] [10; 50; 90] = Err IndexError) as He by reflexivity.
    split; [exact HN|]. split; [exact Hm|]. split; [exact Hc|].
    destruct (@sim_start (Table.numpy (tables four)) 0 (main_params (args 0 1)))
      as [st|e] eqn:Hs; [|vm_compute in Hs; discriminate Hs].
    split; [reflexivity|]. split; [exact He|].
    refine (proj2 (main_edge_errors (NP := Table.numpy (tables four)) uninit (args 0 1))
              st _ IndexError HN Hm Hc Hs _ He).
    vm_compute. reflexivity.
Defined.

Lemma main_all_exited_witness :
  exists out s,
    sim_of tables_exit 2 (main_params (args 2 1)) = Ok out /\
    main_of tables_exit (args 2 1) = Ok s /\
    py_last (active_ct (series out)) = Ok 0 /\
    unemp_rate_end s = F64.of_Z 0 /\ exited_end s = 2.
Proof.
  unfold sim_of, main_of.
  destruct (simulate uninit 2 (main_params (args 2 1))) as [out|e] eqn:H;
    [|vm_compute in H; discriminate H].
  destruct (main uninit (args 2 1)) as [s|e] eqn:Hm; [|vm_compute in Hm; discriminate Hm].
  assert (py_last (active_ct (series out)) = Ok 0) as Ha.
  { pose proof H as H'. vm_compute in H'. injection H' as <-. reflexivity. }
  exists out, s. split; [first [assumption | reflexivity]|]. split; [first [assumption | reflexivity]|]. split; [first [assumption | reflexivity]|].
  exact (main_all_exited (NP := Table.numpy tables_exit) uninit (args 2 1) out s H Hm Ha).
Defined.

Lemma main_runs_state_matches_witness :
  exists out ag,
    sim_of tables_exit 2 (main_params (args 2 1)) = Ok out /\
    agent_at (pop out) 0 = Some ag /\ is_nan (a_cap ag) = false /\
    ((a_state ag = EXITED /\
      fle (a_cap ag) (to_f32 (insolvent_thresh default_params)) = true) \/
     a_state ag =
       (if fle (a_cap ag) (to_f32 (insolvent_thresh default_params)) then INSOLVENT
        else if flt (a_cap ag) (to_f32 (precarious_thresh default_params)) then PRECARIOUS
        else STABLE)).
Proof.
  unfold sim_of.
  destruct (simulate uninit 2 (main_params (args 2 1))) as [out|e] eqn:H;
    [|vm_compute in H; discriminate H].
  destruct (agent_at (pop out) 0) as [ag|] eqn:Ha.
  2:{ exfalso. pose proof H as H'. vm_compute in H'. injection H' as <-.
      vm_compute in Ha. discriminate Ha. }
  assert (is_nan (a_cap ag) = false) as Hn.
  { pose proof H as H'. vm_compute in H'. injection H' as <-.
    vm_compute in Ha. injection Ha as <-. reflexivity. }
  exists out, ag. split; [first [assumption | reflexivity]|]. split; [first [assumption | reflexivity]|]. split; [first [assumption | reflexivity]|].
  exact (main_runs_state_matches (NP := Table.numpy tables_exit) uninit (args 2 1)
           out 0%nat ag H Ha Hn).
Defined.

Lemma unsorted_bins_raise_witness :
  hist_bins P_unsorted !! 0%nat = Some one /\ hist_bins P_unsorted !! 1%nat = Some zero /\
  fgt (to_f32 one) (to_f32 zero) = true /\
  (months P_unsorted_none = 0 /\ is_Ok (sim four 2 P_unsorted_none) = true) /\
  (0 < months P_unsorted /\ is_Ok (sim four 2 P_unsorted) = false /\
   sim four 2 P_unsorted = Err ValueError).
Proof.
  assert (hist_bins P_unsorted !! 0%nat = Some one) as H1 by reflexivity.
  assert (hist_bins P_unsorted !! 1%nat = Some zero) as H2 by reflexivity.
  assert (fgt (to_f32 one) (to_f32 zero) = true) as Hgt by (vm_compute; reflexivity).
  assert (0 < months P_unsorted) as Hm by (vm_compute; reflexivity).
  assert (months P_unsorted_none = 0) as Hm0 by reflexivity.
  split; [exact H1|]. split; [exact H2|]. split; [exact Hgt|].
  destruct (unsorted_bins_raise (NP := Table.numpy (tables four)) uninit 2 P_unsorted_none
              0%nat one zero H1 H2 Hgt) as (Hnone & _ & _).
  destruct (unsorted_bins_raise (NP := Table.numpy (tables four)) uninit 2 P_unsorted
              0%nat one zero H1 H2 Hgt) as (_ & Hfail & Herr).
  specialize (Hnone Hm0). specialize (Herr Hm).
  split; [|split; [exact Hm|split; [exact (Hfail Hm)|]]].
  - split; [exact Hm0|]. unfold sim.
    erewrite Hnone; [reflexivity| |].
    + vm_compute. reflexivity.
    + vm_compute. reflexivity.
  - unfold sim. eapply Herr.
    + vm_compute. reflexivity.
    + vm_compute. reflexivity.
    + vm_compute. reflexivity.
    + vm_compute. reflexivity.
    + vm_compute. reflexivity.
    + vm_compute. reflexivity.
Defined.
End CaseRuns.
